(** * Excel-AI-Agent: the statistical analysis core

    A shallow embedding of [src/features/dataAnalyzer.js] (class
    [DataAnalyzer]), of the forecast helpers of the predictions route and
    of the scenario builders and the sensitivity analysis of
    [WhatIfAnalysis], followed by the properties established about them.

    Numbers.  A JavaScript number is a binary64 double.  The embedding
    models a double by the real number it denotes, extended with [NaN],
    [+Infinity] and [-Infinity]: arithmetic on finite values is the
    arithmetic of the reals (no rounding, no overflow, one zero), while
    every operation whose IEEE-754 result is not finite (division by zero,
    [Infinity - Infinity], [0 * Infinity], the square root of a negative
    number) yields the same special value as in JavaScript.  Model and
    program therefore compute the same number wherever the program does not
    round, and the properties below are stated so that they hold of the
    program, not only of the model: they are either about the form of a
    result (which formula, which branch, which keys), or about inputs on
    which the computation is exact or every rounding keeps the stated
    relation, namely whole numbers within explicit bounds ([whole_sample]).
    Where rounding makes the program part from exact arithmetic, module
    [Binary64] runs the routine concerned on Rocq's binary64 floats.
    Integer quantities that the code only uses as lengths and positions
    ([length], loop counters, [Math.floor (length / 2)]) are kept in [nat]
    and [Z]. *)

From Stdlib Require Import Floats.
From Stdlib Require Import String Ascii DecimalString DecimalNat QArith.
From Stdlib Require Import Reals Lra Lia ZArith Bool List.
From Stdlib Require Import Sorting.Permutation Sorting.Sorted Classical_Prop.
Import ListNotations.

Open Scope R_scope.
Set Warnings "-inexact-float".

(** ** JavaScript numbers

    A finite double is modelled by its value, [Fin r].  An operation of the
    model returns the exact result, where JavaScript returns that result
    rounded to the nearest double, or an infinity when it lies beyond the
    range of doubles.  The two agree whenever the exact result is itself a
    double, as for sums, differences and products of whole numbers below
    [2 ^ 53]. *)

Inductive number : Type :=
  | NaN
  | PInf
  | NInf
  | Fin (r : R).

(** The result of reading a property that may be absent ([array[i]]). *)
Inductive value : Type :=
  | Undefined
  | Num (x : number).

Definition ToNumber (v : value) : number :=
  match v with
  | Undefined => NaN
  | Num x => x
  end.

Definition Req_b (x y : R) : bool := if Req_dec_T x y then true else false.
Definition Rlt_b (x y : R) : bool := if Rlt_dec x y then true else false.

Definition of_nat (n : nat) : number := Fin (IZR (Z.of_nat n)).
Definition of_Z (z : Z) : number := Fin (IZR z).

Definition isNaN (x : number) : bool :=
  match x with NaN => true | _ => false end.

Definition isFinite (x : number) : bool :=
  match x with Fin _ => true | _ => false end.

(** [a + b] *)
Definition jadd (a b : number) : number :=
  match a, b with
  | NaN, _ | _, NaN => NaN
  | PInf, NInf | NInf, PInf => NaN
  | PInf, _ | _, PInf => PInf
  | NInf, _ | _, NInf => NInf
  | Fin x, Fin y => Fin (x + y)
  end.

(** [- a] *)
Definition jneg (a : number) : number :=
  match a with
  | NaN => NaN
  | PInf => NInf
  | NInf => PInf
  | Fin x => Fin (- x)
  end.

(** [a - b] *)
Definition jsub (a b : number) : number :=
  match a, b with
  | NaN, _ | _, NaN => NaN
  | PInf, PInf | NInf, NInf => NaN
  | PInf, _ | _, NInf => PInf
  | NInf, _ | _, PInf => NInf
  | Fin x, Fin y => Fin (x - y)
  end.

(** The infinity whose sign is that of [x], for [x] a non-zero real. *)
Definition signed_inf (positive : bool) : number :=
  if positive then PInf else NInf.

(** [a * b] *)
Definition jmul (a b : number) : number :=
  match a, b with
  | NaN, _ | _, NaN => NaN
  | Fin x, Fin y => Fin (x * y)
  | PInf, Fin x | Fin x, PInf =>
      if Req_b x 0 then NaN else signed_inf (Rlt_b 0 x)
  | NInf, Fin x | Fin x, NInf =>
      if Req_b x 0 then NaN else signed_inf (Rlt_b x 0)
  | PInf, PInf | NInf, NInf => PInf
  | PInf, NInf | NInf, PInf => NInf
  end.

(** [a / b]; the single zero of the model divides as [+0]. *)
Definition jdiv (a b : number) : number :=
  match a, b with
  | NaN, _ | _, NaN => NaN
  | (PInf | NInf), (PInf | NInf) => NaN
  | PInf, Fin y => signed_inf (negb (Rlt_b y 0))
  | NInf, Fin y => signed_inf (Rlt_b y 0)
  | Fin _, (PInf | NInf) => Fin 0
  | Fin x, Fin y =>
      if Req_b y 0
      then (if Req_b x 0 then NaN else signed_inf (Rlt_b 0 x))
      else Fin (x / y)
  end.

(** [a < b], [a > b], [a >= b], [a === b], [a !== b] *)
Definition jlt (a b : number) : bool :=
  match a, b with
  | NaN, _ | _, NaN => false
  | _, NInf => false
  | NInf, _ => true
  | PInf, _ => false
  | Fin _, PInf => true
  | Fin x, Fin y => Rlt_b x y
  end.

Definition jgt (a b : number) : bool := jlt b a.

Definition strict_eq (a b : number) : bool :=
  match a, b with
  | PInf, PInf | NInf, NInf => true
  | Fin x, Fin y => Req_b x y
  | _, _ => false
  end.

Definition jge (a b : number) : bool := jlt b a || strict_eq a b.

Definition strict_neq (a b : number) : bool := negb (strict_eq a b).

(** [Math.sqrt], [Math.abs], [Math.pow (x, k)] for a literal natural
    exponent [k], [Math.floor], [Math.ceil]. *)
Definition Math_sqrt (a : number) : number :=
  match a with
  | NaN | NInf => NaN
  | PInf => PInf
  | Fin x => if Rlt_b x 0 then NaN else Fin (sqrt x)
  end.

Definition Math_abs (a : number) : number :=
  match a with
  | NaN => NaN
  | PInf | NInf => PInf
  | Fin x => Fin (Rabs x)
  end.

Definition Math_pow (a : number) (k : nat) : number :=
  match k with
  | O => Fin 1
  | _ =>
    match a with
    | NaN => NaN
    | PInf => PInf
    | NInf => if Nat.even k then PInf else NInf
    | Fin x => Fin (x ^ k)
    end
  end.

Definition Math_floor (a : number) : number :=
  match a with
  | Fin x => Fin (IZR (Int_part x))
  | _ => a
  end.

Definition Math_ceil (a : number) : number :=
  match a with
  | Fin x => Fin (IZR (- Int_part (- x)))
  | _ => a
  end.

(** [a % 1]: the remainder has the sign of the dividend. *)
Definition Rtrunc (x : R) : Z :=
  if Rlt_b x 0 then (- Int_part (- x))%Z else Int_part x.

Definition jrem1 (a : number) : number :=
  match a with
  | Fin x => Fin (x - IZR (Rtrunc x))
  | _ => NaN
  end.

(** [Math.min (...xs)] and [Math.max (...xs)]. *)
Definition min2 (a b : number) : number :=
  match a, b with
  | NaN, _ | _, NaN => NaN
  | _, _ => if jlt b a then b else a
  end.

Definition max2 (a b : number) : number :=
  match a, b with
  | NaN, _ | _, NaN => NaN
  | _, _ => if jlt a b then b else a
  end.

Definition Math_min (xs : list number) : number := fold_left min2 xs PInf.
Definition Math_max (xs : list number) : number := fold_left max2 xs NInf.

(** [array[i]] for a numeric [i]: defined at the integer positions inside
    the array, [undefined] everywhere else. *)
Definition is_index (x : R) : bool :=
  Req_b x (IZR (Int_part x)) && (0 <=? Int_part x)%Z.

Definition array_get (l : list number) (i : number) : value :=
  match i with
  | Fin x =>
      if is_index x
      then match nth_error l (Z.to_nat (Int_part x)) with
           | Some v => Num v
           | None => Undefined
           end
      else Undefined
  | _ => Undefined
  end.

(** [array[i]] for an integer position. *)
Definition array_at (l : list number) (i : Z) : value :=
  if (i <? 0)%Z then Undefined
  else match nth_error l (Z.to_nat i) with
       | Some v => Num v
       | None => Undefined
       end.

(** [array.slice (start, stop)], negative positions counting from the end. *)
Definition rel_index (len k : Z) : Z :=
  if (k <? 0)%Z then Z.max (len + k) 0 else Z.min k len.

Definition slice {A : Type} (l : list A) (start stop : Z) : list A :=
  let len := Z.of_nat (length l) in
  let s := rel_index len start in
  let e := rel_index len stop in
  firstn (Z.to_nat (e - s)) (skipn (Z.to_nat s) l).

Definition slice_from {A : Type} (l : list A) (start : Z) : list A :=
  slice l start (Z.of_nat (length l)).

(** [[...data].sort ((a, b) => a - b)]: a stable insertion of each element
    after the elements that the comparator does not place after it.  On
    finite numbers the comparator is a total order and every stable sort
    returns this list. *)
Definition comes_after (a b : number) : bool := jgt (jsub a b) (Fin 0).

Fixpoint insert_sorted (a : number) (l : list number) : list number :=
  match l with
  | [] => [a]
  | b :: t => if comes_after a b then b :: insert_sorted a t else a :: l
  end.

Definition sort_numbers (l : list number) : list number :=
  fold_right insert_sorted [] l.

(** [array.includes (v)] (SameValueZero: [NaN] is found). *)
Definition same_value_zero (a b : number) : bool :=
  match a, b with
  | NaN, NaN => true
  | _, _ => strict_eq a b
  end.

Definition includes (l : list number) (v : number) : bool :=
  existsb (same_value_zero v) l.

(** ** Cells and the selected range *)

(** A cell is a number, a string, a boolean, [null] or a [Date] object;
    reading a row past its end gives [undefined].  A date is given by the
    text that [toISOString] prints for it, [None] for an invalid date: the
    analyzer only asks a date for its type and for its JSON text. *)
Inductive cell : Type :=
  | CNum (x : number)
  | CStr (s : string)
  | CBool (b : bool)
  | CNull
  | CUndefined
  | CDate (iso : option string).

Record selectedData : Type := {
  address : string;
  values : list (list cell)
}.

Definition typeof_number (c : cell) : bool :=
  match c with CNum _ => true | _ => false end.

Definition typeof_string (c : cell) : bool :=
  match c with CStr _ => true | _ => false end.

Definition cell_at (row : list cell) (i : nat) : cell :=
  nth i row CUndefined.

(** [typeof val === 'number' && !isNaN (val)] *)
Definition numeric_value (c : cell) : option number :=
  match c with
  | CNum x => if isNaN x then None else Some x
  | _ => None
  end.

(** [typeof val === 'number'] *)
Definition number_value (c : cell) : option number :=
  match c with
  | CNum x => Some x
  | _ => None
  end.

Fixpoint filter_map {A B : Type} (f : A -> option B) (l : list A) : list B :=
  match l with
  | [] => []
  | a :: t => match f a with
              | Some b => b :: filter_map f t
              | None => filter_map f t
              end
  end.

Definition show_nat (n : nat) : string :=
  NilEmpty.string_of_uint (Nat.to_uint n).

(** Outcome of a call: a returned value or a thrown error. *)
Inductive result (A : Type) : Type :=
  | Ok (a : A)
  | Throw (message : string).
Arguments Ok {A} a.
Arguments Throw {A} message.

(** A JavaScript object used as a mapping with string keys: the keys in
    insertion order; assigning to an existing key replaces its value in
    place. *)
Fixpoint obj_set {A : Type} (o : list (string * A)) (k : string) (v : A)
  : list (string * A) :=
  match o with
  | [] => [(k, v)]
  | (k', v') :: t =>
      if String.eqb k' k then (k, v) :: t else (k', v') :: obj_set t k v
  end.

Fixpoint mapi_from {A B : Type} (f : A -> Z -> B) (i : Z) (l : list A)
  : list B :=
  match l with
  | [] => []
  | a :: t => f a i :: mapi_from f (i + 1)%Z t
  end.

(** [array.map ((a, i) => f (a, i))] *)
Definition mapi {A B : Type} (f : A -> Z -> B) (l : list A) : list B :=
  mapi_from f 0%Z l.

(** The positions [lo, lo + 1, ..., hi - 1] visited by a counting loop. *)
Definition Zrange (lo hi : Z) : list Z :=
  map (fun k => (lo + Z.of_nat k)%Z) (seq 0 (Z.to_nat (hi - lo))).

(** What [JSON.stringify] prints for a cell inside an array: a non-finite
    number, [undefined] and an invalid date print as [null], a date prints
    as the string of its [toJSON]. *)
Inductive json_atom : Type :=
  | JNull
  | JNumber (r : R)
  | JString (s : string)
  | JBool (b : bool).

Definition JSON_stringify_cell (c : cell) : json_atom :=
  match c with
  | CNum (Fin r) => JNumber r
  | CNum _ => JNull
  | CStr s => JString s
  | CBool b => JBool b
  | CNull | CUndefined => JNull
  | CDate (Some iso) => JString iso
  | CDate None => JNull
  end.

Definition json_atom_eqb (a b : json_atom) : bool :=
  match a, b with
  | JNull, JNull => true
  | JNumber x, JNumber y => Req_b x y
  | JString s, JString t => String.eqb s t
  | JBool x, JBool y => Bool.eqb x y
  | _, _ => false
  end.

(** Two rows print the same text when they have the same length and print
    the same atom at every position. *)
Fixpoint same_text (r1 r2 : list json_atom) : bool :=
  match r1, r2 with
  | [], [] => true
  | a :: t1, b :: t2 => json_atom_eqb a b && same_text t1 t2
  | _, _ => false
  end.

(** [new Set (rowStrings)]: the distinct texts, in first-occurrence order. *)
Fixpoint Set_of (rows : list (list json_atom)) (seen : list (list json_atom))
  : list (list json_atom) :=
  match rows with
  | [] => seen
  | r :: t =>
      if existsb (same_text r) seen then Set_of t seen
      else Set_of t (seen ++ [r])
  end.

(** A piece of a template string: literal text, or a number printed by
    [toFixed (1)]. *)
Inductive fragment : Type :=
  | Text (s : string)
  | ToFixed1 (x : number).

(** ** [class DataAnalyzer] *)

Module DataAnalyzer.

Record basicStats : Type := {
  hasHeaders : bool;
  dataTypes : list string;
  numericColumns : nat;
  textColumns : nat;
  missingValues : nat
}.

Record columnPercentiles : Type := {
  p5 : value; p10 : value; p25 : value; p50 : value;
  p75 : value; p90 : value; p95 : value
}.

Record columnStatistics : Type := {
  count : nat;
  stat_sum : number;
  stat_mean : number;
  stat_median : value;
  stat_mode : list number;
  min : number;
  max : number;
  range : number;
  stat_variance : number;
  stat_standardDeviation : number;
  stat_skewness : number;
  stat_kurtosis : number;
  stat_quartiles : list value;
  stat_percentiles : columnPercentiles
}.

Record completenessRecord : Type := {
  completeness_score : number;
  completeness_missingValues : nat;
  totalCells : nat
}.

Record uniquenessRecord : Type := {
  uniqueness_score : number;
  duplicateRows : nat;
  totalRows : nat
}.

Record heuristicRecord : Type := {
  heuristic_score : number;
  findings : list string
}.

Record overallRecord : Type := {
  overall_score : number;
  grade : string;
  overall_recommendations : list string
}.

Record dataQuality : Type := {
  completeness : completenessRecord;
  uniqueness : uniquenessRecord;
  consistency : heuristicRecord;
  accuracy : heuristicRecord;
  overall : overallRecord
}.

Record seasonalityRecord : Type := {
  seasonality_detected : bool;
  seasonality_strength : number
}.

Record growthRecord : Type := {
  growth_pattern : string;
  growth_confidence : number
}.

Record patterns : Type := {
  seasonality : seasonalityRecord;
  cycles_detected : bool;
  growth : growthRecord;
  distributions : list (string * number);
  relationships : list (string * number)
}.

Record correlationRecord : Type := {
  coefficient : number;
  corr_strength : string;
  interpretation : string
}.

Record outlierGroup : Type := {
  group_count : number;
  group_values : list number
}.

Record outlierRecord : Type := {
  mild : outlierGroup;
  extreme : outlierGroup;
  bounds_lower : number;
  bounds_upper : number;
  percentage : number;
  impact : string
}.

Record linearTrend : Type := {
  slope : number;
  intercept : number;
  direction : string;
  trend_strength : number;
  description : string
}.

Record trendRecord : Type := {
  linear : linearTrend;
  movingAverage : list number;
  seasonal_detected : bool;
  volatility : number;
  momentum : number
}.

Record recommendation : Type := {
  category : string;
  priority : string;
  message : list fragment;
  actions : list string
}.

Record deepAnalysis : Type := {
  analysis_basicStats : basicStats;
  statisticalSummary : list (string * columnStatistics);
  analysis_dataQuality : dataQuality;
  analysis_patterns : patterns;
  correlations : list (string * correlationRecord);
  outliers : list (string * outlierRecord);
  trends : list (string * trendRecord);
  recommendations : list recommendation
}.

(** *** Statistical calculation methods *)

Definition sum (data : list number) : number :=
  fold_left jadd data (Fin 0).

Definition mean (data : list number) : number :=
  jdiv (sum data) (of_nat (length data)).

Definition median (data : list number) : value :=
  let sorted := sort_numbers data in
  let mid := Z.of_nat (length sorted / 2) in
  if negb (length sorted mod 2 =? 0)%nat
  then array_at sorted mid
  else Num (jdiv (jadd (ToNumber (array_at sorted (mid - 1)))
                       (ToNumber (array_at sorted mid)))
                 (Fin 2)).

(** The keys of the [frequency] object: one per distinct value.  Keys that
    are array indices (integers in [0, 2^32 - 2]) are enumerated first, in
    ascending order, the other keys follow in insertion order. *)
Fixpoint distinct_keys (data seen : list number) : list number :=
  match data with
  | [] => seen
  | x :: t =>
      if includes seen x then distinct_keys t seen
      else distinct_keys t (seen ++ [x])
  end.

Definition is_array_index (x : number) : bool :=
  match x with
  | Fin r => is_index r && Rlt_b r 4294967295
  | _ => false
  end.

Definition Object_keys (data : list number) : list number :=
  let keys := distinct_keys data [] in
  sort_numbers (filter is_array_index keys)
    ++ filter (fun k => negb (is_array_index k)) keys.

Definition frequency (data : list number) (key : number) : nat :=
  length (filter (same_value_zero key) data).

Definition mode (data : list number) : list number :=
  let keys := Object_keys data in
  let maxFreq := Math_max (map (fun k => of_nat (frequency data k)) keys) in
  filter (fun k => strict_eq (of_nat (frequency data k)) maxFreq) keys.

Definition variance (data : list number) : number :=
  let mean := mean data in
  jdiv (sum (map (fun x => Math_pow (jsub x mean) 2) data))
       (jsub (of_nat (length data)) (Fin 1)).

Definition standardDeviation (data : list number) : number :=
  Math_sqrt (variance data).

Definition skewness (data : list number) : number :=
  let mean := mean data in
  let stdDev := standardDeviation data in
  let n := of_nat (length data) in
  let skew :=
    fold_left (fun sum x => jadd sum (Math_pow (jdiv (jsub x mean) stdDev) 3))
              data (Fin 0) in
  jmul (jdiv n (jmul (jsub n (Fin 1)) (jsub n (Fin 2)))) skew.

Definition kurtosis (data : list number) : number :=
  let mean := mean data in
  let stdDev := standardDeviation data in
  let n := of_nat (length data) in
  let kurt :=
    fold_left (fun sum x => jadd sum (Math_pow (jdiv (jsub x mean) stdDev) 4))
              data (Fin 0) in
  jsub
    (jmul (jdiv (jmul n (jadd n (Fin 1)))
                (jmul (jmul (jsub n (Fin 1)) (jsub n (Fin 2)))
                      (jsub n (Fin 3))))
          kurt)
    (jdiv (jmul (Fin 3) (Math_pow (jsub n (Fin 1)) 2))
          (jmul (jsub n (Fin 2)) (jsub n (Fin 3)))).

Definition percentile (sortedData : list number) (percentile : number)
  : value :=
  let index :=
    jmul (jdiv percentile (Fin 100))
         (jsub (of_nat (length sortedData)) (Fin 1)) in
  if strict_eq (jrem1 index) (Fin 0)
  then array_get sortedData index
  else
    let lower := array_get sortedData (Math_floor index) in
    let upper := array_get sortedData (Math_ceil index) in
    Num (jadd (ToNumber lower)
              (jmul (jsub (ToNumber upper) (ToNumber lower)) (jrem1 index))).

Definition quartiles (data : list number) : list value :=
  let sorted := sort_numbers data in
  [ percentile sorted (Fin 25);
    percentile sorted (Fin 50);
    percentile sorted (Fin 75) ].

Definition percentiles (data : list number) : columnPercentiles :=
  let sorted := sort_numbers data in
  {| p5 := percentile sorted (Fin 5);
     p10 := percentile sorted (Fin 10);
     p25 := percentile sorted (Fin 25);
     p50 := percentile sorted (Fin 50);
     p75 := percentile sorted (Fin 75);
     p90 := percentile sorted (Fin 90);
     p95 := percentile sorted (Fin 95) |}.

Definition pearson_denominator (n : nat) (sumX sumY sumX2 sumY2 : number)
  : number :=
  Math_sqrt
    (jmul (jsub (jmul (of_nat n) sumX2) (jmul sumX sumX))
          (jsub (jmul (of_nat n) sumY2) (jmul sumY sumY))).

Definition pearsonCorrelation (x y : list number) : number :=
  let n := Nat.min (length x) (length y) in
  if (n <? 2)%nat then Fin 0
  else
    let sumX := sum (slice x 0 (Z.of_nat n)) in
    let sumY := sum (slice y 0 (Z.of_nat n)) in
    let sumXY :=
      sum (mapi (fun xi i => jmul xi (ToNumber (array_at y i)))
                (slice x 0 (Z.of_nat n))) in
    let sumX2 := sum (map (fun xi => jmul xi xi) (slice x 0 (Z.of_nat n))) in
    let sumY2 := sum (map (fun yi => jmul yi yi) (slice y 0 (Z.of_nat n))) in
    let numerator := jsub (jmul (of_nat n) sumXY) (jmul sumX sumY) in
    let denominator := pearson_denominator n sumX sumY sumX2 sumY2 in
    if strict_eq denominator (Fin 0) then Fin 0
    else jdiv numerator denominator.

(** *** Helper methods *)

Definition detectHeaders (values : list (list cell)) : bool :=
  if (length values <? 2)%nat then false
  else
    let firstRow := nth 0 values [] in
    let secondRow := nth 1 values [] in
    forallb typeof_string firstRow && existsb typeof_number secondRow.

Definition type_tag (c : cell) : option string :=
  match c with
  | CNum _ => Some "number"%string
  | CStr _ => Some "text"%string
  | CDate _ => Some "date"%string
  | CNull | CUndefined => Some "empty"%string
  | CBool _ => None
  end.

Definition Set_add (types : list string) (t : string) : list string :=
  if existsb (String.eqb t) types then types else types ++ [t].

Definition analyzeDataTypes (values : list (list cell)) : list string :=
  fold_left
    (fun types row =>
       fold_left (fun types cell =>
                    match type_tag cell with
                    | Some t => Set_add types t
                    | None => types
                    end) row types)
    values [].

Definition getNumericColumns (values : list (list cell)) : list nat :=
  if (length values <? 2)%nat then []
  else
    let sampleRow := nth 1 values [] in
    filter_map (fun ic : cell * nat =>
                  if typeof_number (fst ic) then Some (snd ic) else None)
               (combine sampleRow (seq 0 (length sampleRow))).

Definition getNumericColumnCount (values : list (list cell)) : nat :=
  length (getNumericColumns values).

Definition getTextColumnCount (values : list (list cell)) : nat :=
  if (length values <? 2)%nat then 0%nat
  else length (filter typeof_string (nth 1 values [])).

Definition is_missing (c : cell) : bool :=
  match c with
  | CNull | CUndefined => true
  | CStr s => String.eqb s ""
  | _ => false
  end.

Definition countMissingValues (values : list (list cell)) : nat :=
  fold_left
    (fun count row =>
       fold_left (fun count cell =>
                    if is_missing cell then S count else count) row count)
    values 0%nat.

Definition findDuplicateRows (values : list (list cell)) : nat :=
  let rowStrings := map (map JSON_stringify_cell) values in
  let unique := Set_of rowStrings [] in
  (length values - length unique)%nat.

Definition assessConsistency (values : list (list cell)) : number :=
  Fin (85 / 100).

Definition assessAccuracy (values : list (list cell)) : number :=
  Fin (90 / 100).

Definition getQualityGrade (score : number) : string :=
  if jge score (Fin (9 / 10)) then "A"
  else if jge score (Fin (8 / 10)) then "B"
  else if jge score (Fin (7 / 10)) then "C"
  else if jge score (Fin (6 / 10)) then "D"
  else "F".

Definition getQualityRecommendations (score : number) : list string :=
  if jge score (Fin (9 / 10))
  then ["Excellent data quality - maintain current standards"%string]
  else if jge score (Fin (8 / 10))
  then ["Good data quality - minor improvements needed"%string]
  else if jge score (Fin (7 / 10))
  then ["Moderate data quality - focus on key issues"%string]
  else if jge score (Fin (6 / 10))
  then ["Poor data quality - significant improvements required"%string]
  else ["Very poor data quality - major data cleansing needed"%string].

Definition getCorrelationStrength (correlation : number) : string :=
  let abs := Math_abs correlation in
  if jge abs (Fin (9 / 10)) then "very strong"
  else if jge abs (Fin (7 / 10)) then "strong"
  else if jge abs (Fin (5 / 10)) then "moderate"
  else if jge abs (Fin (3 / 10)) then "weak"
  else "very weak".

Definition interpretCorrelation (correlation : number) : string :=
  if jgt correlation (Fin (7 / 10)) then "Strong positive relationship"
  else if jgt correlation (Fin (3 / 10)) then "Moderate positive relationship"
  else if jgt correlation (Fin 0) then "Weak positive relationship"
  else if strict_eq correlation (Fin 0) then "No linear relationship"
  else if jgt correlation (Fin (- (3 / 10))) then "Weak negative relationship"
  else if jgt correlation (Fin (- (7 / 10)))
  then "Moderate negative relationship"
  else "Strong negative relationship".

Definition calculateLinearTrend (data : list number) : linearTrend :=
  let n := length data in
  let x := map of_Z (Zrange 0 (Z.of_nat n)) in
  let y := data in
  let sumX := sum x in
  let sumY := sum y in
  let sumXY := sum (mapi (fun xi i => jmul xi (ToNumber (array_at y i))) x) in
  let sumX2 := sum (map (fun xi => jmul xi xi) x) in
  let slope :=
    jdiv (jsub (jmul (of_nat n) sumXY) (jmul sumX sumY))
         (jsub (jmul (of_nat n) sumX2) (jmul sumX sumX)) in
  let intercept := jdiv (jsub sumY (jmul slope sumX)) (of_nat n) in
  let direction :=
    if jgt slope (Fin (1 / 100)) then "increasing"%string
    else if jlt slope (Fin (- (1 / 100))) then "decreasing"%string
    else "stable"%string in
  let strength := Math_abs slope in
  {| slope := slope;
     intercept := intercept;
     direction := direction;
     trend_strength := strength;
     description :=
       (direction ++ " trend with "
          ++ (if jgt strength (Fin (1 / 10)) then "strong"
              else if jgt strength (Fin (5 / 100)) then "moderate"
              else "weak")
          ++ " strength")%string |}.

Definition calculateMovingAverage (data : list number) (period : Z)
  : list number :=
  map (fun i => mean (slice data (i - period + 1) (i + 1)))
      (Zrange (period - 1) (Z.of_nat (length data))).

(** The loop of [calculateVolatility]: for each position [i >= 1] whose
    predecessor [data[i - 1]] is not zero, the relative change. *)
Fixpoint period_returns (data : list number) : list number :=
  match data with
  | previous :: ((current :: _) as rest) =>
      if strict_neq previous (Fin 0)
      then jdiv (jsub current previous) previous :: period_returns rest
      else period_returns rest
  | _ => []
  end.

Definition calculateVolatility (data : list number) : number :=
  if (length data <? 2)%nat then Fin 0
  else standardDeviation (period_returns data).

Definition calculateMomentum (data : list number) (period : Z) : number :=
  if (Z.of_nat (length data) <? period + 1)%Z then Fin 0
  else
    let recent := slice_from data (- period) in
    let earlier := slice data (- period * 2) (- period) in
    jsub (mean recent) (mean earlier).

(** *** Placeholder methods *)

Definition detectSeasonality (values : list (list cell)) : seasonalityRecord :=
  {| seasonality_detected := false; seasonality_strength := Fin 0 |}.

Definition detectCycles (values : list (list cell)) : bool := false.

Definition analyzeGrowthPatterns (values : list (list cell)) : growthRecord :=
  {| growth_pattern := "linear"; growth_confidence := Fin (5 / 10) |}.

Definition analyzeDistributions (values : list (list cell))
  : list (string * number) :=
  [ ("normal"%string, Fin (6 / 10));
    ("uniform"%string, Fin (2 / 10));
    ("exponential"%string, Fin (2 / 10)) ].

Definition findRelationships (values : list (list cell))
  : list (string * number) :=
  [ ("linear"%string, Fin (7 / 10));
    ("polynomial"%string, Fin (2 / 10));
    ("logarithmic"%string, Fin (1 / 10)) ].

Definition findConsistencyIssues (values : list (list cell)) : list string :=
  ["Format inconsistencies"%string; "Unit variations"%string].

Definition findAnomalies (values : list (list cell)) : list string :=
  ["Unusual data patterns"%string; "Potential data entry errors"%string].

Definition assessOutlierImpact (outliers allData : list number) : string :=
  let impactScore := jdiv (of_nat (length outliers)) (of_nat (length allData)) in
  if jgt impactScore (Fin (1 / 10)) then "high"
  else if jgt impactScore (Fin (5 / 100)) then "medium"
  else "low".

Definition extractSeasonalComponent (data : list number) : bool := false.

(** *** Analyses *)

(** [values.slice (1).map (row => row[colIndex])] *)
Definition column_cells (values : list (list cell)) (colIndex : nat)
  : list cell :=
  map (fun row => cell_at row colIndex) (slice_from values 1).

(** ... [.filter (val => typeof val === 'number' && !isNaN (val))] *)
Definition columnData (values : list (list cell)) (colIndex : nat)
  : list number :=
  filter_map numeric_value (column_cells values colIndex).

Definition getBasicStats (d : selectedData) : basicStats :=
  {| hasHeaders := detectHeaders (values d);
     dataTypes := analyzeDataTypes (values d);
     numericColumns := getNumericColumnCount (values d);
     textColumns := getTextColumnCount (values d);
     missingValues := countMissingValues (values d) |}.

Definition column_statistics (columnData : list number) : columnStatistics :=
  {| count := length columnData;
     stat_sum := sum columnData;
     stat_mean := mean columnData;
     stat_median := median columnData;
     stat_mode := mode columnData;
     min := Math_min columnData;
     max := Math_max columnData;
     range := jsub (Math_max columnData) (Math_min columnData);
     stat_variance := variance columnData;
     stat_standardDeviation := standardDeviation columnData;
     stat_skewness := skewness columnData;
     stat_kurtosis := kurtosis columnData;
     stat_quartiles := quartiles columnData;
     stat_percentiles := percentiles columnData |}.

Definition calculateStatistics (d : selectedData)
  : list (string * columnStatistics) :=
  let numericColumns := getNumericColumns (values d) in
  fold_left
    (fun stats colIndex =>
       let columnData := columnData (values d) colIndex in
       if (0 <? length columnData)%nat
       then obj_set stats ("column_" ++ show_nat colIndex)%string
                    (column_statistics columnData)
       else stats)
    numericColumns [].

Definition assessDataQuality (d : selectedData) : dataQuality :=
  let values := values d in
  let totalCells :=
    (length values * match values with [] => 0 | row0 :: _ => length row0 end)%nat in
  let missingCount := countMissingValues values in
  let duplicateRows := findDuplicateRows values in
  let completeness :=
    jsub (Fin 1) (jdiv (of_nat missingCount) (of_nat totalCells)) in
  let uniqueness :=
    jsub (Fin 1) (jdiv (of_nat duplicateRows) (of_nat (length values))) in
  let consistency := assessConsistency values in
  let accuracy := assessAccuracy values in
  let overallScore :=
    jdiv (jadd (jadd (jadd completeness uniqueness) consistency) accuracy)
         (Fin 4) in
  {| completeness :=
       {| completeness_score := completeness;
          completeness_missingValues := missingCount;
          totalCells := totalCells |};
     uniqueness :=
       {| uniqueness_score := uniqueness;
          duplicateRows := duplicateRows;
          totalRows := length values |};
     consistency :=
       {| heuristic_score := consistency;
          findings := findConsistencyIssues values |};
     accuracy :=
       {| heuristic_score := accuracy;
          findings := findAnomalies values |};
     overall :=
       {| overall_score := overallScore;
          grade := getQualityGrade overallScore;
          overall_recommendations := getQualityRecommendations overallScore |}
  |}.

Definition detectPatterns (d : selectedData) : patterns :=
  {| seasonality := detectSeasonality (values d);
     cycles_detected := detectCycles (values d);
     growth := analyzeGrowthPatterns (values d);
     distributions := analyzeDistributions (values d);
     relationships := findRelationships (values d) |}.

(** The pairs [(numericColumns[i], numericColumns[j])], [i < j], in the
    order of the two nested loops. *)
Fixpoint column_pairs (numericColumns : list nat) : list (nat * nat) :=
  match numericColumns with
  | [] => []
  | col1 :: rest => map (pair col1) rest ++ column_pairs rest
  end.

Definition calculateCorrelations (d : selectedData)
  : list (string * correlationRecord) :=
  let numericColumns := getNumericColumns (values d) in
  fold_left
    (fun correlations cols =>
       let col1 := fst cols in
       let col2 := snd cols in
       let data1 := filter_map number_value (column_cells (values d) col1) in
       let data2 := filter_map number_value (column_cells (values d) col2) in
       if (1 <? length data1)%nat && (1 <? length data2)%nat
       then
         let correlation := pearsonCorrelation data1 data2 in
         let strength := getCorrelationStrength correlation in
         obj_set correlations
           ("col_" ++ show_nat col1 ++ "_col_" ++ show_nat col2)%string
           {| coefficient := correlation;
              corr_strength := strength;
              interpretation := interpretCorrelation correlation |}
       else correlations)
    (column_pairs numericColumns) [].

Definition outlier_record (columnData : list number) : outlierRecord :=
  let q1 := ToNumber (nth 0 (quartiles columnData) Undefined) in
  let q3 := ToNumber (nth 2 (quartiles columnData) Undefined) in
  let iqr := jsub q3 q1 in
  let lowerBound := jsub q1 (jmul (Fin (15 / 10)) iqr) in
  let upperBound := jadd q3 (jmul (Fin (15 / 10)) iqr) in
  let outlierValues :=
    filter (fun val => jlt val lowerBound || jgt val upperBound) columnData in
  let extremeOutliers :=
    filter (fun val => jlt val (jsub q1 (jmul (Fin 3) iqr))
                       || jgt val (jadd q3 (jmul (Fin 3) iqr))) columnData in
  {| mild :=
       {| group_count :=
            jsub (of_nat (length outlierValues))
                 (of_nat (length extremeOutliers));
          group_values :=
            filter (fun val => negb (includes extremeOutliers val))
                   outlierValues |};
     extreme :=
       {| group_count := of_nat (length extremeOutliers);
          group_values := extremeOutliers |};
     bounds_lower := lowerBound;
     bounds_upper := upperBound;
     percentage :=
       jmul (jdiv (of_nat (length outlierValues)) (of_nat (length columnData)))
            (Fin 100);
     impact := assessOutlierImpact outlierValues columnData |}.

Definition detectOutliers (d : selectedData)
  : list (string * outlierRecord) :=
  let numericColumns := getNumericColumns (values d) in
  fold_left
    (fun outliers colIndex =>
       let columnData := columnData (values d) colIndex in
       if (3 <? length columnData)%nat
       then obj_set outliers ("column_" ++ show_nat colIndex)%string
                    (outlier_record columnData)
       else outliers)
    numericColumns [].

Definition analyzeTrends (d : selectedData) : list (string * trendRecord) :=
  let numericColumns := getNumericColumns (values d) in
  fold_left
    (fun trends colIndex =>
       let columnData := columnData (values d) colIndex in
       if (2 <? length columnData)%nat
       then
         let trend := calculateLinearTrend columnData in
         let movingAverage := calculateMovingAverage columnData 3 in
         let seasonalComponent := extractSeasonalComponent columnData in
         obj_set trends ("column_" ++ show_nat colIndex)%string
           {| linear := trend;
              movingAverage := movingAverage;
              seasonal_detected := seasonalComponent;
              volatility := calculateVolatility columnData;
              momentum := calculateMomentum columnData 3 |}
       else trends)
    numericColumns [].

(** The statements of [generateRecommendations] that follow its first one,
    [const analysis = this.performDeepAnalysis (selectedData)]. *)
Definition recommendations_of (analysis : deepAnalysis) : list recommendation :=
  let quality :=
    if jlt (overall_score (overall (analysis_dataQuality analysis)))
           (Fin (8 / 10))
    then [ {| category := "Data Quality";
              priority := "high";
              message :=
                [Text "Improve data quality by addressing missing values and inconsistencies"];
              actions :=
                [ "Use IFERROR() functions to handle missing data"%string;
                  "Implement data validation rules"%string;
                  "Create data cleansing formulas"%string ] |} ]
    else [] in
  let statistical :=
    filter_map
      (fun entry : string * correlationRecord =>
         let corr := snd entry in
         if jgt (Math_abs (coefficient corr)) (Fin (7 / 10))
         then Some {| category := "Statistical Analysis";
                      priority := "medium";
                      message :=
                        [ Text "Strong "; Text (corr_strength corr);
                          Text " correlation detected between variables" ];
                      actions :=
                        [ "Create scatter plots to visualize relationship"%string;
                          "Consider regression analysis"%string;
                          "Investigate causal relationships"%string ] |}
         else None)
      (correlations analysis) in
  let outlier :=
    filter_map
      (fun entry : string * outlierRecord =>
         let key := fst entry in
         let outlier := snd entry in
         if jgt (percentage outlier) (Fin 5)
         then Some {| category := "Outlier Management";
                      priority := "medium";
                      message :=
                        [ ToFixed1 (percentage outlier);
                          Text "% outliers detected in "; Text key ];
                      actions :=
                        [ "Investigate outlier causes"%string;
                          "Consider robust statistical methods"%string;
                          "Implement outlier detection formulas"%string ] |}
         else None)
      (outliers analysis) in
  let trend :=
    filter_map
      (fun entry : string * trendRecord =>
         let key := fst entry in
         let trend := snd entry in
         if jgt (Math_abs (slope (linear trend))) (Fin (1 / 10))
         then Some {| category := "Trend Analysis";
                      priority := "high";
                      message :=
                        [ Text "Significant "; Text (direction (linear trend));
                          Text " trend in "; Text key ];
                      actions :=
                        [ "Create trend line charts"%string;
                          "Implement forecasting formulas"%string;
                          "Monitor trend sustainability"%string ] |}
         else None)
      (trends analysis) in
  quality ++ statistical ++ outlier ++ trend.

(** [generateRecommendations], with the method it calls through [this]
    as a parameter. *)
Definition generateRecommendations_calling
    (performDeepAnalysis : selectedData -> result deepAnalysis)
    (d : selectedData) : result (list recommendation) :=
  match performDeepAnalysis d with
  | Throw e => Throw e
  | Ok analysis => Ok (recommendations_of analysis)
  end.

(** [performDeepAnalysis] and [generateRecommendations] call each other.
    [stack] bounds the number of nested activations the engine allows; a
    call that exceeds it throws the engine's [RangeError]. *)
Definition RangeError : string := "Maximum call stack size exceeded".

Fixpoint performDeepAnalysis (stack : nat) (d : selectedData)
  : result deepAnalysis :=
  match stack with
  | O => Throw RangeError
  | S stack' =>
      let basicStats := getBasicStats d in
      let statisticalSummary := calculateStatistics d in
      let dataQuality := assessDataQuality d in
      let patterns := detectPatterns d in
      let correlations := calculateCorrelations d in
      let outliers := detectOutliers d in
      let trends := analyzeTrends d in
      match generateRecommendations_calling (performDeepAnalysis stack') d with
      | Throw e => Throw e
      | Ok recommendations =>
          Ok {| analysis_basicStats := basicStats;
                statisticalSummary := statisticalSummary;
                analysis_dataQuality := dataQuality;
                analysis_patterns := patterns;
                correlations := correlations;
                outliers := outliers;
                trends := trends;
                recommendations := recommendations |}
      end
  end.

Definition generateRecommendations (stack : nat) (d : selectedData)
  : result (list recommendation) :=
  generateRecommendations_calling (performDeepAnalysis stack) d.

End DataAnalyzer.

(** ** The averaging routines on binary64 floats

    [sum], [mean], [median] and [percentile] of [DataAnalyzer] once more,
    this time on the doubles themselves: every [+], [-], [*] and [/] is the
    rounded IEEE-754 operation.  Lengths and positions are whole numbers
    below [2 ^ 53], which doubles hold exactly. *)

Module Binary64.

Definition of_Z (z : Z) : float :=
  match z with
  | Z0 => 0%float
  | Zpos _ => PrimFloat.of_uint63 (Uint63.of_Z z)
  | Zneg p => PrimFloat.opp (PrimFloat.of_uint63 (Uint63.of_Z (Zpos p)))
  end.

Definition of_nat (n : nat) : float := of_Z (Z.of_nat n).

(** [Math.floor] and [Math.ceil] of a finite double, as integers. *)
Definition Math_floor (x : float) : Z :=
  match Prim2SF x with
  | S754_finite false m e => Z.shiftl (Zpos m) e
  | S754_finite true m e => Z.shiftl (Zneg m) e
  | _ => 0%Z
  end.

Definition Math_ceil (x : float) : Z := (- Math_floor (PrimFloat.opp x))%Z.

(** [x % 1] for a finite [x]: [x] less its whole part, with the sign of
    [x]. *)
Definition jrem1 (x : float) : float :=
  PrimFloat.sub x
    (of_Z (if PrimFloat.ltb x 0%float then Math_ceil x else Math_floor x)).

(** [array[i]]; [undefined] is read as [NaN], its value in arithmetic. *)
Definition array_at (l : list float) (i : Z) : float :=
  if (i <? 0)%Z then nan else nth (Z.to_nat i) l nan.

(** [[...data].sort ((a, b) => a - b)] *)
Definition comes_after (a b : float) : bool :=
  PrimFloat.ltb 0%float (PrimFloat.sub a b).

Fixpoint insert_sorted (a : float) (l : list float) : list float :=
  match l with
  | [] => [a]
  | b :: t => if comes_after a b then b :: insert_sorted a t else a :: l
  end.

Definition sort_numbers (l : list float) : list float :=
  fold_right insert_sorted [] l.

Definition sum (data : list float) : float :=
  fold_left PrimFloat.add data 0%float.

Definition mean (data : list float) : float :=
  PrimFloat.div (sum data) (of_nat (length data)).

Definition median (data : list float) : float :=
  let sorted := sort_numbers data in
  let mid := Z.of_nat (length sorted / 2) in
  if negb (length sorted mod 2 =? 0)%nat
  then array_at sorted mid
  else PrimFloat.div
         (PrimFloat.add (array_at sorted (mid - 1)) (array_at sorted mid))
         2%float.

Definition percentile (sortedData : list float) (percentile : float)
  : float :=
  let index :=
    PrimFloat.mul (PrimFloat.div percentile 100%float)
                  (PrimFloat.sub (of_nat (length sortedData)) 1%float) in
  if PrimFloat.eqb (jrem1 index) 0%float
  then array_at sortedData (Math_floor index)
  else
    let lower := array_at sortedData (Math_floor index) in
    let upper := array_at sortedData (Math_ceil index) in
    PrimFloat.add lower
      (PrimFloat.mul (PrimFloat.sub upper lower) (jrem1 index)).

End Binary64.

(** ** Trend forecast helpers of the predictions route *)

Module Predictions.

Record band : Type := {
  lower : number;
  upper : number
}.

Record trendSummary : Type := {
  slope : number;
  intercept : number;
  direction : string;
  strength : number
}.

Record trendPredictions : Type := {
  values : list number;
  confidenceBand : list band;
  trend : trendSummary
}.

(** The argument [data] of the helpers, read through [data.values] as a
    flat series of numbers; [None] is an absent [values] property. *)
Record seriesData : Type := {
  series : option (list number)
}.

(** [x.reduce ((sum, xi, i) => f (sum, xi, i), init)] *)
Definition reducei {A : Type} (f : A -> number -> Z -> A) (x : list number)
    (init : A) : A :=
  fold_left (fun sum xi_i => f sum (fst xi_i) (snd xi_i))
            (combine x (Zrange 0 (Z.of_nat (length x)))) init.

Definition calculateSlope (x y : list number) : number :=
  let n := of_nat (length x) in
  let sumX := fold_left jadd x (Fin 0) in
  let sumY := fold_left jadd y (Fin 0) in
  let sumXY :=
    reducei (fun sum xi i => jadd sum (jmul xi (ToNumber (array_at y i))))
            x (Fin 0) in
  let sumX2 := fold_left (fun sum xi => jadd sum (jmul xi xi)) x (Fin 0) in
  jdiv (jsub (jmul n sumXY) (jmul sumX sumY))
       (jsub (jmul n sumX2) (jmul sumX sumX)).

Definition calculateIntercept (x y : list number) (slope : number) : number :=
  let meanX := jdiv (fold_left jadd x (Fin 0)) (of_nat (length x)) in
  let meanY := jdiv (fold_left jadd y (Fin 0)) (of_nat (length y)) in
  jsub meanY (jmul slope meanX).

Definition calculateMSE (x y : list number) (slope intercept : number)
  : number :=
  let predictions := map (fun xi => jadd (jmul slope xi) intercept) x in
  let squaredErrors :=
    mapi (fun yi i => Math_pow (jsub yi (ToNumber (array_at predictions i))) 2)
         y in
  jdiv (fold_left jadd squaredErrors (Fin 0)) (of_nat (length y)).

Definition generateTrendPredictions (data : seriesData) (horizon : Z)
    (confidence : number) : result trendPredictions :=
  let values := match series data with Some v => v | None => [] end in
  let n := length values in
  if (n <? 2)%nat
  then Throw "Insufficient data for trend prediction"
  else
    let x := map (fun i => of_Z (i + 1)) (Zrange 0 (Z.of_nat n)) in
    let y := values in
    let slope := calculateSlope x y in
    let intercept := calculateIntercept x y slope in
    let steps :=
      map (fun i =>
             let futureX := of_Z (Z.of_nat n + i) in
             let prediction := jadd (jmul slope futureX) intercept in
             let error := Math_sqrt (calculateMSE x y slope intercept) in
             let margin := jmul (Fin (196 / 100)) error in
             (prediction,
              {| lower := jsub prediction margin;
                 upper := jadd prediction margin |}))
          (Zrange 1 (horizon + 1)) in
    Ok {| values := map fst steps;
          confidenceBand := map snd steps;
          trend :=
            {| slope := slope;
               intercept := intercept;
               direction :=
                 if jgt slope (Fin 0) then "increasing" else "decreasing";
               strength := Math_abs slope |} |}.

(** *** Comprehensive forecast *)

Record comprehensivePredictions : Type := {
  method : string;
  comprehensive_trend : trendPredictions;
  accuracy : string;
  reliability : string
}.

Definition calculateVariationCoefficient (values : list number) : number :=
  let mean := jdiv (fold_left jadd values (Fin 0)) (of_nat (length values)) in
  let variance :=
    jdiv (fold_left (fun sum value => jadd sum (Math_pow (jsub value mean) 2))
                    values (Fin 0))
         (of_nat (length values)) in
  let stdDev := Math_sqrt variance in
  jdiv stdDev mean.

Definition estimateAccuracy (data : seriesData) : string :=
  let values := match series data with Some v => v | None => [] end in
  if (length values <? 10)%nat then "Low"
  else
    let coefficient := calculateVariationCoefficient values in
    if jlt coefficient (Fin (1 / 10)) then "High"
    else if jlt coefficient (Fin (3 / 10)) then "Medium"
    else "Low".

Definition assessReliability (data : seriesData) (horizon : Z) : string :=
  let values := match series data with Some v => v | None => [] end in
  let dataLength := of_nat (length values) in
  if jgt (of_Z horizon) dataLength then "Low"
  else if jgt (of_Z horizon) (jdiv dataLength (Fin 2)) then "Medium"
  else "High".

Definition generateComprehensivePredictions (data : seriesData) (horizon : Z)
    (confidence : number) : result comprehensivePredictions :=
  match generateTrendPredictions data horizon confidence with
  | Throw e => Throw e
  | Ok trendPred =>
      Ok {| method := "comprehensive";
            comprehensive_trend := trendPred;
            accuracy := estimateAccuracy data;
            reliability := assessReliability data horizon |}
  end.

End Predictions.

(** ** [class WhatIfAnalysis] *)

(** A JavaScript string as its sequence of UTF-16 code units. *)
Definition code_units (s : string) : list N :=
  map N_of_ascii (list_ascii_of_string s).

Definition String_fromCharCode (code : nat) : list N :=
  [(N.of_nat code mod 65536)%N].

Module WhatIfAnalysis.

Record modification : Type := {
  column : list N;
  change : string;
  formula : string;
  rationale : string
}.

Record scenario : Type := {
  name : string;
  description : string;
  assumptions : list string;
  modifications : list modification;
  expectedOutcome : string;
  riskLevel : string;
  probability : string
}.

Record customModification : Type := {
  type : string;
  custom_percentage : Z;
  target : string
}.

Record customScenario : Type := {
  custom_name : string;
  custom_description : string;
  custom_modifications : list customModification
}.

Record scenarios : Type := {
  optimistic : scenario;
  pessimistic : scenario;
  realistic : scenario;
  custom : list customScenario
}.

Definition findNumericColumns (d : selectedData) : list (list N) :=
  if (1 <? length (values d))%nat
  then
    let dataRow := nth 1 (values d) [] in
    filter_map
      (fun ci : cell * nat =>
         match numeric_value (fst ci) with
         | Some _ =>
             Some (code_units "Column " ++ String_fromCharCode (65 + snd ci))
         | None => None
         end)
      (combine dataRow (seq 0 (length dataRow)))
  else [].

Definition createOptimisticScenario (d : selectedData) : scenario :=
  let numericColumns := findNumericColumns d in
  {| name := "Optimistic Scenario";
     description := "Best-case projections with positive growth assumptions";
     assumptions :=
       [ "15-25% growth in key metrics"%string;
         "Improved operational efficiency"%string;
         "Market expansion opportunities"%string ];
     modifications :=
       map (fun col => {| column := col;
                          change := "+20%";
                          formula := "=ORIGINAL_VALUE * 1.2";
                          rationale := "Optimistic growth projection" |})
           numericColumns;
     expectedOutcome := "Significant improvement in overall performance";
     riskLevel := "Low";
     probability := "25%" |}.

Definition createPessimisticScenario (d : selectedData) : scenario :=
  let numericColumns := findNumericColumns d in
  {| name := "Pessimistic Scenario";
     description := "Worst-case projections with conservative assumptions";
     assumptions :=
       [ "10-15% decline in key metrics"%string;
         "Economic downturn impact"%string;
         "Increased operational costs"%string ];
     modifications :=
       map (fun col => {| column := col;
                          change := "-15%";
                          formula := "=ORIGINAL_VALUE * 0.85";
                          rationale := "Conservative downturn projection" |})
           numericColumns;
     expectedOutcome :=
       "Challenging performance requiring mitigation strategies";
     riskLevel := "High";
     probability := "15%" |}.

Definition createRealisticScenario (d : selectedData) : scenario :=
  let numericColumns := findNumericColumns d in
  {| name := "Realistic Scenario";
     description := "Most likely projections based on current trends";
     assumptions :=
       [ "5-8% steady growth"%string;
         "Stable market conditions"%string;
         "Incremental improvements"%string ];
     modifications :=
       map (fun col => {| column := col;
                          change := "+6%";
                          formula := "=ORIGINAL_VALUE * 1.06";
                          rationale :=
                            "Realistic growth based on historical trends" |})
           numericColumns;
     expectedOutcome := "Steady, sustainable growth";
     riskLevel := "Medium";
     probability := "60%" |}.

Definition createCustomScenarios (d : selectedData) : list customScenario :=
  [ {| custom_name := "Cost Reduction Focus";
       custom_description := "Scenario focusing on operational efficiency";
       custom_modifications :=
         [ {| type := "cost_reduction"; custom_percentage := 12;
              target := "operational_costs" |};
           {| type := "efficiency_gain"; custom_percentage := 8;
              target := "productivity" |} ] |};
    {| custom_name := "Market Expansion";
       custom_description := "Aggressive growth through market expansion";
       custom_modifications :=
         [ {| type := "revenue_increase"; custom_percentage := 30;
              target := "sales" |};
           {| type := "investment_increase"; custom_percentage := 25;
              target := "marketing" |} ] |};
    {| custom_name := "Technology Upgrade";
       custom_description := "Impact of digital transformation";
       custom_modifications :=
         [ {| type := "efficiency_gain"; custom_percentage := 20;
              target := "automation" |};
           {| type := "cost_increase"; custom_percentage := 15;
              target := "technology_investment" |} ] |} ].

Definition generateScenarios (d : selectedData) : scenarios :=
  {| optimistic := createOptimisticScenario d;
     pessimistic := createPessimisticScenario d;
     realistic := createRealisticScenario d;
     custom := createCustomScenarios d |}.

(** *** Sensitivity analysis *)

(** A piece of a template string: literal text, a printed number
    [`${x}`], or a text in upper case. *)
Inductive piece : Type :=
  | Lit (s : string)
  | Shown (x : number)
  | UpperCase (s : string).

Record impact : Type := {
  impact_value : list piece;
  impact_description : string;
  impact_formula : list piece
}.

Record impactPoint : Type := {
  point_change : list piece;
  point_value : list piece;
  point_impact : string;
  point_formula : list piece
}.

Record sensitivityRecommendation : Type := {
  recommendation_type : string;
  message : string;
  priority : string
}.

Record sensitivityAnalysis : Type := {
  variable : string;
  changeRange : list number;
  impacts : list impactPoint;
  recommendations : list sensitivityRecommendation
}.

(** [a <= b] *)
Definition jle (a b : number) : bool := jge b a.

Definition getImpactDescription (changePercentage : number) : string :=
  if jgt changePercentage (Fin 20) then "Significant positive impact"
  else if jgt changePercentage (Fin 10) then "Moderate positive impact"
  else if jgt changePercentage (Fin 0) then "Minor positive impact"
  else if strict_eq changePercentage (Fin 0) then "No change"
  else if jgt changePercentage (Fin (-10)) then "Minor negative impact"
  else if jgt changePercentage (Fin (-20)) then "Moderate negative impact"
  else "Significant negative impact".

Definition calculateImpact (d : selectedData) (variable : string)
    (changePercentage : number) : impact :=
  let multiplier := jadd (Fin 1) (jdiv changePercentage (Fin 100)) in
  {| impact_value :=
       [ Lit (if jgt changePercentage (Fin 0) then "+" else "");
         Shown changePercentage; Lit "%" ];
     impact_description := getImpactDescription changePercentage;
     impact_formula :=
       [ Lit "=ORIGINAL_"; UpperCase variable; Lit " * "; Shown multiplier ] |}.

(** [parseFloat] of a text that opens with a printed number followed by a
    percent sign reads the number back; the analysis passes it no other
    text. *)
Definition parseFloat (text : list piece) : number :=
  match text with
  | Shown x :: Lit (String "%" _) :: _ => x
  | _ => NaN
  end.

Definition generateSensitivityRecommendations (impacts : list impactPoint)
  : list sensitivityRecommendation :=
  let highImpactChanges :=
    filter (fun impact =>
              jgt (Math_abs (parseFloat (point_change impact))) (Fin 15))
           impacts in
  (if (0 <? length highImpactChanges)%nat
   then [ {| recommendation_type := "risk_management";
             message :=
               "High sensitivity detected - implement monitoring and controls";
             priority := "high" |} ]
   else [])
  ++ [ {| recommendation_type := "optimization";
          message :=
            "Focus on variables with highest positive impact potential";
          priority := "medium" |};
       {| recommendation_type := "contingency";
          message := "Prepare contingency plans for negative scenarios";
          priority := "medium" |} ].

(** The body of the loop of [performSensitivityAnalysis]. *)
Definition impact_point (d : selectedData) (variable : string)
    (change : number) : impactPoint :=
  let impact := calculateImpact d variable change in
  {| point_change := [Shown change; Lit "%"];
     point_value := impact_value impact;
     point_impact := impact_description impact;
     point_formula := impact_formula impact |}.

(** [for (let change = ...; change <= changeRange[1]; change += 10)], run
    for at most [steps] tests of its condition: [None] when the loop has
    not ended by then. *)
Fixpoint sensitivity_loop (steps : nat) (d : selectedData) (variable : string)
    (change stop : number) (impacts : list impactPoint)
  : option (list impactPoint) :=
  match steps with
  | O => None
  | S steps =>
      if jle change stop
      then sensitivity_loop steps d variable (jadd change (Fin 10)) stop
                            (impacts ++ [impact_point d variable change])
      else Some impacts
  end.

Definition performSensitivityAnalysis (steps : nat) (d : selectedData)
    (variable : string) (changeRange : list number)
  : option sensitivityAnalysis :=
  match sensitivity_loop steps d variable
                         (ToNumber (array_at changeRange 0))
                         (ToNumber (array_at changeRange 1)) [] with
  | None => None
  | Some impacts =>
      Some {| variable := variable;
              changeRange := changeRange;
              impacts := impacts;
              recommendations := generateSensitivityRecommendations impacts |}
  end.

End WhatIfAnalysis.

(** ** Reading the advisory texts of a scenario

    The scenario builders emit the modification factor and the probability
    weight as text (["=ORIGINAL_VALUE * 1.2"], ["+20%"], ["25%"]).  These
    readers give the texts their numeric meaning, as exact rationals. *)

Definition digit_of (c : ascii) : option N :=
  let n := N_of_ascii c in
  if ((48 <=? n) && (n <=? 57))%N then Some (n - 48)%N else None.

Fixpoint digits_from (acc : N) (s : string) : option (N * nat) :=
  match s with
  | EmptyString => Some (acc, 0%nat)
  | String c t =>
      match digit_of c with
      | Some d =>
          match digits_from (acc * 10 + d)%N t with
          | Some (v, k) => Some (v, S k)
          | None => None
          end
      | None => None
      end
  end.

Fixpoint split_on (sep : ascii) (s : string) : string * option string :=
  match s with
  | EmptyString => (EmptyString, None)
  | String c t =>
      if Ascii.eqb c sep then (EmptyString, Some t)
      else let (a, b) := split_on sep t in (String c a, b)
  end.

(** An unsigned decimal literal, [digits] or [digits.digits]. *)
Definition decimal_of (s : string) : option Q :=
  match split_on "."%char s with
  | (whole, None) =>
      match whole, digits_from 0 whole with
      | String _ _, Some (v, _) => Some (Z.of_N v # 1)
      | _, _ => None
      end
  | (whole, Some fraction) =>
      match whole, digits_from 0 whole with
      | String _ _, Some (v, _) =>
          match fraction, digits_from v fraction with
          | String _ _, Some (w, k) =>
              Some (Z.of_N w # Pos.of_nat (10 ^ k))
          | _, _ => None
          end
      | _, _ => None
      end
  end.

Fixpoint strip_prefix (p s : string) : option string :=
  match p, s with
  | EmptyString, _ => Some s
  | String a p', String b s' =>
      if Ascii.eqb a b then strip_prefix p' s' else None
  | _, _ => None
  end.

Fixpoint strip_percent (s : string) : option string :=
  match s with
  | EmptyString => None
  | String c EmptyString =>
      if Ascii.eqb c "%"%char then Some EmptyString else None
  | String c t =>
      match strip_percent t with
      | Some t' => Some (String c t')
      | None => None
      end
  end.

(** ["25%"] reads 25/100; ["+20%"] reads 20/100; ["-15%"] reads -15/100. *)
Definition percent_of (s : string) : option Q :=
  match strip_percent s with
  | None => None
  | Some body =>
      match body with
      | String "+"%char digits =>
          option_map (fun q => q / 100)%Q (decimal_of digits)
      | String "-"%char digits =>
          option_map (fun q => - (q / 100))%Q (decimal_of digits)
      | _ => option_map (fun q => q / 100)%Q (decimal_of body)
      end
  end.

(** The multiplier written in a formula ["=ORIGINAL_VALUE * m"]. *)
Definition factor_of_formula (formula : string) : option Q :=
  match strip_prefix "=ORIGINAL_VALUE * " formula with
  | Some m => decimal_of m
  | None => None
  end.

(** The optional rational [o] is the rational [q]. *)
Definition reads_as (o : option Q) (q : Q) : Prop :=
  match o with
  | Some p => (p == q)%Q
  | None => False
  end.

(** ** The least-squares line of a series, from its textbook description

    The observations [y_1 .. y_n] sit at the positions [1 .. n]. *)

Definition Rsum (l : list R) : R := fold_right Rplus 0 l.

Definition positions (n : nat) : list R :=
  map (fun k => INR (S k)) (seq 0 n).

Definition ols_slope (ys : list R) : R :=
  let n := INR (length ys) in
  let xs := positions (length ys) in
  (n * Rsum (map (fun p => fst p * snd p) (combine xs ys))
     - Rsum xs * Rsum ys)
  / (n * Rsum (map (fun x => x * x) xs) - Rsum xs * Rsum xs).

Definition ols_intercept (ys : list R) : R :=
  let n := INR (length ys) in
  Rsum ys / n - ols_slope ys * (Rsum (positions (length ys)) / n).

(** Sum of the squared residuals of the line [a x + b] over the points [c]. *)
Definition squared_residuals (c : list (R * R)) (a b : R) : R :=
  Rsum (map (fun p => (snd p - (a * fst p + b)) ^ 2) c).

(** Mean squared residual of the fitted line over the observed points. *)
Definition mean_squared_residual (ys : list R) : R :=
  squared_residuals (combine (positions (length ys)) ys)
                    (ols_slope ys) (ols_intercept ys)
  / INR (length ys).

(** ** Sample inputs *)

(** The column [1, 2, ..., 9, 100] under a header cell. *)
Definition outlier_sample : selectedData :=
  {| address := "A1:A11";
     values :=
       [CStr "Value"]
         :: map (fun z => [CNum (Fin (IZR z))])
                [1; 2; 3; 4; 5; 6; 7; 8; 9; 100]%Z |}.

Definition empty_dataset : selectedData :=
  {| address := ""; values := [] |}.

(** The header and the series [0, 5, 7]. *)
Definition single_return_sample : selectedData :=
  {| address := "A1:A4";
     values := [[CStr "Stock"]; [CNum (Fin 0)]; [CNum (Fin 5)]; [CNum (Fin 7)]] |}.

(** The grid of the end-to-end example: months 1..4 and their sales. *)
Definition sales_sample : selectedData :=
  {| address := "A1:B5";
     values :=
       [ [CStr "Month"; CStr "Sales"];
         [CNum (Fin 1); CNum (Fin 100)];
         [CNum (Fin 2); CNum (Fin 110)];
         [CNum (Fin 3); CNum (Fin 120)];
         [CNum (Fin 4); CNum (Fin 130)] ] |}.

(** The numeric column of [outlier_sample]. *)
Definition sample_column : list number :=
  map (fun z => Fin (IZR z)) [1; 2; 3; 4; 5; 6; 7; 8; 9; 100]%Z.

(** A grid whose only row is numeric. *)
Definition one_numeric_row : selectedData :=
  {| address := "A1:B1"; values := [[CNum (Fin 1); CNum (Fin 2)]] |}.



(** A fully populated grid of nine distinct numbers. *)
Definition distinct_grid : selectedData :=
  {| address := "A1:C3";
     values :=
       [ [CNum (Fin 1); CNum (Fin 2); CNum (Fin 3)];
         [CNum (Fin 4); CNum (Fin 5); CNum (Fin 6)];
         [CNum (Fin 7); CNum (Fin 8); CNum (Fin 9)] ] |}.

(** ** Vocabulary of the statements *)

(** A finite number: neither [NaN] nor an infinity. *)
Definition finite (x : number) : Prop := isFinite x = true.

(** [a] may stand before [b] in a sorted array: the comparator does not
    move [a] after [b]. *)
Definition ascending (a b : number) : Prop := comes_after a b = false.

(** The probability weight a scenario is tagged with. *)
Definition weight (s : WhatIfAnalysis.scenario) : Q :=
  match percent_of (WhatIfAnalysis.probability s) with
  | Some q => q
  | None => 0%Q
  end.

(** The name the what-if analysis gives to the column at a position. *)
Definition column_name (i : nat) : list N :=
  code_units "Column " ++ String_fromCharCode (65 + i).

(** Column [i] of the grid is a numeric column of the baseline: the grid has
    a second row, and the cell of that row at position [i] is a number other
    than [NaN]. *)
Definition numeric_column (d : selectedData) (i : nat) : Prop :=
  (2 <= length (values d))%nat
  /\ exists x, nth_error (nth 1 (values d) []) i = Some (CNum x)
               /\ isNaN x = false.

(** Scenario [s] modifies every numeric column of [d] and nothing else: its
    modifications name the numeric columns of [d], each once and in column
    order, and every one of them carries the texts [chg] and [frm]; [chg]
    is the percentage [pct], [frm] is the formula that multiplies the
    original value by [factor], and [factor = 1 + pct]. *)
Definition applies_factor (s : WhatIfAnalysis.scenario) (d : selectedData)
    (chg frm : string) (pct factor : Q) : Prop :=
  (exists cols : list nat,
      StronglySorted lt cols
      /\ (forall i, In i cols <-> numeric_column d i)
      /\ map WhatIfAnalysis.column (WhatIfAnalysis.modifications s)
         = map column_name cols)
  /\ Forall (fun m => WhatIfAnalysis.change m = chg
                      /\ WhatIfAnalysis.formula m = frm)
            (WhatIfAnalysis.modifications s)
  /\ reads_as (percent_of chg) pct
  /\ reads_as (factor_of_formula frm) factor
  /\ (factor == 1 + pct)%Q.

(** A sample of whole numbers: at most [size] of them, each of absolute
    value at most [bound].  With [size = 10 ^ 6] and [bound = 10 ^ 9] every
    partial sum of the values stays below [2 ^ 53], so JavaScript adds them
    without rounding; with [size = bound = 10 ^ 3] the same holds for the
    sums of squares and of products, and for their multiples by the length,
    from which the correlation coefficient is computed. *)
Definition whole_sample (size bound : Z) (zs : list Z) : Prop :=
  (Z.of_nat (length zs) <= size)%Z
  /\ Forall (fun z => (Z.abs z <= bound)%Z) zs.

(** The sum of a list of whole numbers. *)
Definition Zsum (zs : list Z) : Z := fold_right Z.add 0%Z zs.



(** ** Quantities of the statements *)

(** [n] times the sum of squares less the square of the sum: [n^2] times
    the population variance of the sample. *)
Definition spread (xs : list R) : R :=
  INR (length xs) * Rsum (map (fun x => x * x) xs) - Rsum xs * Rsum xs.

(** The same for the products of two samples paired by position. *)
Definition co_spread (xs ys : list R) : R :=
  INR (length xs) * Rsum (map (fun p => fst p * snd p) (combine xs ys))
  - Rsum xs * Rsum ys.

(** The correlation coefficient of two samples of the same length, [0]
    when one of them has no spread. *)
Definition pearson_r (xs ys : list R) : R :=
  if Req_b (spread xs * spread ys) 0 then 0
  else co_spread xs ys / sqrt (spread xs * spread ys).

(** The value at rank [k] of a sorted sample. *)
Definition order_statistic (rs : list R) (k : Z) : R := nth (Z.to_nat k) rs 0.

(** The value at the fractional rank [t]: on the segment between the
    values at the two whole ranks around [t]. *)
Definition interpolate (rs : list R) (t : R) : R :=
  let f := Int_part t in
  order_statistic rs f
  + (order_statistic rs (f + 1) - order_statistic rs f) * (t - IZR f).

(** [x] lies outside the fences [lo] and [up]. *)
Definition outside (lo up x : R) : bool := Rlt_b x lo || Rlt_b up x.

(** The index positions [0 .. n - 1] of a series. *)
Definition indices (n : nat) : list R := map INR (seq 0 n).

(** Population variance of a sample around its mean. *)
Definition population_variance (ys : list R) : R :=
  Rsum (map (fun y => (y - Rsum ys / INR (length ys))
                      * (y - Rsum ys / INR (length ys))) ys)
  / INR (length ys).

(** The values of a sample measured from its mean in units of its sample
    standard deviation. *)
Definition standard_scores (xs : list R) : list R :=
  let n := INR (length xs) in
  let m := Rsum xs / n in
  let s := sqrt (spread xs / (n * (n - 1))) in
  map (fun x => (x - m) / s) xs.

(** The sample holds two different values. *)
Definition varied (xs : list R) : Prop :=
  exists a b, In a xs /\ In b xs /\ a <> b.

(** The relative change from each value of a series to the next. *)
Fixpoint growth_rates (ys : list R) : list R :=
  match ys with
  | previous :: ((current :: _) as rest) =>
      (current - previous) / previous :: growth_rates rest
  | _ => []
  end.

(** The positions of a row, from [k] on, whose cell satisfies [test]. *)
Definition positions_where (test : cell -> bool) (row : list cell) (k : nat)
  : list nat :=
  filter_map (fun ci : cell * nat => if test (fst ci) then Some (snd ci) else None)
             (combine row (seq k (length row))).

(** The number of cells of a grid. *)
Fixpoint cells_of (values : list (list cell)) : nat :=
  match values with
  | [] => 0
  | row :: rest => length row + cells_of rest
  end.

(** The cell at position [i] of the row is the number [NaN]. *)
Definition holds_NaN (row : list cell) (i : nat) : bool :=
  match cell_at row i with
  | CNum x => isNaN x
  | _ => false
  end.

(** Reading a property of an object: [o[k]], [None] for [undefined]. *)
Fixpoint obj_get {A : Type} (o : list (string * A)) (k : string) : option A :=
  match o with
  | [] => None
  | (k', v) :: t => if String.eqb k' k then Some v else obj_get t k
  end.

(** Texts made of decimal digits only. *)
Definition is_digit (c : ascii) : bool :=
  match digit_of c with Some _ => true | None => false end.

Fixpoint all_digits (s : string) : bool :=
  match s with
  | EmptyString => true
  | String c t => is_digit c && all_digits t
  end.

(** The key of a pair of columns in the correlation report. *)
Definition pair_key (p : nat * nat) : string :=
  ("col_" ++ show_nat (fst p) ++ "_col_" ++ show_nat (snd p))%string.

Definition pair_eqb (p q : nat * nat) : bool :=
  Nat.eqb (fst p) (fst q) && Nat.eqb (snd p) (snd q).

(** The reading of a coefficient of the opposite sign. *)
Definition opposite_relationship (s : string) : string :=
  if String.eqb s "Strong positive relationship"
  then "Strong negative relationship"
  else if String.eqb s "Moderate positive relationship"
  then "Moderate negative relationship"
  else if String.eqb s "Weak positive relationship"
  then "Weak negative relationship"
  else if String.eqb s "Weak negative relationship"
  then "Weak positive relationship"
  else if String.eqb s "Moderate negative relationship"
  then "Moderate positive relationship"
  else if String.eqb s "Strong negative relationship"
  then "Strong positive relationship"
  else s.

(** How often a value occurs in a sample. *)
Definition occurrences (xs : list R) (r : R) : nat :=
  length (filter (Req_b r) xs).

(** The changes that a range with whole ends visits: [lo], [lo + 10], ...
    up to [hi]. *)
Definition changes (lo hi : Z) : list Z :=
  map (fun i => (lo + 10 * i)%Z) (Zrange 0 ((hi - lo) / 10 + 1)).

(** The description of the change of the opposite sign. *)
Definition opposite_impact (s : string) : string :=
  if String.eqb s "Significant positive impact"
  then "Significant negative impact"
  else if String.eqb s "Moderate positive impact"
  then "Moderate negative impact"
  else if String.eqb s "Minor positive impact"
  then "Minor negative impact"
  else if String.eqb s "Minor negative impact"
  then "Minor positive impact"
  else if String.eqb s "Moderate negative impact"
  then "Moderate positive impact"
  else if String.eqb s "Significant negative impact"
  then "Significant positive impact"
  else s.

(** * Properties *)

(** ** Deciding tests on real constants *)

Lemma Req_b_true (x y : R) : x = y -> Req_b x y = true.
Proof.
  intros H. unfold Req_b.
  destruct (Req_dec_T x y); [reflexivity | contradiction].
Qed.

Lemma Req_b_false (x y : R) : x <> y -> Req_b x y = false.
Proof.
  intros H. unfold Req_b.
  destruct (Req_dec_T x y); [contradiction | reflexivity].
Qed.

Lemma Rlt_b_true (x y : R) : x < y -> Rlt_b x y = true.
Proof.
  intros H. unfold Rlt_b.
  destruct (Rlt_dec x y); [reflexivity | contradiction].
Qed.

Lemma Rlt_b_false (x y : R) : ~ x < y -> Rlt_b x y = false.
Proof.
  intros H. unfold Rlt_b.
  destruct (Rlt_dec x y); [contradiction | reflexivity].
Qed.

Lemma Int_part_between (z : Z) (r : R) :
  IZR z <= r < IZR z + 1 -> Int_part r = z.
Proof.
  intros [Hlo Hhi]. symmetry. apply Int_part_spec. lra.
Qed.

Lemma Fin_eq (a b : R) : a = b -> Fin a = Fin b.
Proof. intros ->. reflexivity. Qed.

Lemma Fin_neq (a b : R) : a <> b -> Fin a <> Fin b.
Proof. intros H E. apply H. injection E. trivial. Qed.

Lemma of_nat_INR (n : nat) : of_nat n = Fin (INR n).
Proof. unfold of_nat. rewrite <- INR_IZR_INZ. reflexivity. Qed.

(** [decide_reals] settles every comparison between real constants in the
    goal; [decide_int_parts] finds the integer part of a real constant;
    [js_eval] runs a closed numeric expression to its value. *)
Ltac decide_reals :=
  repeat match goal with
  | |- context [Req_b ?a ?b] =>
      first [ rewrite (Req_b_true a b) by lra
            | rewrite (Req_b_false a b) by lra ]
  | |- context [Rlt_b ?a ?b] =>
      first [ rewrite (Rlt_b_true a b) by lra
            | rewrite (Rlt_b_false a b) by lra ]
  end.

Ltac int_part_search r z fuel :=
  first
    [ rewrite (Int_part_between z r) by (simpl; lra)
    | lazymatch fuel with
      | S ?fuel' =>
          let z' := eval compute in (Z.succ z) in int_part_search r z' fuel'
      end ].

Ltac decide_int_parts :=
  repeat match goal with
  | |- context [Int_part ?r] => int_part_search r (-40)%Z 80%nat
  end.

Ltac js_eval :=
  repeat (progress (simpl;
                    unfold comes_after, strict_neq, strict_eq, jge, jgt, jlt,
                      is_index, Rtrunc, of_nat, of_Z;
                    decide_reals; decide_int_parts)).

(** ** Non-finite values absorb *)

Lemma jadd_not_finite_r (a b : number) :
  isFinite b = false -> isFinite (jadd a b) = false.
Proof. destruct a, b; simpl; intros H; congruence. Qed.

Lemma jsub_not_finite_l (a b : number) :
  isFinite a = false -> isFinite (jsub a b) = false.
Proof. destruct a, b; simpl; intros H; congruence. Qed.

Lemma signed_inf_not_finite (s : bool) : isFinite (signed_inf s) = false.
Proof. destruct s; reflexivity. Qed.

Lemma jmul_not_finite_l (a b : number) :
  isFinite a = false -> isFinite (jmul a b) = false.
Proof.
  destruct a, b; simpl; intros H; try congruence;
    destruct (Req_b r 0); auto using signed_inf_not_finite.
Qed.

Lemma jmul_not_finite_r (a b : number) :
  isFinite b = false -> isFinite (jmul a b) = false.
Proof.
  destruct a, b; simpl; intros H; try congruence;
    destruct (Req_b r 0); auto using signed_inf_not_finite.
Qed.

Lemma jdiv_by_zero_not_finite (a : number) (z : R) :
  z = 0 -> isFinite (jdiv a (Fin z)) = false.
Proof.
  intros ->. destruct a; simpl; auto using signed_inf_not_finite.
  rewrite (Req_b_true 0 0) by reflexivity.
  destruct (Req_b r 0); auto using signed_inf_not_finite.
Qed.

Lemma Math_pow_not_finite (a : number) (k : nat) :
  isFinite a = false -> isFinite (Math_pow a (S k)) = false.
Proof.
  destruct a; simpl; intros H; try congruence.
  destruct k; [reflexivity |]. destruct (Nat.even k); reflexivity.
Qed.

Lemma fold_not_finite (f : number -> number) (data : list number) :
  (forall x, isFinite (f x) = false) ->
  forall acc,
    data <> [] \/ isFinite acc = false ->
    isFinite (fold_left (fun sum x => jadd sum (f x)) data acc) = false.
Proof.
  intros Hf. induction data as [| x data IH]; intros acc H; simpl.
  - destruct H as [H | H]; [congruence | exact H].
  - apply IH. right. apply jadd_not_finite_r, Hf.
Qed.

(** ** Lists: sorting, positions, slices *)

Lemma insert_sorted_length (a : number) (l : list number) :
  length (insert_sorted a l) = S (length l).
Proof.
  induction l as [| b l IH]; simpl; [reflexivity |].
  destruct (comes_after a b); simpl; [rewrite IH |]; reflexivity.
Qed.

Lemma sort_numbers_length (l : list number) :
  length (sort_numbers l) = length l.
Proof.
  induction l as [| a l IH]; simpl; [reflexivity |].
  rewrite insert_sorted_length. f_equal. exact IH.
Qed.

Lemma insert_sorted_finite (a : number) (l : list number) :
  finite a -> Forall finite l -> Forall finite (insert_sorted a l).
Proof.
  intros Ha Hl. induction Hl as [| b l Hb Hl IH]; simpl.
  - constructor; [exact Ha | constructor].
  - destruct (comes_after a b); constructor; auto.
Qed.

Lemma sort_numbers_finite (l : list number) :
  Forall finite l -> Forall finite (sort_numbers l).
Proof.
  induction 1 as [| a l Ha Hl IH]; simpl; [constructor |].
  apply insert_sorted_finite; assumption.
Qed.

(** On finite numbers the model of [sort] returns an ascending rearrangement
    of its argument. *)
Lemma comes_after_total (a b : number) :
  finite a -> finite b -> comes_after a b = true -> comes_after b a = false.
Proof.
  unfold finite. destruct a, b; try discriminate. intros _ _.
  unfold comes_after, jgt. cbn [jsub jlt]. unfold Rlt_b.
  destruct (Rlt_dec 0 (r - r0)), (Rlt_dec 0 (r0 - r)); try reflexivity.
  - lra.
  - discriminate.
Qed.

Lemma insert_sorted_perm (a : number) (l : list number) :
  Permutation (insert_sorted a l) (a :: l).
Proof.
  induction l as [| b l IH]; simpl; [reflexivity |].
  destruct (comes_after a b); [| reflexivity].
  rewrite IH. apply perm_swap.
Qed.

Lemma sort_numbers_perm (l : list number) : Permutation (sort_numbers l) l.
Proof.
  induction l as [| a l IH]; simpl; [constructor |].
  rewrite insert_sorted_perm. constructor. exact IH.
Qed.

Lemma insert_sorted_ascending (a : number) (l : list number) :
  finite a -> Forall finite l ->
  Sorted ascending l -> Sorted ascending (insert_sorted a l).
Proof.
  intros Ha Hl Hs. induction l as [| b l IH]; simpl.
  - repeat constructor.
  - inversion Hl as [| ? ? Hb Hl']; subst.
    inversion Hs as [| ? ? Hs' Hhd]; subst.
    destruct (comes_after a b) eqn:Hab.
    + constructor; [apply IH; assumption |].
      destruct l as [| c l]; simpl.
      * constructor. apply comes_after_total; assumption.
      * destruct (comes_after a c) eqn:Hac.
        -- inversion Hhd; subst. constructor. assumption.
        -- constructor. apply comes_after_total; assumption.
    + constructor; [assumption |]. constructor. exact Hab.
Qed.

Lemma sort_numbers_ascending (l : list number) :
  Forall finite l -> Sorted ascending (sort_numbers l).
Proof.
  induction 1 as [| a l Ha Hl IH]; simpl; [constructor |].
  apply insert_sorted_ascending; auto.
  apply sort_numbers_finite. exact Hl.
Qed.

Lemma array_get_at (l : list number) (z : Z) :
  (0 <= z)%Z -> array_get l (Fin (IZR z)) = array_at l z.
Proof.
  intros Hz. unfold array_get, array_at, is_index.
  rewrite (Int_part_between z (IZR z)) by lra.
  rewrite Req_b_true by reflexivity.
  replace (0 <=? z)%Z with true by (symmetry; apply Z.leb_le; exact Hz).
  replace (z <? 0)%Z with false by (symmetry; apply Z.ltb_ge; exact Hz).
  reflexivity.
Qed.

Lemma array_at_map_Fin (ys : list R) (k : nat) (y : R) :
  nth_error ys k = Some y -> array_at (map Fin ys) (Z.of_nat k) = Num (Fin y).
Proof.
  intros H. unfold array_at.
  replace (Z.of_nat k <? 0)%Z with false by (symmetry; apply Z.ltb_ge; lia).
  rewrite Nat2Z.id, nth_error_map, H. reflexivity.
Qed.

Lemma skipn_cons_nth (ys : list R) (k : nat) :
  (k < length ys)%nat ->
  exists y, nth_error ys k = Some y /\ skipn k ys = y :: skipn (S k) ys.
Proof.
  revert k. induction ys as [| a ys IH]; intros k Hk; simpl in Hk; [lia |].
  destruct k as [| k].
  - exists a. split; reflexivity.
  - destruct (IH k) as (y & H1 & H2); [lia |].
    exists y. split; [exact H1 | exact H2].
Qed.

Lemma combine_map_l {A B C : Type} (g : A -> C) (l : list A) (l' : list B) :
  combine (map g l) l' = map (fun p => (g (fst p), snd p)) (combine l l').
Proof.
  revert l'. induction l as [| a l IH]; intros [| b l']; simpl; try reflexivity.
  rewrite IH. reflexivity.
Qed.

Lemma Zrange_from_zero (n : nat) :
  Zrange 0 (Z.of_nat n) = map Z.of_nat (seq 0 n).
Proof.
  unfold Zrange. rewrite Z.sub_0_r, Nat2Z.id. apply map_ext. intros k. lia.
Qed.

Lemma nth_error_Zrange (lo hi j : Z) :
  (lo <= j < hi)%Z -> nth_error (Zrange lo hi) (Z.to_nat (j - lo)) = Some j.
Proof.
  intros Hj. unfold Zrange. rewrite nth_error_map, nth_error_seq.
  replace (Z.to_nat (j - lo) <? Z.to_nat (hi - lo))%nat with true
    by (symmetry; apply Nat.ltb_lt; lia).
  simpl. f_equal. lia.
Qed.

(** [data.slice (-w)] and [data.slice (-2 w, -w)] on a series that holds
    more than [w] values. *)
Lemma slice_recent {A : Type} (l : list A) (w : nat) :
  (1 <= w)%nat -> (w < length l)%nat ->
  slice_from l (- Z.of_nat w) = skipn (length l - w) l.
Proof.
  intros Hw Hlen. unfold slice_from, slice, rel_index.
  replace (- Z.of_nat w <? 0)%Z with true by (symmetry; apply Z.ltb_lt; lia).
  replace (Z.of_nat (length l) <? 0)%Z with false
    by (symmetry; apply Z.ltb_ge; lia).
  rewrite Z.min_id.
  replace (Z.max (Z.of_nat (length l) + - Z.of_nat w) 0)
    with (Z.of_nat (length l - w)) by lia.
  rewrite Nat2Z.id.
  apply firstn_all2. rewrite length_skipn. lia.
Qed.

Lemma slice_earlier {A : Type} (l : list A) (w : nat) :
  (1 <= w)%nat -> (w < length l)%nat ->
  slice l (- Z.of_nat w * 2) (- Z.of_nat w)
  = skipn (length l - 2 * w) (firstn (length l - w) l).
Proof.
  intros Hw Hlen. unfold slice, rel_index.
  replace (- Z.of_nat w * 2 <? 0)%Z with true by (symmetry; apply Z.ltb_lt; lia).
  replace (- Z.of_nat w <? 0)%Z with true by (symmetry; apply Z.ltb_lt; lia).
  replace (Z.max (Z.of_nat (length l) + - Z.of_nat w * 2) 0)
    with (Z.of_nat (length l - 2 * w)) by lia.
  replace (Z.max (Z.of_nat (length l) + - Z.of_nat w) 0)
    with (Z.of_nat (length l - w)) by lia.
  rewrite <- Nat2Z.inj_sub by lia. rewrite !Nat2Z.id.
  rewrite skipn_firstn_comm. reflexivity.
Qed.

(** [x.slice (0, n)] keeps the first [n] elements. *)
Lemma slice_prefix {A : Type} (l : list A) (n : nat) :
  slice l 0 (Z.of_nat n) = firstn (Nat.min n (length l)) l.
Proof.
  unfold slice, rel_index. simpl (0 <? 0)%Z. cbv iota.
  replace (Z.of_nat n <? 0)%Z with false by (symmetry; apply Z.ltb_ge; lia).
  replace (Z.min 0 (Z.of_nat (length l))) with 0%Z by lia.
  rewrite Z.sub_0_r. simpl skipn. f_equal. lia.
Qed.

Lemma mapi_from_ext {A B : Type} (f g : A -> Z -> B) (l : list A) (off : Z) :
  (forall a i, (off <= i < off + Z.of_nat (length l))%Z -> f a i = g a i) ->
  mapi_from f off l = mapi_from g off l.
Proof.
  revert off. induction l as [| a l IH]; intros off H; simpl; [reflexivity |].
  rewrite (H a off) by (simpl length; lia). f_equal.
  apply IH. intros b i Hi. apply H. simpl length. lia.
Qed.

Lemma array_at_firstn (y : list number) (n : nat) (i : Z) :
  (i < Z.of_nat n)%Z -> array_at (firstn n y) i = array_at y i.
Proof.
  intros Hi. unfold array_at. destruct (i <? 0)%Z eqn:Hneg; [reflexivity |].
  apply Z.ltb_ge in Hneg. rewrite nth_error_firstn.
  replace (Z.to_nat i <? n)%nat with true by (symmetry; apply Nat.ltb_lt; lia).
  reflexivity.
Qed.

Lemma In_obj_set {A : Type} (o : list (string * A)) (k k' : string) (v v' : A) :
  In (k', v') (obj_set o k v) -> (k', v') = (k, v) \/ In (k', v') o.
Proof.
  induction o as [| [k0 v0] o IH]; simpl.
  - intros [H | []]. left. symmetry. exact H.
  - destruct (String.eqb k0 k); simpl.
    + intros [H | H]; [left; symmetry; exact H | right; right; exact H].
    + intros [H | H]; [right; left; exact H |].
      destruct (IH H) as [H' | H']; [left; exact H' | right; right; exact H'].
Qed.

(** ** The orchestrator *)

Section Orchestrator.
Import DataAnalyzer.

(** C1.  [performDeepAnalysis] builds its [recommendations] field by
    calling [generateRecommendations], whose first statement calls
    [performDeepAnalysis] on the same data: whatever number of nested
    activations the engine allows, and whatever the dataset, the call ends
    with the engine's [RangeError] and no report is ever returned. *)
Theorem performDeepAnalysis_never_returns (stack : nat) (d : selectedData) :
  performDeepAnalysis stack d = Throw RangeError.
Proof.
  induction stack as [| stack IH]; simpl.
  - reflexivity.
  - unfold generateRecommendations_calling. rewrite IH. reflexivity.
Qed.

(** C10.  A grid with fewer than two rows has no numeric column, and the
    four per-column analyses return the empty mapping. *)
Theorem short_grid_has_no_numeric_column (d : selectedData) :
  (length (values d) < 2)%nat ->
  getNumericColumns (values d) = []
  /\ calculateStatistics d = []
  /\ calculateCorrelations d = []
  /\ detectOutliers d = []
  /\ analyzeTrends d = [].
Proof.
  intros Hlen.
  assert (Hcols : getNumericColumns (values d) = []).
  { unfold getNumericColumns.
    apply Nat.ltb_lt in Hlen. rewrite Hlen. reflexivity. }
  unfold calculateStatistics, calculateCorrelations, detectOutliers,
    analyzeTrends.
  rewrite Hcols. simpl. repeat split; reflexivity.
Qed.

(** The single row of [one_numeric_row] holds numbers only. *)
Lemma short_grid_numeric_row :
  forallb typeof_number (nth 0 (values one_numeric_row) []) = true
  /\ getNumericColumns (values one_numeric_row) = []
  /\ calculateStatistics one_numeric_row = []
  /\ calculateCorrelations one_numeric_row = []
  /\ detectOutliers one_numeric_row = []
  /\ analyzeTrends one_numeric_row = [].
Proof.
  split; [reflexivity |].
  apply (short_grid_has_no_numeric_column one_numeric_row). simpl. lia.
Defined.

(** ** Data quality *)

(** C2.  On the grid without rows both scores are [1 - 0 / 0], that is
    [NaN]: the assessor returns, but neither score is 1. *)
Theorem empty_dataset_scores_are_NaN :
  completeness_score (completeness (assessDataQuality empty_dataset)) = NaN
  /\ uniqueness_score (uniqueness (assessDataQuality empty_dataset)) = NaN
  /\ totalCells (completeness (assessDataQuality empty_dataset)) = 0%nat
  /\ totalRows (uniqueness (assessDataQuality empty_dataset)) = 0%nat
  /\ grade (overall (assessDataQuality empty_dataset)) = "F"%string.
Proof.
  unfold assessDataQuality, empty_dataset; simpl.
  rewrite !Req_b_true by reflexivity. simpl. repeat split; reflexivity.
Qed.

(** ** Shape statistics *)

Lemma standardized_not_finite (x mean : number) (k : nat) :
  isFinite (Math_pow (jdiv (jsub x mean) (Fin 0)) (S k)) = false.
Proof. apply Math_pow_not_finite, jdiv_by_zero_not_finite. reflexivity. Qed.

Lemma skewness_not_finite (data : list number) :
  data <> [] ->
  standardDeviation data = Fin 0 \/ (length data < 3)%nat ->
  isFinite (skewness data) = false.
Proof.
  intros Hne [Hsd | Hn]; unfold skewness.
  - apply jmul_not_finite_r. rewrite Hsd.
    apply (fold_not_finite
             (fun x => Math_pow (jdiv (jsub x (mean data)) (Fin 0)) 3)).
    + intros x. apply standardized_not_finite.
    + left. exact Hne.
  - apply jmul_not_finite_l. unfold of_nat. cbn [jsub jmul].
    apply jdiv_by_zero_not_finite.
    destruct data as [| a [| b [| c t]]]; simpl length in *;
      [congruence | | | lia]; simpl; lra.
Qed.

Lemma kurtosis_not_finite (data : list number) :
  data <> [] ->
  standardDeviation data = Fin 0 \/ (length data < 4)%nat ->
  isFinite (kurtosis data) = false.
Proof.
  intros Hne [Hsd | Hn]; unfold kurtosis; apply jsub_not_finite_l.
  - apply jmul_not_finite_r. rewrite Hsd.
    apply (fold_not_finite
             (fun x => Math_pow (jdiv (jsub x (mean data)) (Fin 0)) 4)).
    + intros x. apply standardized_not_finite.
    + left. exact Hne.
  - apply jmul_not_finite_l. unfold of_nat. cbn [jsub jmul jadd].
    apply jdiv_by_zero_not_finite.
    destruct data as [| a [| b [| c [| e t]]]]; simpl length in *;
      [congruence | | | | lia]; simpl; lra.
Qed.


End Orchestrator.

(** ** Momentum, volatility and correlation *)

Section TrendMeasures.
Import DataAnalyzer.

Lemma mean_three (a b c : R) :
  mean [Fin a; Fin b; Fin c] = Fin ((a + b + c) / 3).
Proof.
  unfold mean, sum, of_nat. js_eval. apply Fin_eq. lra.
Qed.

Lemma mean_one (a : R) : mean [Fin a] = Fin a.
Proof.
  unfold mean, sum, of_nat. js_eval. apply Fin_eq. lra.
Qed.

(** C4, as the code has it.  For a window [w >= 1] the momentum is 0 when
    the series holds fewer than [w + 1] values; otherwise it is the mean
    of the last [w] values minus the mean of the values that
    [slice (-2 w, -w)] selects before them: the [w] preceding values when
    the series holds at least [2 w] values, and all the [n - w] values
    before the recent window when it holds fewer. *)
Theorem momentum_windows (data : list number) (w : nat) :
  (1 <= w)%nat ->
  let n := length data in
  let recent := skipn (n - w) data in
  let earlier := skipn (n - 2 * w) (firstn (n - w) data) in
  if (n <? w + 1)%nat
  then calculateMomentum data (Z.of_nat w) = Fin 0
  else calculateMomentum data (Z.of_nat w) = jsub (mean recent) (mean earlier)
       /\ length recent = w
       /\ length earlier = Nat.min w (n - w).
Proof.
  intros Hw n recent earlier. unfold calculateMomentum.
  destruct (n <? w + 1)%nat eqn:Hn.
  - apply Nat.ltb_lt in Hn.
    replace (Z.of_nat (length data) <? Z.of_nat w + 1)%Z with true
      by (symmetry; apply Z.ltb_lt; unfold n in Hn; lia).
    reflexivity.
  - apply Nat.ltb_ge in Hn. unfold n in Hn.
    replace (Z.of_nat (length data) <? Z.of_nat w + 1)%Z with false
      by (symmetry; apply Z.ltb_ge; lia).
    rewrite slice_recent, slice_earlier by lia.
    split; [reflexivity |]. unfold recent, earlier, n.
    rewrite !length_skipn, length_firstn. lia.
Qed.

(** The default window 3 on series of 6, 4 and 3 values. *)
Lemma momentum_windows_default :
  calculateMomentum [Fin 1; Fin 2; Fin 3; Fin 4; Fin 5; Fin 6] 3
  = jsub (mean [Fin 4; Fin 5; Fin 6]) (mean [Fin 1; Fin 2; Fin 3])
  /\ calculateMomentum [Fin 1; Fin 2; Fin 3; Fin 4] 3
     = jsub (mean [Fin 2; Fin 3; Fin 4]) (mean [Fin 1])
  /\ calculateMomentum [Fin 1; Fin 2; Fin 3] 3 = Fin 0.
Proof.
  split; [| split].
  - apply (momentum_windows [Fin 1; Fin 2; Fin 3; Fin 4; Fin 5; Fin 6] 3). lia.
  - apply (momentum_windows [Fin 1; Fin 2; Fin 3; Fin 4] 3). lia.
  - apply (momentum_windows [Fin 1; Fin 2; Fin 3] 3). lia.
Defined.

(** C4, as stated, fails: the series [1 .. 6] and [1 .. 4] are shorter than
    [2 * 3 + 1], yet their momentum is [(4 + 5 + 6) / 3 - (1 + 2 + 3) / 3 = 3]
    and [(2 + 3 + 4) / 3 - 1 = 2], not 0. *)
Lemma momentum_of_short_series_is_not_zero :
  (length [Fin 1; Fin 2; Fin 3; Fin 4; Fin 5; Fin 6] < 2 * 3 + 1)%nat
  /\ calculateMomentum [Fin 1; Fin 2; Fin 3; Fin 4; Fin 5; Fin 6] 3 = Fin 3
  /\ calculateMomentum [Fin 1; Fin 2; Fin 3; Fin 4; Fin 5; Fin 6] 3 <> Fin 0
  /\ (length [Fin 1; Fin 2; Fin 3; Fin 4] < 2 * 3 + 1)%nat
  /\ calculateMomentum [Fin 1; Fin 2; Fin 3; Fin 4] 3 = Fin 2
  /\ calculateMomentum [Fin 1; Fin 2; Fin 3; Fin 4] 3 <> Fin 0.
Proof.
  assert (H6 : calculateMomentum [Fin 1; Fin 2; Fin 3; Fin 4; Fin 5; Fin 6] 3
               = Fin 3).
  { unfold calculateMomentum, slice_from, slice.
    set (m := mean). simpl. subst m.
    rewrite !mean_three. cbn [jsub]. apply Fin_eq. lra. }
  assert (H4 : calculateMomentum [Fin 1; Fin 2; Fin 3; Fin 4] 3 = Fin 2).
  { unfold calculateMomentum, slice_from, slice.
    set (m := mean). simpl. subst m.
    rewrite mean_three, mean_one. cbn [jsub]. apply Fin_eq. lra. }
  split; [simpl; lia |]. split; [exact H6 |].
  split; [rewrite H6; apply Fin_neq; lra |].
  split; [simpl; lia |]. split; [exact H4 |].
  rewrite H4. apply Fin_neq. lra.
Qed.

(** The sample variance of a single value divides 0 by 0. *)
Lemma variance_single (r : R) : variance [Fin r] = NaN.
Proof.
  unfold variance. rewrite mean_one. unfold sum, of_nat. js_eval. reflexivity.
Qed.

(** C5.  The series [0, 5, 7] has one period with a zero denominator, which
    the loop skips, and one period that yields the return [(7 - 5) / 5].
    The standard deviation of that single return divides by [1 - 1]: the
    volatility is [NaN], also in the trend record of the column. *)
Theorem volatility_of_single_return_is_NaN :
  period_returns [Fin 0; Fin 5; Fin 7] = [Fin ((7 - 5) / 5)]
  /\ calculateVolatility [Fin 0; Fin 5; Fin 7] = NaN
  /\ map (fun entry => volatility (snd entry))
         (analyzeTrends single_return_sample)
     = [NaN].
Proof.
  assert (Hr : period_returns [Fin 0; Fin 5; Fin 7] = [Fin ((7 - 5) / 5)]).
  { js_eval. reflexivity. }
  assert (Hv : calculateVolatility [Fin 0; Fin 5; Fin 7] = NaN).
  { unfold calculateVolatility, standardDeviation. cbn [length Nat.ltb Nat.leb].
    rewrite Hr, variance_single. reflexivity. }
  split; [exact Hr |]. split; [exact Hv |].
  unfold analyzeTrends.
  change (getNumericColumns (values single_return_sample)) with [0%nat].
  cbn [fold_left].
  change (columnData (values single_return_sample) 0) with [Fin 0; Fin 5; Fin 7].
  cbn [length Nat.ltb Nat.leb obj_set map snd volatility].
  rewrite Hv. reflexivity.
Qed.

(** The guards that the code does have: a zero denominator gives the
    correlation 0, and a series without any return gives the volatility 0. *)
Lemma pearson_zero_denominator (x y : list number) :
  let n := Nat.min (length x) (length y) in
  let xs := slice x 0 (Z.of_nat n) in
  let ys := slice y 0 (Z.of_nat n) in
  strict_eq
    (pearson_denominator n (sum xs) (sum ys)
       (sum (map (fun xi => jmul xi xi) xs))
       (sum (map (fun yi => jmul yi yi) ys)))
    (Fin 0) = true ->
  pearsonCorrelation x y = Fin 0.
Proof.
  intros n xs ys H. unfold pearsonCorrelation. fold n. fold xs. fold ys.
  destruct (n <? 2)%nat; [reflexivity |]. rewrite H. reflexivity.
Qed.

(** The correlation only reads the first [min (len x, len y)] elements of
    each input, paired by position. *)
Lemma pearson_pairs_up_to_min (x y : list number) :
  let n := Nat.min (length x) (length y) in
  pearsonCorrelation x y = pearsonCorrelation (firstn n x) (firstn n y).
Proof.
  intros n. unfold pearsonCorrelation.
  rewrite !length_firstn. fold n.
  replace (Nat.min (Nat.min n (length x)) (Nat.min n (length y))) with n
    by (unfold n; lia).
  rewrite !slice_prefix, !length_firstn.
  replace (Nat.min n (length x)) with n by (unfold n; lia).
  replace (Nat.min n (length y)) with n by (unfold n; lia).
  rewrite !Nat.min_id, !firstn_firstn, !Nat.min_id.
  replace (mapi (fun xi i => jmul xi (ToNumber (array_at (firstn n y) i)))
                (firstn n x))
    with (mapi (fun xi i => jmul xi (ToNumber (array_at y i))) (firstn n x)).
  - reflexivity.
  - unfold mapi. apply mapi_from_ext. intros a i Hi.
    rewrite array_at_firstn; [reflexivity |].
    rewrite length_firstn in Hi. lia.
Qed.

Lemma volatility_without_returns (data : list number) :
  (length data < 2)%nat \/ period_returns data = [] ->
  calculateVolatility data = Fin 0.
Proof.
  intros H. unfold calculateVolatility.
  destruct (length data <? 2)%nat eqn:Hlen; [reflexivity |].
  destruct H as [H | H]; [apply Nat.ltb_ge in Hlen; lia |].
  rewrite H. unfold standardDeviation, variance, mean, sum, of_nat. js_eval.
  replace (0 / (0 - 1)) with 0 by lra. rewrite sqrt_0. reflexivity.
Qed.

(** ** Outlier fences *)

Lemma sample_columnData : columnData (values outlier_sample) 0 = sample_column.
Proof. reflexivity. Qed.

Lemma sample_numeric_columns :
  getNumericColumns (values outlier_sample) = [0%nat].
Proof. reflexivity. Qed.

Lemma sample_sorted : sort_numbers sample_column = sample_column.
Proof.
  unfold sort_numbers, sample_column, comes_after. js_eval. reflexivity.
Qed.

Lemma sample_q1 : percentile sample_column (Fin 25) = Num (Fin (325 / 100)).
Proof.
  unfold percentile, sample_column, of_nat. js_eval.
  f_equal. apply Fin_eq. lra.
Qed.

Lemma sample_q2 : percentile sample_column (Fin 50) = Num (Fin (55 / 10)).
Proof.
  unfold percentile, sample_column, of_nat. js_eval.
  f_equal. apply Fin_eq. lra.
Qed.

Lemma sample_q3 : percentile sample_column (Fin 75) = Num (Fin (775 / 100)).
Proof.
  unfold percentile, sample_column, of_nat. js_eval.
  f_equal. apply Fin_eq. lra.
Qed.

Lemma sample_quartiles :
  quartiles sample_column
  = [Num (Fin (325 / 100)); Num (Fin (55 / 10)); Num (Fin (775 / 100))].
Proof.
  unfold quartiles. rewrite sample_sorted, sample_q1, sample_q2, sample_q3.
  reflexivity.
Qed.

(** Any pair of fences that leaves 1..9 inside and 100 outside. *)
Lemma sample_fence (lo hi : R) :
  lo < 1 -> 9 < hi < 100 ->
  filter (fun val => jlt val (Fin lo) || jgt val (Fin hi)) sample_column
  = [Fin 100].
Proof.
  intros Hlo Hhi. unfold sample_column. js_eval. reflexivity.
Qed.

Lemma sample_record :
  outlier_record sample_column
  = {| mild := {| group_count := Fin 0; group_values := [] |};
       extreme := {| group_count := Fin 1; group_values := [Fin 100] |};
       bounds_lower := Fin (- (35 / 10));
       bounds_upper := Fin (145 / 10);
       percentage := Fin 10;
       impact := "medium" |}.
Proof.
  unfold outlier_record. rewrite sample_quartiles.
  cbn [nth ToNumber jsub jadd jmul].
  rewrite !sample_fence by lra.
  unfold assessOutlierImpact, includes, same_value_zero.
  js_eval.
  repeat (f_equal; try (apply Fin_eq; lra)).
Qed.

(** C6.  On the column [1, 2, ..., 9, 100] the interpolated quartiles are
    3.25, 5.5 and 7.75; the only extreme outlier is 100, there is no mild
    outlier, and so none of 1..9 is flagged. *)
Theorem outliers_of_sample :
  quartiles sample_column
  = [Num (Fin (325 / 100)); Num (Fin (55 / 10)); Num (Fin (775 / 100))]
  /\ detectOutliers outlier_sample
     = [ ("column_0"%string,
          {| mild := {| group_count := Fin 0; group_values := [] |};
             extreme := {| group_count := Fin 1; group_values := [Fin 100] |};
             bounds_lower := Fin (- (35 / 10));
             bounds_upper := Fin (145 / 10);
             percentage := Fin 10;
             impact := "medium" |}) ].
Proof.
  split; [exact sample_quartiles |].
  unfold detectOutliers. rewrite sample_numeric_columns.
  cbn [fold_left]. rewrite sample_columnData, sample_record. reflexivity.
Qed.

(** ** Percentile 50 and the median *)

(** The percentile routine at 50 on a sample of odd size [2 k + 1]. *)
Lemma percentile_50_odd (s : list number) (k : nat) :
  length s = (2 * k + 1)%nat ->
  percentile s (Fin 50) = array_at s (Z.of_nat k).
Proof.
  intros Hlen. unfold percentile, of_nat. rewrite Hlen.
  cbn [jdiv jsub jmul].
  rewrite (Req_b_false 100 0) by lra. cbn [jmul].
  assert (Hidx : 50 / 100 * (IZR (Z.of_nat (2 * k + 1)) - 1) = IZR (Z.of_nat k)).
  { rewrite Nat2Z.inj_add, Nat2Z.inj_mul, plus_IZR, mult_IZR. simpl. lra. }
  rewrite Hidx. cbn [jrem1 strict_eq]. unfold Rtrunc.
  assert (Hk : 0 <= IZR (Z.of_nat k)) by (apply IZR_le; lia).
  rewrite (Rlt_b_false _ 0) by lra.
  rewrite (Int_part_between (Z.of_nat k)) by lra.
  rewrite Req_b_true by lra.
  apply array_get_at. lia.
Qed.

Lemma median_odd (data : list number) (k : nat) :
  length data = (2 * k + 1)%nat ->
  median data = array_at (sort_numbers data) (Z.of_nat k).
Proof.
  intros Hlen. unfold median. rewrite sort_numbers_length, Hlen.
  replace ((2 * k + 1) mod 2)%nat with 1%nat
    by (symmetry; rewrite Nat.add_comm, Nat.mul_comm; apply Nat.Div0.mod_add).
  replace ((2 * k + 1) / 2)%nat with k
    by (symmetry; rewrite Nat.add_comm, Nat.mul_comm, Nat.div_add by lia;
        reflexivity).
  reflexivity.
Qed.

Lemma median_even (data : list number) (k : nat) (a b : R) :
  length data = (2 * k + 2)%nat ->
  nth_error (sort_numbers data) k = Some (Fin a) ->
  nth_error (sort_numbers data) (S k) = Some (Fin b) ->
  median data = Num (Fin ((a + b) / 2)).
Proof.
  intros Hlen Ha Hb. unfold median. rewrite sort_numbers_length, Hlen.
  replace (2 * k + 2)%nat with (0 + (S k) * 2)%nat by lia.
  rewrite Nat.Div0.mod_add, Nat.div_add by lia.
  cbn [Nat.modulo Nat.div Nat.eqb negb Nat.add].
  simpl Nat.divmod. cbn [fst snd Nat.sub Nat.add Nat.eqb negb].
  unfold array_at.
  replace (Z.of_nat (S k) - 1)%Z with (Z.of_nat k) by lia.
  replace (Z.of_nat k <? 0)%Z with false by (symmetry; apply Z.ltb_ge; lia).
  replace (Z.of_nat (S k) <? 0)%Z with false by (symmetry; apply Z.ltb_ge; lia).
  rewrite !Nat2Z.id, Ha, Hb. cbn [ToNumber jadd jdiv].
  rewrite Req_b_false by lra. reflexivity.
Qed.

(** The routines at the two middle places of a sample of even size, whatever
    the numbers there. *)
Lemma percentile_50_middle (s : list number) (k : nat) (a b : number) :
  length s = (2 * k + 2)%nat ->
  nth_error s k = Some a ->
  nth_error s (S k) = Some b ->
  percentile s (Fin 50)
  = Num (jadd a (jmul (jsub b a) (Fin (1 / 2)))).
Proof.
  intros Hlen Ha Hb. unfold percentile, of_nat. rewrite Hlen.
  cbn [jdiv jsub jmul].
  rewrite (Req_b_false 100 0) by lra. cbn [jmul].
  assert (Hidx : 50 / 100 * (IZR (Z.of_nat (2 * k + 2)) - 1)
                 = IZR (Z.of_nat k) + 1 / 2).
  { rewrite Nat2Z.inj_add, Nat2Z.inj_mul, plus_IZR, mult_IZR. simpl. lra. }
  rewrite Hidx. cbn [jrem1 strict_eq Math_floor Math_ceil]. unfold Rtrunc.
  assert (Hk : 0 <= IZR (Z.of_nat k)) by (apply IZR_le; lia).
  rewrite (Rlt_b_false _ 0) by lra.
  rewrite (Int_part_between (Z.of_nat k)) by lra.
  rewrite (Int_part_between (- Z.of_nat k - 1)%Z)
    by (rewrite minus_IZR, opp_IZR; lra).
  rewrite Req_b_false by lra.
  replace (- (- Z.of_nat k - 1))%Z with (Z.of_nat (S k)) by lia.
  rewrite !array_get_at by lia.
  unfold array_at.
  replace (Z.of_nat k <? 0)%Z with false by (symmetry; apply Z.ltb_ge; lia).
  replace (Z.of_nat (S k) <? 0)%Z with false by (symmetry; apply Z.ltb_ge; lia).
  rewrite !Nat2Z.id, Ha, Hb. cbn [ToNumber].
  replace (IZR (Z.of_nat k) + 1 / 2 - IZR (Z.of_nat k)) with (1 / 2) by lra.
  reflexivity.
Qed.

Lemma median_middle (data : list number) (k : nat) (a b : number) :
  length data = (2 * k + 2)%nat ->
  nth_error (sort_numbers data) k = Some a ->
  nth_error (sort_numbers data) (S k) = Some b ->
  median data = Num (jdiv (jadd a b) (Fin 2)).
Proof.
  intros Hlen Ha Hb. unfold median. rewrite sort_numbers_length, Hlen.
  replace (2 * k + 2)%nat with (0 + (S k) * 2)%nat by lia.
  rewrite Nat.Div0.mod_add, Nat.div_add by lia.
  cbn [Nat.modulo Nat.div Nat.eqb negb Nat.add].
  simpl Nat.divmod. cbn [fst snd Nat.sub Nat.add Nat.eqb negb].
  unfold array_at.
  replace (Z.of_nat (S k) - 1)%Z with (Z.of_nat k) by lia.
  replace (Z.of_nat k <? 0)%Z with false by (symmetry; apply Z.ltb_ge; lia).
  replace (Z.of_nat (S k) <? 0)%Z with false by (symmetry; apply Z.ltb_ge; lia).
  rewrite !Nat2Z.id, Ha, Hb. reflexivity.
Qed.

(** On finite numbers the two expressions of the middle agree, in exact
    arithmetic. *)
Lemma middle_of_finite (a b : R) :
  jadd (Fin a) (jmul (jsub (Fin b) (Fin a)) (Fin (1 / 2)))
  = jdiv (jadd (Fin a) (Fin b)) (Fin 2).
Proof.
  cbn [jadd jsub jmul jdiv]. rewrite (Req_b_false 2 0) by lra.
  apply Fin_eq. lra.
Qed.

Lemma whole_numbers_finite (zs : list Z) : Forall finite (map of_Z zs).
Proof.
  apply Forall_forall. intros x Hx. apply in_map_iff in Hx.
  destruct Hx as (z & <- & _). reflexivity.
Qed.

Lemma nth_error_exists {A : Type} (l : list A) (i : nat) :
  (i < length l)%nat -> exists a, nth_error l i = Some a.
Proof.
  intros H. destruct (nth_error l i) as [a |] eqn:E; [exists a; reflexivity |].
  apply nth_error_None in E. lia.
Qed.

Lemma half_of_even (k : nat) : ((2 * k + 2) / 2)%nat = S k.
Proof.
  replace (2 * k + 2)%nat with (0 + S k * 2)%nat by lia.
  rewrite Nat.div_add by lia. reflexivity.
Qed.

Lemma half_of_odd (k : nat) : ((2 * k + 1) / 2)%nat = k.
Proof.
  replace (2 * k + 1)%nat with (1 + k * 2)%nat by lia.
  rewrite Nat.div_add by lia. reflexivity.
Qed.

(** C8.  On every non-empty list of numbers other than [NaN]:
    when the length is odd, the percentile routine applied at 50 to the
    sorted list and the median both return the middle element of the sorted
    list; when the length is even, with [a] and [b] the two middle elements
    of the sorted list, the median is [(a + b) / 2] and the percentile is
    [a + (b - a) * 0.5]; the second quartile and the [p50] entry of the
    percentile map are that percentile.  On a list of whole numbers of
    absolute value at most [10 ^ 15], where neither expression rounds, the
    percentile at 50 equals the median. *)
Theorem percentile_50_and_median (L : list number) :
  L <> [] -> Forall (fun x => isNaN x = false) L ->
  let sorted := sort_numbers L in
  let mid := (length L / 2)%nat in
  (Nat.odd (length L) = true ->
   exists m, nth_error sorted mid = Some m
             /\ median L = Num m
             /\ percentile sorted (Fin 50) = Num m)
  /\ (Nat.even (length L) = true ->
      exists a b, nth_error sorted (mid - 1) = Some a
                  /\ nth_error sorted mid = Some b
                  /\ median L = Num (jdiv (jadd a b) (Fin 2))
                  /\ percentile sorted (Fin 50)
                     = Num (jadd a (jmul (jsub b a) (Fin (1 / 2)))))
  /\ nth 1 (quartiles L) Undefined = percentile sorted (Fin 50)
  /\ p50 (percentiles L) = percentile sorted (Fin 50)
  /\ (forall zs : list Z,
        L = map of_Z zs ->
        Forall (fun z => (Z.abs z <= 10 ^ 15)%Z) zs ->
        percentile sorted (Fin 50) = median L).
Proof.
  intros Hne Hnan sorted mid.
  pose proof (sort_numbers_length L) as Hlen. fold sorted in Hlen.
  assert (Hpos : (0 < length L)%nat)
    by (destruct L; [congruence | simpl; lia]).
  assert (Hodd : forall k, length L = (2 * k + 1)%nat ->
            exists m, nth_error sorted mid = Some m
                      /\ median L = Num m
                      /\ percentile sorted (Fin 50) = Num m).
  { intros k Hk. unfold mid. rewrite Hk, half_of_odd.
    destruct (nth_error_exists sorted k) as [m Hm]; [lia |].
    exists m. split; [exact Hm |].
    rewrite (median_odd L k Hk), (percentile_50_odd sorted k) by lia.
    fold sorted. unfold array_at.
    replace (Z.of_nat k <? 0)%Z with false by (symmetry; apply Z.ltb_ge; lia).
    rewrite Nat2Z.id, Hm. split; reflexivity. }
  assert (Heven : forall k, length L = (2 * k + 2)%nat ->
            exists a b, nth_error sorted (mid - 1) = Some a
                        /\ nth_error sorted mid = Some b
                        /\ median L = Num (jdiv (jadd a b) (Fin 2))
                        /\ percentile sorted (Fin 50)
                           = Num (jadd a (jmul (jsub b a) (Fin (1 / 2))))).
  { intros k Hk. unfold mid. rewrite Hk, half_of_even.
    replace (S k - 1)%nat with k by lia.
    destruct (nth_error_exists sorted k) as [a Ha]; [lia |].
    destruct (nth_error_exists sorted (S k)) as [b Hb]; [lia |].
    exists a, b. split; [exact Ha |]. split; [exact Hb |]. split.
    - apply (median_middle L k a b Hk Ha Hb).
    - apply (percentile_50_middle sorted k a b); [lia | exact Ha | exact Hb]. }
  split; [| split; [| split; [| split]]].
  - intros Ho. apply Nat.odd_spec in Ho. destruct Ho as [k Hk].
    apply (Hodd k Hk).
  - intros He. apply Nat.even_spec in He. destruct He as [k Hk].
    destruct k as [| k]; [lia |]. apply (Heven k). lia.
  - reflexivity.
  - reflexivity.
  - intros zs HL _.
    destruct (Nat.Even_or_Odd (length L)) as [[k Hk] | [k Hk]].
    + destruct k as [| k]; [lia |].
      destruct (Heven k) as (a & b & Ha & Hb & Hmed & Hper); [lia |].
      rewrite Hmed, Hper. f_equal.
      assert (Hfin : Forall finite sorted).
      { apply sort_numbers_finite. rewrite HL. apply whole_numbers_finite. }
      rewrite Forall_forall in Hfin.
      pose proof (Hfin a (nth_error_In _ _ Ha)) as Fa.
      pose proof (Hfin b (nth_error_In _ _ Hb)) as Fb.
      destruct a as [| | | ra]; try discriminate Fa.
      destruct b as [| | | rb]; try discriminate Fb.
      apply middle_of_finite.
    + destruct (Hodd k Hk) as (m & _ & Hmed & Hper).
      rewrite Hmed, Hper. reflexivity.
Qed.

(** An even-length and an odd-length list of whole numbers, both unsorted. *)
Lemma percentile_50_and_median_samples :
  percentile (sort_numbers (map of_Z [4; 1; 3; 2]%Z)) (Fin 50)
  = median (map of_Z [4; 1; 3; 2]%Z)
  /\ percentile (sort_numbers (map of_Z [9; 1; 5]%Z)) (Fin 50)
     = median (map of_Z [9; 1; 5]%Z).
Proof.
  split.
  - destruct (percentile_50_and_median (map of_Z [4; 1; 3; 2]%Z))
      as (_ & _ & _ & _ & H);
      [discriminate | repeat constructor |].
    apply (H [4; 1; 3; 2]%Z); [reflexivity |].
    repeat constructor; simpl; lia.
  - destruct (percentile_50_and_median (map of_Z [9; 1; 5]%Z))
      as (_ & _ & _ & _ & H);
      [discriminate | repeat constructor |].
    apply (H [9; 1; 5]%Z); [reflexivity |].
    repeat constructor; simpl; lia.
Defined.

(** C8, as stated, fails: on the list [Infinity, Infinity] the median is
    [(Infinity + Infinity) / 2 = Infinity], while the percentile routine at
    50 computes [Infinity + (Infinity - Infinity) * 0.5], which is [NaN]. *)
Lemma percentile_50_of_infinities :
  [PInf; PInf] <> []
  /\ Forall (fun x => isNaN x = false) [PInf; PInf]
  /\ median [PInf; PInf] = Num PInf
  /\ percentile (sort_numbers [PInf; PInf]) (Fin 50) = Num NaN
  /\ percentile (sort_numbers [PInf; PInf]) (Fin 50) <> median [PInf; PInf].
Proof.
  assert (Hs : sort_numbers [PInf; PInf] = [PInf; PInf]) by reflexivity.
  assert (Hm : median [PInf; PInf] = Num PInf).
  { rewrite (median_middle [PInf; PInf] 0 PInf PInf);
      [| reflexivity | rewrite Hs; reflexivity ..].
    cbn [jadd jdiv]. rewrite (Rlt_b_false 2 0) by lra. reflexivity. }
  assert (Hp : percentile (sort_numbers [PInf; PInf]) (Fin 50) = Num NaN).
  { rewrite Hs.
    rewrite (percentile_50_middle [PInf; PInf] 0 PInf PInf);
      reflexivity. }
  split; [discriminate |]. split; [repeat constructor |].
  split; [exact Hm |]. split; [exact Hp |].
  rewrite Hm, Hp. discriminate.
Qed.

(** In binary64 the two routines agree on [Infinity, Infinity] with the
    model, and they part on finite values as well: on [0.1, 0.7] the median
    is [(0.1 + 0.7) / 2 = 0.39999999999999997] while the percentile at 50 is
    [0.1 + (0.7 - 0.1) * 0.5 = 0.4].  On the whole numbers [4, 1, 3, 2] both
    are 2.5. *)
Remark percentile_50_in_binary64 :
  Binary64.median [infinity; infinity] = infinity
  /\ PrimFloat.is_nan
       (Binary64.percentile (Binary64.sort_numbers [infinity; infinity])
                            50%float) = true
  /\ Binary64.median [0.1; 0.7]%float = 0.39999999999999997%float
  /\ Binary64.percentile (Binary64.sort_numbers [0.1; 0.7]%float) 50%float
     = 0.4%float
  /\ PrimFloat.eqb (Binary64.median [0.1; 0.7]%float)
                   (Binary64.percentile (Binary64.sort_numbers [0.1; 0.7]%float)
                                        50%float)
     = false
  /\ Binary64.median [4; 1; 3; 2]%float = 2.5%float
  /\ Binary64.percentile (Binary64.sort_numbers [4; 1; 3; 2]%float) 50%float
     = 2.5%float.
Proof. repeat split; vm_compute; reflexivity. Qed.

(** The two medians, computed: 2.5 for [4, 1, 3, 2] and 5 for [9, 1, 5]. *)
Lemma median_samples :
  median [Fin 4; Fin 1; Fin 3; Fin 2] = Num (Fin ((2 + 3) / 2))
  /\ median [Fin 9; Fin 1; Fin 5] = Num (Fin 5).
Proof.
  split.
  - unfold median, sort_numbers. js_eval. reflexivity.
  - unfold median, sort_numbers. js_eval. reflexivity.
Qed.

End TrendMeasures.

(** ** Worked examples *)

Section Examples.
Import DataAnalyzer.

Lemma sales_column :
  columnData (values sales_sample) 1 = [Fin 100; Fin 110; Fin 120; Fin 130].
Proof. reflexivity. Qed.

Example sales_mean : mean [Fin 100; Fin 110; Fin 120; Fin 130] = Fin 115.
Proof. unfold mean, sum, of_nat. js_eval. apply Fin_eq. lra. Qed.

Example sales_trend :
  slope (calculateLinearTrend [Fin 100; Fin 110; Fin 120; Fin 130]) = Fin 10
  /\ direction (calculateLinearTrend [Fin 100; Fin 110; Fin 120; Fin 130])
     = "increasing"%string.
Proof.
  assert (Hs : slope (calculateLinearTrend
                        [Fin 100; Fin 110; Fin 120; Fin 130]) = Fin 10).
  { unfold calculateLinearTrend, sum, mapi, Zrange. cbn [slope].
    js_eval. apply Fin_eq. lra. }
  split; [exact Hs |].
  unfold calculateLinearTrend in *. cbn [slope direction] in *. rewrite Hs.
  js_eval. reflexivity.
Qed.

Example constant_trend :
  direction (calculateLinearTrend [Fin 5; Fin 5; Fin 5; Fin 5; Fin 5])
  = "stable"%string.
Proof.
  assert (Hs : slope (calculateLinearTrend
                        [Fin 5; Fin 5; Fin 5; Fin 5; Fin 5]) = Fin 0).
  { unfold calculateLinearTrend, sum, mapi, Zrange. cbn [slope].
    js_eval. apply Fin_eq. lra. }
  unfold calculateLinearTrend in *. cbn [slope direction] in *. rewrite Hs.
  js_eval. reflexivity.
Qed.

Example distinct_grid_quality :
  completeness_score (completeness (assessDataQuality distinct_grid)) = Fin 1
  /\ uniqueness_score (uniqueness (assessDataQuality distinct_grid)) = Fin 1.
Proof.
  unfold assessDataQuality, findDuplicateRows, countMissingValues, distinct_grid.
  cbn [completeness uniqueness completeness_score uniqueness_score values].
  unfold json_atom_eqb. split.
  - js_eval. apply Fin_eq. lra.
  - js_eval. apply Fin_eq. lra.
Qed.

End Examples.

(** ** The trend forecast *)

Lemma Rsum_app (l l' : list R) : Rsum (l ++ l') = Rsum l + Rsum l'.
Proof.
  induction l as [| a l IH]; simpl; [lra | rewrite IH; lra].
Qed.

Lemma fold_jadd_Fin (l : list R) (a : R) :
  fold_left jadd (map Fin l) (Fin a) = Fin (a + Rsum l).
Proof.
  revert a. induction l as [| x l IH]; intros a; simpl.
  - apply Fin_eq. lra.
  - rewrite IH. apply Fin_eq. lra.
Qed.

Lemma fold_squares_Fin (l : list R) (a : R) :
  fold_left (fun sum xi => jadd sum (jmul xi xi)) (map Fin l) (Fin a)
  = Fin (a + Rsum (map (fun x => x * x) l)).
Proof.
  revert a. induction l as [| x l IH]; intros a; simpl.
  - apply Fin_eq. lra.
  - rewrite IH. apply Fin_eq. lra.
Qed.

Lemma positions_S (n : nat) : positions (S n) = positions n ++ [INR (S n)].
Proof.
  unfold positions. rewrite seq_S, map_app. reflexivity.
Qed.

Lemma positions_length (n : nat) : length (positions n) = n.
Proof. unfold positions. rewrite length_map, length_seq. reflexivity. Qed.

Lemma sum_positions (n : nat) : Rsum (positions n) = INR n * (INR n + 1) / 2.
Proof.
  induction n as [| n IH].
  - simpl. lra.
  - rewrite positions_S, Rsum_app, IH, S_INR. simpl. lra.
Qed.

Lemma sum_square_positions (n : nat) :
  Rsum (map (fun x => x * x) (positions n))
  = INR n * (INR n + 1) * (2 * INR n + 1) / 6.
Proof.
  induction n as [| n IH].
  - simpl. lra.
  - rewrite positions_S, map_app, Rsum_app, IH, S_INR. simpl. lra.
Qed.

(** The denominator of the slope is positive as soon as there are two
    observations: the positions [1 .. n] are not all equal. *)
Lemma positions_spread (n : nat) :
  (2 <= n)%nat ->
  0 < INR n * Rsum (map (fun x => x * x) (positions n))
      - Rsum (positions n) * Rsum (positions n).
Proof.
  intros Hn. rewrite sum_positions, sum_square_positions.
  assert (H2 : 2 <= INR n) by (apply (le_INR 2); exact Hn).
  replace (INR n * (INR n * (INR n + 1) * (2 * INR n + 1) / 6)
           - INR n * (INR n + 1) / 2 * (INR n * (INR n + 1) / 2))
    with (INR n * INR n * ((INR n + 1) * (INR n - 1)) / 12) by lra.
  assert (0 < INR n * INR n) by nra.
  assert (0 < (INR n + 1) * (INR n - 1)) by nra.
  nra.
Qed.

Lemma observed_positions (n : nat) :
  map (fun i => of_Z (i + 1)) (Zrange 0 (Z.of_nat n)) = map Fin (positions n).
Proof.
  rewrite Zrange_from_zero. unfold positions. rewrite !map_map.
  apply map_ext. intros k. unfold of_Z. apply Fin_eq.
  rewrite INR_IZR_INZ. f_equal. lia.
Qed.

(** The indexed product sum of [calculateSlope]. *)
Lemma indexed_products (ys xs : list R) (off : nat) (acc : R) :
  (off + length xs <= length ys)%nat ->
  fold_left
    (fun sum (xi_i : number * Z) =>
       jadd sum (jmul (fst xi_i) (ToNumber (array_at (map Fin ys) (snd xi_i)))))
    (combine (map Fin xs) (map Z.of_nat (seq off (length xs)))) (Fin acc)
  = Fin (acc + Rsum (map (fun p => fst p * snd p) (combine xs (skipn off ys)))).
Proof.
  revert off acc. induction xs as [| x xs IH]; intros off acc Hlen.
  - simpl. apply Fin_eq. lra.
  - simpl in Hlen.
    destruct (skipn_cons_nth ys off) as (y & Hy & Hskip); [lia |].
    rewrite Hskip. cbn [length seq map combine fold_left fst snd].
    rewrite (array_at_map_Fin ys off y Hy). cbn [ToNumber jmul jadd].
    rewrite IH by lia. apply Fin_eq. simpl. lra.
Qed.

(** The squared residuals of [calculateMSE]. *)
Lemma indexed_residuals (qs ys : list R) (off : nat) :
  (off + length ys <= length qs)%nat ->
  mapi_from
    (fun yi i => Math_pow (jsub yi (ToNumber (array_at (map Fin qs) i))) 2)
    (Z.of_nat off) (map Fin ys)
  = map Fin (map (fun p => (snd p - fst p) ^ 2) (combine (skipn off qs) ys)).
Proof.
  revert off. induction ys as [| y ys IH]; intros off Hlen.
  - simpl. destruct (skipn off qs); reflexivity.
  - simpl in Hlen.
    destruct (skipn_cons_nth qs off) as (q & Hq & Hskip); [lia |].
    rewrite Hskip. cbn [map mapi_from combine fst snd].
    rewrite (array_at_map_Fin qs off q Hq). cbn [ToNumber jsub Math_pow].
    replace (Z.of_nat off + 1)%Z with (Z.of_nat (S off)) by lia.
    rewrite IH by lia. reflexivity.
Qed.

Lemma Rsum_squares_nonneg {A : Type} (f : A -> R) (l : list A) :
  0 <= Rsum (map (fun p => f p ^ 2) l).
Proof.
  induction l as [| a l IH]; [simpl; lra |].
  cbn [map Rsum fold_right]. fold (Rsum (map (fun p => f p ^ 2) l)).
  pose proof (pow2_ge_0 (f a)). lra.
Qed.

Lemma mean_squared_residual_nonneg (ys : list R) :
  (2 <= length ys)%nat -> 0 <= mean_squared_residual ys.
Proof.
  intros Hn. unfold mean_squared_residual, squared_residuals.
  assert (H2 : 2 <= INR (length ys)) by (apply (le_INR 2); exact Hn).
  apply Rmult_le_pos.
  - apply (Rsum_squares_nonneg
             (fun p => snd p - (ols_slope ys * fst p + ols_intercept ys))).
  - apply Rlt_le, Rinv_0_lt_compat. lra.
Qed.

(** The line of [ols_slope] and [ols_intercept] is the least-squares line:
    no other line has a smaller sum of squared residuals. *)
Lemma squared_residuals_expand (c : list (R * R)) (a b : R) :
  squared_residuals c a b
  = Rsum (map (fun p => snd p * snd p) c)
    - 2 * a * Rsum (map (fun p => fst p * snd p) c)
    - 2 * b * Rsum (map snd c)
    + a * a * Rsum (map (fun p => fst p * fst p) c)
    + 2 * a * b * Rsum (map fst c)
    + b * b * INR (length c).
Proof.
  unfold squared_residuals. induction c as [| [x y] c IH].
  - simpl. lra.
  - cbn [map Rsum fold_right fst snd length].
    change (fold_right Rplus 0) with Rsum in *.
    rewrite S_INR.
    unfold Rsum in IH |- *. rewrite IH. simpl. ring.
Qed.

Lemma map_fst_combine (xs ys : list R) :
  length xs = length ys -> map fst (combine xs ys) = xs.
Proof.
  revert ys. induction xs as [| x xs IH]; intros [| y ys] H; simpl in *;
    try reflexivity; try discriminate.
  f_equal. apply IH. lia.
Qed.

Lemma map_snd_combine (xs ys : list R) :
  length xs = length ys -> map snd (combine xs ys) = ys.
Proof.
  revert ys. induction xs as [| x xs IH]; intros [| y ys] H; simpl in *;
    try reflexivity; try discriminate.
  f_equal. apply IH. lia.
Qed.

Lemma quadratic_form_nonneg (xs : list R) (u v : R) :
  0 <= u * u * Rsum (map (fun x => x * x) xs) + 2 * u * v * Rsum xs
       + v * v * INR (length xs).
Proof.
  induction xs as [| x xs IH].
  - simpl. lra.
  - cbn [map Rsum fold_right length]. change (fold_right Rplus 0) with Rsum.
    rewrite S_INR.
    pose proof (pow2_ge_0 (u * x + v)) as Hsq.
    replace ((u * x + v) ^ 2) with (u * u * (x * x) + 2 * u * v * x + v * v)
      in Hsq by ring.
    lra.
Qed.

(** The normal equations make the cross terms vanish. *)
Lemma least_squares_algebra (n Sx Sy Sxx Sxy Syy s c a b : R) :
  0 < n ->
  0 <= (a - s) * (a - s) * Sxx + 2 * (a - s) * (b - c) * Sx
       + (b - c) * (b - c) * n ->
  s * (n * Sxx - Sx * Sx) = n * Sxy - Sx * Sy ->
  n * c = Sy - s * Sx ->
  Syy - 2 * s * Sxy - 2 * c * Sy + s * s * Sxx + 2 * s * c * Sx + c * c * n
  <= Syy - 2 * a * Sxy - 2 * b * Sy + a * a * Sxx + 2 * a * b * Sx + b * b * n.
Proof.
  intros Hn Hsq Hs Hc.
  assert (E2 : s * Sx + n * c - Sy = 0) by lra.
  assert (E1 : s * Sxx + c * Sx - Sxy = 0).
  { apply (Rmult_eq_reg_l n); [| lra].
    replace (n * (s * Sxx + c * Sx - Sxy))
      with (s * (n * Sxx - Sx * Sx) - (n * Sxy - Sx * Sy)
            + Sx * (s * Sx + n * c - Sy)) by ring.
    rewrite Hs, E2. ring. }
  replace (Syy - 2 * a * Sxy - 2 * b * Sy + a * a * Sxx + 2 * a * b * Sx
           + b * b * n)
    with (Syy - 2 * s * Sxy - 2 * c * Sy + s * s * Sxx + 2 * s * c * Sx
          + c * c * n
          + ((a - s) * (a - s) * Sxx + 2 * (a - s) * (b - c) * Sx
             + (b - c) * (b - c) * n)
          + 2 * (a - s) * (s * Sxx + c * Sx - Sxy)
          + 2 * (b - c) * (s * Sx + n * c - Sy)) by ring.
  rewrite E1, E2. lra.
Qed.

Lemma ols_line_minimises (ys : list R) (a b : R) :
  (2 <= length ys)%nat ->
  squared_residuals (combine (positions (length ys)) ys)
                    (ols_slope ys) (ols_intercept ys)
  <= squared_residuals (combine (positions (length ys)) ys) a b.
Proof.
  intros Hn.
  pose proof (positions_length (length ys)) as Hlen.
  pose proof (positions_spread (length ys) Hn) as HD.
  assert (H2 : 2 <= INR (length ys)) by (apply (le_INR 2); exact Hn).
  rewrite !squared_residuals_expand.
  rewrite length_combine, Hlen, Nat.min_id.
  replace (map (fun p : R * R => fst p * fst p)
               (combine (positions (length ys)) ys))
    with (map (fun x => x * x) (map fst (combine (positions (length ys)) ys)))
    by (rewrite map_map; reflexivity).
  rewrite map_fst_combine, map_snd_combine by exact Hlen.
  apply least_squares_algebra.
  - lra.
  - pose proof (quadratic_form_nonneg (positions (length ys))
                  (a - ols_slope ys) (b - ols_intercept ys)) as Hq.
    rewrite Hlen in Hq. lra.
  - unfold ols_slope. cbv zeta. field. lra.
  - unfold ols_intercept. cbv zeta. field. lra.
Qed.

Section Forecast.
Import Predictions.

Lemma calculateSlope_ols (ys : list R) :
  (2 <= length ys)%nat ->
  calculateSlope (map Fin (positions (length ys))) (map Fin ys)
  = Fin (ols_slope ys).
Proof.
  intros Hn. unfold calculateSlope, reducei.
  rewrite length_map, positions_length, Zrange_from_zero.
  rewrite <- (positions_length (length ys)) at 3.
  rewrite (indexed_products ys (positions (length ys)) 0 0)
    by (rewrite positions_length; lia).
  rewrite !fold_jadd_Fin, fold_squares_Fin, of_nat_INR.
  cbn [skipn jmul jsub jdiv].
  pose proof (positions_spread (length ys) Hn) as Hpos.
  rewrite Req_b_false by lra.
  apply Fin_eq. unfold ols_slope. cbv zeta.
  rewrite !Rplus_0_l. reflexivity.
Qed.

Lemma calculateIntercept_ols (ys : list R) (s : R) :
  (2 <= length ys)%nat ->
  calculateIntercept (map Fin (positions (length ys))) (map Fin ys) (Fin s)
  = Fin (Rsum ys / INR (length ys)
         - s * (Rsum (positions (length ys)) / INR (length ys))).
Proof.
  intros Hn. unfold calculateIntercept.
  rewrite !length_map, positions_length, !fold_jadd_Fin, of_nat_INR.
  assert (H2 : 2 <= INR (length ys)) by (apply (le_INR 2); exact Hn).
  cbn [jdiv]. rewrite (Req_b_false (INR (length ys)) 0) by lra.
  cbn [jmul jsub].
  apply Fin_eq. rewrite !Rplus_0_l. reflexivity.
Qed.

Lemma calculateMSE_residual (ys : list R) (s c : R) :
  (2 <= length ys)%nat ->
  calculateMSE (map Fin (positions (length ys))) (map Fin ys) (Fin s) (Fin c)
  = Fin (Rsum (map (fun p => (snd p - (s * fst p + c)) ^ 2)
                   (combine (positions (length ys)) ys))
         / INR (length ys)).
Proof.
  intros Hn. unfold calculateMSE, mapi.
  rewrite map_map. cbn [jmul jadd].
  rewrite <- (map_map (fun x => s * x + c) Fin).
  rewrite (indexed_residuals _ ys 0)
    by (rewrite length_map, positions_length; lia).
  rewrite fold_jadd_Fin, length_map, of_nat_INR. cbn [skipn].
  assert (H2 : 2 <= INR (length ys)) by (apply (le_INR 2); exact Hn).
  cbn [jdiv]. rewrite (Req_b_false (INR (length ys)) 0) by lra.
  apply Fin_eq. rewrite Rplus_0_l, combine_map_l, map_map. reflexivity.
Qed.



End Forecast.

(** The line of the sales example: slope 10, intercept 90, no residual, so
    that the forecast for month 5 is 140 and the band has no width. *)
Lemma sales_line :
  ols_slope [100; 110; 120; 130] = 10
  /\ ols_intercept [100; 110; 120; 130] = 90
  /\ mean_squared_residual [100; 110; 120; 130] = 0
  /\ ols_slope [100; 110; 120; 130] * (INR 4 + IZR 1)
     + ols_intercept [100; 110; 120; 130] = 140.
Proof.
  assert (Hs : ols_slope [100; 110; 120; 130] = 10).
  { unfold ols_slope, positions, Rsum. simpl. lra. }
  assert (Hc : ols_intercept [100; 110; 120; 130] = 90).
  { unfold ols_intercept. rewrite Hs. unfold positions, Rsum. simpl. lra. }
  split; [exact Hs |]. split; [exact Hc |]. split.
  - unfold mean_squared_residual, squared_residuals. rewrite Hs, Hc.
    unfold positions, Rsum. simpl. lra.
  - rewrite Hs, Hc. simpl. lra.
Qed.

(** * Further properties of the analysis code *)

(** ** Whole numbers as numbers of the model *)

Lemma whole_as_reals (zs : list Z) : map of_Z zs = map Fin (map IZR zs).
Proof. rewrite map_map. reflexivity. Qed.

Lemma whole_nonempty (zs : list Z) : zs <> [] -> map IZR zs <> [].
Proof. destruct zs; [congruence | discriminate]. Qed.

Lemma In_whole (zs : list Z) (z : Z) : In (IZR z) (map IZR zs) <-> In z zs.
Proof.
  split.
  - intros H. apply in_map_iff in H. destruct H as (y & E & Hy).
    apply eq_IZR in E. subst y. exact Hy.
  - apply in_map.
Qed.

Lemma whole_value (zs : list Z) (x : R) :
  In x (map IZR zs) -> exists z, x = IZR z /\ In z zs.
Proof.
  intros H. apply in_map_iff in H. destruct H as (z & <- & Hz).
  exists z. split; [reflexivity | exact Hz].
Qed.

Lemma constant_whole (zs : list Z) :
  (forall a b, In a (map IZR zs) -> In b (map IZR zs) -> a = b)
  <-> (forall a b, In a zs -> In b zs -> a = b).
Proof.
  split.
  - intros H a b Ha Hb. apply eq_IZR. apply H; apply in_map; assumption.
  - intros H a b Ha Hb.
    destruct (whole_value zs a Ha) as (za & -> & Hza).
    destruct (whole_value zs b Hb) as (zb & -> & Hzb).
    f_equal. apply H; assumption.
Qed.

Lemma varied_whole (zs : list Z) :
  varied (map IZR zs) <-> exists a b, In a zs /\ In b zs /\ a <> b.
Proof.
  split.
  - intros (a & b & Ha & Hb & Hab).
    destruct (whole_value zs a Ha) as (za & -> & Hza).
    destruct (whole_value zs b Hb) as (zb & -> & Hzb).
    exists za, zb. split; [exact Hza |]. split; [exact Hzb |].
    intros E. apply Hab. rewrite E. reflexivity.
  - intros (a & b & Ha & Hb & Hab). exists (IZR a), (IZR b).
    split; [apply in_map; exact Ha |]. split; [apply in_map; exact Hb |].
    intros E. apply Hab. apply eq_IZR. exact E.
Qed.

Lemma Rsum_whole (zs : list Z) : Rsum (map IZR zs) = IZR (Zsum zs).
Proof.
  induction zs as [| z zs IH]; [reflexivity |].
  cbn [map Rsum fold_right Zsum]. rewrite plus_IZR.
  change (fold_right Rplus 0 (map IZR zs)) with (Rsum (map IZR zs)).
  rewrite IH. reflexivity.
Qed.

(** ** Correlation: symmetry *)

Lemma jmul_comm (a b : number) : jmul a b = jmul b a.
Proof.
  destruct a, b; simpl; try reflexivity. apply Fin_eq. apply Rmult_comm.
Qed.

Lemma sum_Fin (l : list R) : DataAnalyzer.sum (map Fin l) = Fin (Rsum l).
Proof.
  unfold DataAnalyzer.sum. rewrite fold_jadd_Fin. apply Fin_eq. lra.
Qed.

Lemma skipn_cons_tail {A : Type} (l : list A) (k : nat) (a : A) (t : list A) :
  skipn k l = a :: t -> nth_error l k = Some a /\ t = skipn (S k) l.
Proof.
  revert k. induction l as [| b l IH]; intros k H.
  - destruct k; discriminate H.
  - destruct k as [| k].
    + simpl in H. inversion H; subst. split; reflexivity.
    + simpl in H. apply IH in H. exact H.
Qed.

Lemma array_at_nth (y : list number) (k : nat) (b : number) :
  nth_error y k = Some b -> array_at y (Z.of_nat k) = Num b.
Proof.
  intros H. unfold array_at.
  replace (Z.of_nat k <? 0)%Z with false by (symmetry; apply Z.ltb_ge; lia).
  rewrite Nat2Z.id, H. reflexivity.
Qed.

(** [x.map ((xi, i) => xi * y[i])] pairs the elements by position. *)
Lemma mapi_products (x y : list number) (off : nat) :
  (off + length x <= length y)%nat ->
  mapi_from (fun xi i => jmul xi (ToNumber (array_at y i))) (Z.of_nat off) x
  = map (fun p => jmul (fst p) (snd p)) (combine x (skipn off y)).
Proof.
  revert off. induction x as [| a x IH]; intros off Hlen; [reflexivity |].
  simpl in Hlen.
  destruct (skipn off y) as [| b t] eqn:Hs.
  - assert (length (skipn off y) = 0%nat) by (rewrite Hs; reflexivity).
    rewrite length_skipn in H. lia.
  - apply skipn_cons_tail in Hs. destruct Hs as [Hb ->].
    cbn [mapi_from combine map fst snd].
    rewrite (array_at_nth y off b Hb). cbn [ToNumber].
    replace (Z.of_nat off + 1)%Z with (Z.of_nat (S off)) by lia.
    rewrite IH by lia. reflexivity.
Qed.

Lemma combine_products_comm (x y : list number) :
  map (fun p => jmul (fst p) (snd p)) (combine x y)
  = map (fun p => jmul (fst p) (snd p)) (combine y x).
Proof.
  revert y. induction x as [| a x IH]; intros [| b y]; simpl; try reflexivity.
  rewrite IH, jmul_comm. reflexivity.
Qed.

Lemma combine_firstn_l {A B : Type} (n : nat) (x : list A) (y : list B) :
  combine (firstn n x) y = combine (firstn n x) (firstn n y).
Proof.
  revert x y. induction n as [| n IH]; intros [| a x] [| b y]; simpl;
    try reflexivity.
  rewrite IH. reflexivity.
Qed.

Section Pearson.
Import DataAnalyzer.

(** X1.  pearsonCorrelation is symmetric: exchanging the two columns leaves
    the coefficient as it is, whatever the columns hold (numbers of any kind,
    columns of different lengths). *)
Theorem pearson_symmetric (x y : list number) :
  pearsonCorrelation x y = pearsonCorrelation y x.
Proof.
  unfold pearsonCorrelation.
  rewrite (Nat.min_comm (length y) (length x)).
  set (n := Nat.min (length x) (length y)).
  destruct (n <? 2)%nat; [reflexivity |].
  rewrite !slice_prefix. unfold mapi.
  rewrite (mapi_products _ y 0), (mapi_products _ x 0)
    by (rewrite length_firstn; unfold n; simpl; lia).
  cbn [skipn].
  assert (Hxy : map (fun p => jmul (fst p) (snd p))
                    (combine (firstn (Nat.min n (length x)) x) y)
                = map (fun p => jmul (fst p) (snd p))
                    (combine (firstn (Nat.min n (length y)) y) x)).
  { replace (Nat.min n (length x)) with n by (unfold n; lia).
    replace (Nat.min n (length y)) with n by (unfold n; lia).
    rewrite (combine_firstn_l n x y), (combine_firstn_l n y x).
    apply combine_products_comm. }
  rewrite Hxy. unfold pearson_denominator.
  set (sx := sum (firstn (Nat.min n (length x)) x)).
  set (sy := sum (firstn (Nat.min n (length y)) y)).
  set (dx := jsub (jmul (of_nat n) (sum (map (fun xi => jmul xi xi) _)))
                  (jmul sx sx)).
  set (dy := jsub (jmul (of_nat n) (sum (map (fun yi => jmul yi yi) _)))
                  (jmul sy sy)).
  rewrite (jmul_comm sy sx), (jmul_comm dy dx). reflexivity.
Qed.

End Pearson.

(** ** Spread of a sample *)

Lemma Rsum_sq_shift (x : R) (l : list R) :
  Rsum (map (fun y => (y - x) * (y - x)) l)
  = Rsum (map (fun y => y * y) l) - 2 * x * Rsum l + INR (length l) * (x * x).
Proof.
  induction l as [| y l IH].
  - simpl. lra.
  - cbn [map Rsum fold_right length]. change (fold_right Rplus 0) with Rsum.
    rewrite IH, S_INR. ring.
Qed.

Lemma Rsum_sq_nonneg (x : R) (l : list R) :
  0 <= Rsum (map (fun y => (y - x) * (y - x)) l).
Proof.
  induction l as [| y l IH]; [simpl; lra |].
  cbn [map Rsum fold_right]. change (fold_right Rplus 0) with Rsum.
  pose proof (Rle_0_sqr (y - x)) as H. unfold Rsqr in H. lra.
Qed.

Lemma spread_cons (x : R) (l : list R) :
  spread (x :: l) = spread l + Rsum (map (fun y => (y - x) * (y - x)) l).
Proof.
  rewrite Rsum_sq_shift. unfold spread.
  cbn [map Rsum fold_right length]. change (fold_right Rplus 0) with Rsum.
  rewrite S_INR. ring.
Qed.

Lemma spread_nonneg (l : list R) : 0 <= spread l.
Proof.
  induction l as [| x l IH].
  - unfold spread. simpl. lra.
  - rewrite spread_cons. pose proof (Rsum_sq_nonneg x l). lra.
Qed.

Lemma Rsum_sq_zero (x : R) (l : list R) :
  Rsum (map (fun y => (y - x) * (y - x)) l) = 0 -> Forall (fun y => y = x) l.
Proof.
  induction l as [| y l IH]; intros H; [constructor |].
  cbn [map Rsum fold_right] in H. change (fold_right Rplus 0) with Rsum in H.
  pose proof (Rsum_sq_nonneg x l) as Hl.
  pose proof (Rle_0_sqr (y - x)) as Hy. unfold Rsqr in Hy.
  constructor.
  - assert (Hz : (y - x) * (y - x) = 0) by lra.
    apply Rmult_integral in Hz. lra.
  - apply IH. lra.
Qed.

(** The spread of a sample is zero exactly when all its values are equal. *)
Lemma spread_zero_constant (l : list R) :
  spread l = 0 <-> (forall a b, In a l -> In b l -> a = b).
Proof.
  induction l as [| x l IH].
  - split; [intros _ a b [] | intros _; unfold spread; simpl; lra].
  - rewrite spread_cons. split.
    + intros H. pose proof (spread_nonneg l). pose proof (Rsum_sq_nonneg x l).
      assert (Hs : Rsum (map (fun y => (y - x) * (y - x)) l) = 0) by lra.
      apply Rsum_sq_zero in Hs. rewrite Forall_forall in Hs.
      intros a b [-> | Ha] [-> | Hb]; try reflexivity.
      * symmetry. apply Hs, Hb.
      * apply Hs, Ha.
      * rewrite (Hs a Ha), (Hs b Hb). reflexivity.
    + intros Hall.
      assert (Hl : spread l = 0).
      { apply IH. intros a b Ha Hb. apply Hall; right; assumption. }
      assert (Hx : Rsum (map (fun y => (y - x) * (y - x)) l) = 0).
      { clear IH Hl. induction l as [| y l IHl]; [reflexivity |].
        cbn [map Rsum fold_right]. change (fold_right Rplus 0) with Rsum.
        rewrite IHl.
        - rewrite (Hall y x) by (simpl; auto). ring.
        - intros a b [-> | Ha] [-> | Hb]; apply Hall; simpl; auto. }
      lra.
Qed.

(** Cauchy-Schwarz for two lists paired by position. *)
Lemma Rsum_quadratic (c : list (R * R)) (t : R) :
  Rsum (map (fun p => (t * fst p + snd p) * (t * fst p + snd p)) c)
  = t * t * Rsum (map (fun p => fst p * fst p) c)
    + 2 * t * Rsum (map (fun p => fst p * snd p) c)
    + Rsum (map (fun p => snd p * snd p) c).
Proof.
  induction c as [| [u v] c IH]; [simpl; lra |].
  cbn [map Rsum fold_right fst snd]. change (fold_right Rplus 0) with Rsum.
  rewrite IH. ring.
Qed.

Lemma Rsum_squares_pos {A : Type} (f : A -> R) (c : list A) :
  0 <= Rsum (map (fun p => f p * f p) c).
Proof.
  induction c as [| p c IH]; [simpl; lra |].
  cbn [map Rsum fold_right]. change (fold_right Rplus 0) with Rsum.
  pose proof (Rle_0_sqr (f p)) as H. unfold Rsqr in H. lra.
Qed.

Lemma cauchy_schwarz (c : list (R * R)) :
  0 < Rsum (map (fun p => fst p * fst p) c) ->
  Rsum (map (fun p => fst p * snd p) c) * Rsum (map (fun p => fst p * snd p) c)
  <= Rsum (map (fun p => fst p * fst p) c)
     * Rsum (map (fun p => snd p * snd p) c).
Proof.
  intros Ha.
  set (A := Rsum (map (fun p => fst p * fst p) c)) in *.
  set (B := Rsum (map (fun p => fst p * snd p) c)).
  set (C := Rsum (map (fun p => snd p * snd p) c)).
  pose proof (Rsum_squares_pos (fun p => (- B / A) * fst p + snd p) c) as H.
  cbv beta in H. rewrite (Rsum_quadratic c (- B / A)) in H. fold A B C in H.
  assert (E : - B / A * (- B / A) * A + 2 * (- B / A) * B + C
              = (A * C - B * B) / A) by (field; lra).
  rewrite E in H.
  assert (0 <= A * C - B * B).
  { apply (Rmult_le_reg_r (/ A)); [apply Rinv_0_lt_compat; exact Ha |].
    rewrite Rmult_0_l. exact H. }
  lra.
Qed.

Lemma Rsum_centered (c : list (R * R)) (k a b : R) :
  Rsum (map (fun p => (k * fst p - a) * (k * snd p - b)) c)
  = k * k * Rsum (map (fun p => fst p * snd p) c)
    - k * b * Rsum (map fst c) - k * a * Rsum (map snd c)
    + INR (length c) * (a * b).
Proof.
  induction c as [| [u v] c IH]; [simpl; lra |].
  cbn [map Rsum fold_right fst snd length]. change (fold_right Rplus 0) with Rsum.
  rewrite IH, S_INR. ring.
Qed.

Lemma co_spread_bound (xs ys : list R) :
  length xs = length ys ->
  co_spread xs ys * co_spread xs ys <= spread xs * spread ys.
Proof.
  intros Hlen.
  destruct (Req_dec_T (spread xs) 0) as [Hz | Hnz].
  - (* constant xs: the covariance term vanishes *)
    rewrite Hz, Rmult_0_l.
    assert (Hc : co_spread xs ys = 0).
    { pose proof (proj1 (spread_zero_constant xs) Hz) as Hall.
      unfold co_spread. clear Hz. revert ys Hlen.
      destruct xs as [| x0 xs]; intros ys Hlen; [simpl; lra |].
      assert (Hx : forall a, In a (x0 :: xs) -> a = x0)
        by (intros a Ha; apply Hall; simpl; auto).
      assert (H1 : forall l, (forall a, In a l -> a = x0) ->
                 Rsum l = INR (length l) * x0).
      { induction l as [| a l IHl]; intros Hl; [simpl; lra |].
        cbn [Rsum fold_right length]. change (fold_right Rplus 0) with Rsum.
        rewrite IHl, S_INR by (intros; apply Hl; simpl; auto).
        rewrite (Hl a) by (simpl; auto). ring. }
      assert (H2 : forall l m, length l = length m ->
                 (forall a, In a l -> a = x0) ->
                 Rsum (map (fun p => fst p * snd p) (combine l m))
                 = x0 * Rsum m).
      { induction l as [| a l IHl]; intros [| b m] Hlm Hl; try discriminate;
          [simpl; lra |].
        cbn [combine map Rsum fold_right fst snd].
        change (fold_right Rplus 0) with Rsum.
        rewrite IHl by (try (simpl in Hlm; lia); intros; apply Hl; simpl; auto).
        rewrite (Hl a) by (simpl; auto). ring. }
      rewrite (H1 (x0 :: xs) Hx), (H2 (x0 :: xs) ys Hlen Hx). ring. }
    rewrite Hc. lra.
  - pose proof (spread_nonneg xs) as Hx0.
    assert (Hpos : 0 < spread xs) by lra.
    set (n := INR (length xs)).
    set (c := combine xs ys).
    set (c' := map (fun p => (n * fst p - Rsum xs, n * snd p - Rsum ys)) c).
    assert (Hfst : map fst c = xs) by (apply map_fst_combine; exact Hlen).
    assert (Hsnd : map snd c = ys) by (apply map_snd_combine; exact Hlen).
    assert (Hlc : INR (length c) = n).
    { unfold c, n. rewrite length_combine, <- Hlen, Nat.min_id. reflexivity. }
    assert (Huu : Rsum (map (fun p => fst p * fst p) c') = n * spread xs).
    { unfold c'. rewrite map_map. cbn [fst snd].
      pose proof (Rsum_centered (map (fun p => (fst p, fst p)) c) n
                    (Rsum xs) (Rsum xs)) as H.
      rewrite !map_map in H. cbn [fst snd] in H. rewrite H.
      change (map (fun x : R * R => fst x) c) with (map fst c).
      rewrite Hfst, length_map, Hlc. unfold spread. fold n.
      replace (map (fun x : R * R => fst x * fst x) c)
        with (map (fun x => x * x) (map fst c)) by (rewrite map_map; reflexivity).
      rewrite Hfst. ring. }
    assert (Hvv : Rsum (map (fun p => snd p * snd p) c') = n * spread ys).
    { unfold c'. rewrite map_map. cbn [fst snd].
      pose proof (Rsum_centered (map (fun p => (snd p, snd p)) c) n
                    (Rsum ys) (Rsum ys)) as H.
      rewrite !map_map in H. cbn [fst snd] in H. rewrite H.
      change (map (fun x : R * R => snd x) c) with (map snd c).
      rewrite Hsnd, length_map, Hlc. unfold spread. rewrite <- Hlen. fold n.
      replace (map (fun x : R * R => snd x * snd x) c)
        with (map (fun x => x * x) (map snd c)) by (rewrite map_map; reflexivity).
      rewrite Hsnd. ring. }
    assert (Huv : Rsum (map (fun p => fst p * snd p) c') = n * co_spread xs ys).
    { unfold c'. rewrite map_map. cbn [fst snd].
      rewrite (Rsum_centered c n (Rsum xs) (Rsum ys)).
      rewrite Hfst, Hsnd, Hlc. unfold co_spread. fold n. fold c. ring. }
    assert (Hn : 0 < n).
    { unfold n. destruct xs; [unfold spread in Hpos; simpl in Hpos; lra |].
      apply lt_0_INR. simpl. lia. }
    pose proof (cauchy_schwarz c') as Hcs.
    rewrite Huu, Hvv, Huv in Hcs.
    assert (Hcs' : n * co_spread xs ys * (n * co_spread xs ys)
                   <= n * spread xs * (n * spread ys)).
    { apply Hcs. apply Rmult_lt_0_compat; assumption. }
    assert (Hnn : 0 < n * n) by (apply Rmult_lt_0_compat; assumption).
    apply (Rmult_le_reg_l (n * n)); [exact Hnn |]. lra.
Qed.

(** ** Correlation of finite columns *)

Lemma combine_map_Fin (xs ys : list R) :
  map (fun p => jmul (fst p) (snd p)) (combine (map Fin xs) (map Fin ys))
  = map Fin (map (fun p => fst p * snd p) (combine xs ys)).
Proof.
  revert ys. induction xs as [| x xs IH]; intros [| y ys]; simpl; try reflexivity.
  rewrite IH. reflexivity.
Qed.

Lemma squares_map_Fin (xs : list R) :
  map (fun xi => jmul xi xi) (map Fin xs) = map Fin (map (fun x => x * x) xs).
Proof. rewrite !map_map. reflexivity. Qed.

Section Pearson.
Import DataAnalyzer.

(** On finite inputs of the same length the coefficient is the real number
    [pearson_r]. *)
Lemma pearson_real (xs ys : list R) :
  length xs = length ys ->
  pearsonCorrelation (map Fin xs) (map Fin ys)
  = Fin (if (length xs <? 2)%nat then 0 else pearson_r xs ys).
Proof.
  intros Hlen. unfold pearsonCorrelation.
  rewrite !length_map, <- Hlen, Nat.min_id.
  destruct (length xs <? 2)%nat; [reflexivity |].
  rewrite !slice_prefix, !length_map, <- Hlen, Nat.min_id.
  assert (Hx : firstn (length xs) (map Fin xs) = map Fin xs).
  { rewrite <- (length_map Fin xs) at 1. apply firstn_all. }
  assert (Hy : firstn (length xs) (map Fin ys) = map Fin ys).
  { rewrite Hlen, <- (length_map Fin ys) at 1. apply firstn_all. }
  rewrite Hx, Hy. unfold mapi.
  rewrite (mapi_products _ _ 0) by (rewrite !length_map; simpl; lia).
  cbn [skipn]. rewrite combine_map_Fin, !squares_map_Fin, !sum_Fin, of_nat_INR.
  unfold pearson_denominator. rewrite of_nat_INR. cbn [jmul jsub].
  assert (Ey : INR (length xs) * Rsum (map (fun x => x * x) ys)
               - Rsum ys * Rsum ys = spread ys)
    by (unfold spread; rewrite Hlen; reflexivity).
  rewrite Ey.
  change (INR (length xs) * Rsum (map (fun x => x * x) xs) - Rsum xs * Rsum xs)
    with (spread xs).
  change (INR (length xs) * Rsum (map (fun p => fst p * snd p) (combine xs ys))
          - Rsum xs * Rsum ys) with (co_spread xs ys).
  pose proof (spread_nonneg xs) as Hx0. pose proof (spread_nonneg ys) as Hy0.
  assert (Hp : 0 <= spread xs * spread ys) by (apply Rmult_le_pos; assumption).
  unfold Math_sqrt. rewrite Rlt_b_false by lra. cbn [strict_eq].
  unfold pearson_r.
  destruct (Req_dec_T (spread xs * spread ys) 0) as [Hz | Hnz].
  - rewrite Hz, sqrt_0, !Req_b_true by reflexivity. reflexivity.
  - assert (Hs : sqrt (spread xs * spread ys) <> 0).
    { intros E. apply sqrt_eq_0 in E; [contradiction | exact Hp]. }
    rewrite (Req_b_false (sqrt _) 0) by exact Hs.
    rewrite (Req_b_false (spread xs * spread ys) 0) by exact Hnz.
    cbn [jdiv]. rewrite Req_b_false by exact Hs. reflexivity.
Qed.

Lemma pearson_r_bounds (xs ys : list R) :
  length xs = length ys -> -1 <= pearson_r xs ys <= 1.
Proof.
  intros Hlen. unfold pearson_r.
  destruct (Req_dec_T (spread xs * spread ys) 0) as [Hz | Hnz].
  - rewrite Req_b_true by exact Hz. lra.
  - rewrite Req_b_false by exact Hnz.
    pose proof (spread_nonneg xs) as Hx. pose proof (spread_nonneg ys) as Hy.
    assert (Hp : 0 < spread xs * spread ys).
    { assert (0 <= spread xs * spread ys) by (apply Rmult_le_pos; assumption).
      lra. }
    pose proof (sqrt_lt_R0 _ Hp) as Hs.
    pose proof (sqrt_sqrt _ (Rlt_le _ _ Hp)) as Hss.
    pose proof (co_spread_bound xs ys Hlen) as Hcs.
    set (s := sqrt (spread xs * spread ys)) in *.
    set (c := co_spread xs ys) in *.
    assert (Hc : - s <= c <= s) by nra.
    split.
    + apply (Rmult_le_reg_r s); [exact Hs |].
      unfold Rdiv. rewrite Rmult_assoc, Rinv_l by lra. lra.
    + apply (Rmult_le_reg_r s); [exact Hs |].
      unfold Rdiv. rewrite Rmult_assoc, Rinv_l by lra. lra.
Qed.

Lemma firstn_map_Fin (n : nat) (xs : list R) :
  firstn n (map Fin xs) = map Fin (firstn n xs).
Proof. apply firstn_map. Qed.

(** The coefficient of two finite columns, which the code computes on
    their first [n] values, [n] the smaller of the two lengths. *)
Lemma pearson_as_real (xs ys : list R) :
  let n := Nat.min (length xs) (length ys) in
  pearsonCorrelation (map Fin xs) (map Fin ys)
  = Fin (if (n <? 2)%nat then 0 else pearson_r (firstn n xs) (firstn n ys))
  /\ length (firstn n xs) = length (firstn n ys).
Proof.
  intros n.
  assert (Hlen : length (firstn n xs) = length (firstn n ys)).
  { rewrite !length_firstn. unfold n. lia. }
  split; [| exact Hlen].
  rewrite pearson_pairs_up_to_min. cbv zeta.
  rewrite !length_map, !firstn_map_Fin. fold n.
  rewrite (pearson_real _ _ Hlen). apply Fin_eq.
  replace (length (firstn n xs)) with n
    by (rewrite length_firstn; unfold n; lia).
  reflexivity.
Qed.

(** X2.  On two columns of whole numbers, at most a thousand each and none
    above a thousand in absolute value, of any lengths, pearsonCorrelation
    returns a finite number between -1 and 1. *)
Theorem pearson_between_bounds (xs ys : list Z) :
  whole_sample (10 ^ 3) (10 ^ 3) xs -> whole_sample (10 ^ 3) (10 ^ 3) ys ->
  exists r,
    pearsonCorrelation (map of_Z xs) (map of_Z ys) = Fin r /\ -1 <= r <= 1.
Proof.
  intros _ _. rewrite !whole_as_reals.
  destruct (pearson_as_real (map IZR xs) (map IZR ys)) as [E Hlen].
  cbv zeta in E, Hlen.
  eexists. split; [exact E |].
  destruct (Nat.min (length (map IZR xs)) (length (map IZR ys)) <? 2)%nat;
    [lra |].
  apply pearson_r_bounds. exact Hlen.
Qed.

Lemma pearson_between_bounds_sample :
  exists r,
    pearsonCorrelation (map of_Z [1; 2; 4; 3]%Z) (map of_Z [5; 3; 9]%Z) = Fin r
    /\ -1 <= r <= 1.
Proof.
  apply (pearson_between_bounds [1; 2; 4; 3]%Z [5; 3; 9]%Z);
    (split; [simpl; lia | repeat constructor; simpl; lia]).
Defined.

(** X3.  A column of such whole numbers that holds two different values
    correlates with itself with coefficient exactly 1. *)
Theorem pearson_with_itself (xs : list Z) (a b : Z) :
  whole_sample (10 ^ 3) (10 ^ 3) xs ->
  In a xs -> In b xs -> a <> b ->
  pearsonCorrelation (map of_Z xs) (map of_Z xs) = Fin 1.
Proof.
  intros _ Ha Hb Hab. rewrite whole_as_reals.
  set (rs := map IZR xs).
  assert (Ha' : In (IZR a) rs) by (apply in_map; exact Ha).
  assert (Hb' : In (IZR b) rs) by (apply in_map; exact Hb).
  assert (Hab' : IZR a <> IZR b) by (intros E; apply Hab, eq_IZR, E).
  rewrite (pearson_real rs rs eq_refl).
  assert (Hn : (2 <= length rs)%nat).
  { unfold rs. rewrite length_map. clear Ha' Hb' Hab' rs.
    destruct xs as [| x [| y t]]; [destruct Ha | | simpl; lia].
    destruct Ha as [-> | []], Hb as [-> | []]. contradiction. }
  replace (length rs <? 2)%nat with false
    by (symmetry; apply Nat.ltb_ge; exact Hn).
  apply Fin_eq. unfold pearson_r.
  assert (Hnz : spread rs <> 0).
  { intros Hz. apply Hab'.
    apply (proj1 (spread_zero_constant rs) Hz); assumption. }
  pose proof (spread_nonneg rs) as H0.
  assert (Hpos : 0 < spread rs) by lra.
  rewrite Req_b_false by (apply Rmult_integral_contrapositive; split; exact Hnz).
  rewrite sqrt_square by lra.
  assert (Hco : co_spread rs rs = spread rs).
  { unfold co_spread, spread. f_equal. f_equal. f_equal.
    clear. induction rs as [| x rs IH]; simpl; [reflexivity |].
    rewrite IH. reflexivity. }
  rewrite Hco. field. exact Hnz.
Qed.

Lemma pearson_with_itself_sample :
  pearsonCorrelation (map of_Z [1; 2; 4]%Z) (map of_Z [1; 2; 4]%Z) = Fin 1.
Proof.
  apply (pearson_with_itself [1; 2; 4]%Z 1 2);
    [split; [simpl; lia | repeat constructor; simpl; lia]
    | simpl; auto | simpl; auto | lia].
Defined.

(** X4.  A column that holds one such whole number throughout has
    correlation 0 with every column of such whole numbers of the same
    length: the zero denominator is caught. *)
Theorem pearson_of_constant_column (xs ys : list Z) :
  whole_sample (10 ^ 3) (10 ^ 3) xs -> whole_sample (10 ^ 3) (10 ^ 3) ys ->
  (forall a b, In a xs -> In b xs -> a = b) ->
  length xs = length ys ->
  pearsonCorrelation (map of_Z xs) (map of_Z ys) = Fin 0.
Proof.
  intros _ _ Hconst Hlen. rewrite !whole_as_reals.
  pose proof (proj2 (constant_whole xs) Hconst) as Hreal.
  rewrite (pearson_real (map IZR xs) (map IZR ys))
    by (rewrite !length_map; exact Hlen).
  destruct (length (map IZR xs) <? 2)%nat; [reflexivity |].
  apply Fin_eq. unfold pearson_r.
  rewrite (proj2 (spread_zero_constant (map IZR xs)) Hreal), Rmult_0_l.
  rewrite Req_b_true by reflexivity. reflexivity.
Qed.

Lemma pearson_of_constant_column_sample :
  pearsonCorrelation (map of_Z [3; 3; 3]%Z) (map of_Z [1; 2; 4]%Z) = Fin 0.
Proof.
  apply (pearson_of_constant_column [3; 3; 3]%Z [1; 2; 4]%Z);
    [split; [simpl; lia | repeat constructor; simpl; lia]
    | split; [simpl; lia | repeat constructor; simpl; lia]
    | | reflexivity].
  intros a b Ha Hb. simpl in Ha, Hb.
  destruct Ha as [<- | [<- | [<- | []]]];
    destruct Hb as [<- | [<- | [<- | []]]]; reflexivity.
Defined.

End Pearson.

(** ** Variance and standard deviation *)

Lemma finite_as_reals (l : list number) :
  Forall finite l -> exists rs, l = map Fin rs.
Proof.
  induction 1 as [| a l Ha Hl [rs ->]].
  - exists []. reflexivity.
  - destruct a; try discriminate Ha. exists (r :: rs). reflexivity.
Qed.

Lemma map_Fin_finite (rs : list R) : Forall finite (map Fin rs).
Proof. induction rs; constructor; [reflexivity | assumption]. Qed.

Section Dispersion.
Import DataAnalyzer.

Lemma mean_Fin (xs : list R) :
  xs <> [] -> mean (map Fin xs) = Fin (Rsum xs / INR (length xs)).
Proof.
  intros Hne. unfold mean. rewrite sum_Fin, length_map, of_nat_INR.
  assert (0 < INR (length xs)).
  { apply lt_0_INR. destruct xs; [congruence | simpl; lia]. }
  cbn [jdiv]. rewrite Req_b_false by lra. reflexivity.
Qed.

Lemma squared_deviations_Fin (xs : list R) (m : R) :
  sum (map (fun x => Math_pow (jsub x (Fin m)) 2) (map Fin xs))
  = Fin (Rsum (map (fun x => (x - m) * (x - m)) xs)).
Proof.
  rewrite map_map. cbn [jsub Math_pow].
  rewrite <- sum_Fin, map_map. f_equal. apply map_ext. intros x.
  apply Fin_eq. simpl. ring.
Qed.

(** The sample variance of two or more finite values. *)
Lemma variance_Fin (xs : list R) :
  (2 <= length xs)%nat ->
  variance (map Fin xs)
  = Fin (spread xs / (INR (length xs) * (INR (length xs) - 1))).
Proof.
  intros Hn. unfold variance.
  assert (Hne : xs <> []) by (destruct xs; [simpl in Hn; lia | congruence]).
  rewrite (mean_Fin xs Hne), squared_deviations_Fin, length_map, of_nat_INR.
  assert (H2 : 2 <= INR (length xs)) by (apply (le_INR 2); exact Hn).
  cbn [jsub jdiv]. rewrite Req_b_false by lra.
  apply Fin_eq. rewrite Rsum_sq_shift. unfold spread. field. lra.
Qed.

(** The ratio that [variance] returns is not negative, and it vanishes
    exactly for a constant sample. *)
Lemma variance_ratio (xs : list R) :
  (2 <= length xs)%nat ->
  let v := spread xs / (INR (length xs) * (INR (length xs) - 1)) in
  0 <= v
  /\ (v = 0 <-> forall a b, In a xs -> In b xs -> a = b)
  /\ (sqrt v = 0 <-> forall a b, In a xs -> In b xs -> a = b).
Proof.
  intros Hn v.
  assert (H2 : 2 <= INR (length xs)) by (apply (le_INR 2); exact Hn).
  assert (Hd : 0 < INR (length xs) * (INR (length xs) - 1)) by nra.
  pose proof (spread_nonneg xs) as Hs.
  assert (Hv : 0 <= v).
  { unfold v. apply Rmult_le_pos; [exact Hs |].
    apply Rlt_le, Rinv_0_lt_compat. exact Hd. }
  assert (Hz : v = 0 <-> spread xs = 0).
  { unfold v. split; intros H.
    - apply (Rmult_eq_reg_r (/ (INR (length xs) * (INR (length xs) - 1)))).
      + rewrite Rmult_0_l. exact H.
      + apply Rinv_neq_0_compat. lra.
    - rewrite H. unfold Rdiv. apply Rmult_0_l. }
  split; [exact Hv |]. split.
  - rewrite Hz. apply spread_zero_constant.
  - rewrite <- spread_zero_constant, <- Hz. split; intros H.
    + apply sqrt_eq_0; assumption.
    + rewrite H. apply sqrt_0.
Qed.

Lemma standardDeviation_Fin (xs : list R) :
  (2 <= length xs)%nat ->
  standardDeviation (map Fin xs)
  = Fin (sqrt (spread xs / (INR (length xs) * (INR (length xs) - 1)))).
Proof.
  intros Hn. unfold standardDeviation. rewrite variance_Fin by exact Hn.
  destruct (variance_ratio xs Hn) as [Hv _].
  unfold Math_sqrt. rewrite Rlt_b_false by lra. reflexivity.
Qed.

(** X5.  On two or more whole numbers, at most a million of them and none
    above [10 ^ 9] in absolute value, the variance is a finite number [v >=
    0], the standard deviation is its square root, and either is zero exactly
    when all the values are equal. *)
Theorem dispersion_of_whole_numbers (zs : list Z) :
  whole_sample (10 ^ 6) (10 ^ 9) zs -> (2 <= length zs)%nat ->
  exists v,
    variance (map of_Z zs) = Fin v
    /\ standardDeviation (map of_Z zs) = Fin (sqrt v)
    /\ 0 <= v
    /\ (v = 0 <-> forall a b, In a zs -> In b zs -> a = b)
    /\ (sqrt v = 0 <-> forall a b, In a zs -> In b zs -> a = b).
Proof.
  intros _ Hn. rewrite whole_as_reals. set (xs := map IZR zs).
  assert (Hn' : (2 <= length xs)%nat) by (unfold xs; rewrite length_map; exact Hn).
  exists (spread xs / (INR (length xs) * (INR (length xs) - 1))).
  split; [apply variance_Fin; exact Hn' |].
  split; [apply standardDeviation_Fin; exact Hn' |].
  destruct (variance_ratio xs Hn') as (Hv & Hz & Hs).
  split; [exact Hv |].
  split; [rewrite Hz | rewrite Hs]; apply constant_whole.
Qed.

Lemma dispersion_sample :
  exists v,
    variance (map of_Z [2; 4; 9]%Z) = Fin v
    /\ standardDeviation (map of_Z [2; 4; 9]%Z) = Fin (sqrt v)
    /\ 0 <= v
    /\ (v = 0 <-> forall a b, In a [2; 4; 9]%Z -> In b [2; 4; 9]%Z -> a = b)
    /\ (sqrt v = 0
        <-> forall a b, In a [2; 4; 9]%Z -> In b [2; 4; 9]%Z -> a = b).
Proof.
  apply (dispersion_of_whole_numbers [2; 4; 9]%Z);
    [split; [simpl; lia | repeat constructor; simpl; lia] | simpl; lia].
Defined.

End Dispersion.

(** ** Summary statistics *)

Lemma fold_min2_Fin (xs : list R) (a : R) :
  exists m,
    fold_left min2 (map Fin xs) (Fin a) = Fin m
    /\ m <= a /\ (forall x, In x xs -> m <= x) /\ (m = a \/ In m xs).
Proof.
  revert a. induction xs as [| x xs IH]; intros a.
  - exists a. simpl. repeat split; try lra; auto. intros x [].
  - cbn [map fold_left min2 jlt]. unfold Rlt_b.
    destruct (Rlt_dec x a) as [Hlt | Hge].
    + destruct (IH x) as (m & E & Hm & Hall & Hin). exists m.
      split; [exact E |]. split; [lra |]. split.
      * intros y [<- | Hy]; [exact Hm | apply Hall, Hy].
      * right. destruct Hin as [-> | Hin]; [left; reflexivity | right; exact Hin].
    + destruct (IH a) as (m & E & Hm & Hall & Hin). exists m.
      split; [exact E |]. split; [exact Hm |]. split.
      * intros y [<- | Hy]; [lra | apply Hall, Hy].
      * destruct Hin as [-> | Hin]; [left; reflexivity | right; right; exact Hin].
Qed.

Lemma fold_max2_Fin (xs : list R) (a : R) :
  exists m,
    fold_left max2 (map Fin xs) (Fin a) = Fin m
    /\ a <= m /\ (forall x, In x xs -> x <= m) /\ (m = a \/ In m xs).
Proof.
  revert a. induction xs as [| x xs IH]; intros a.
  - exists a. simpl. repeat split; try lra; auto. intros x [].
  - cbn [map fold_left max2 jlt]. unfold Rlt_b.
    destruct (Rlt_dec a x) as [Hlt | Hge].
    + destruct (IH x) as (m & E & Hm & Hall & Hin). exists m.
      split; [exact E |]. split; [lra |]. split.
      * intros y [<- | Hy]; [exact Hm | apply Hall, Hy].
      * right. destruct Hin as [-> | Hin]; [left; reflexivity | right; exact Hin].
    + destruct (IH a) as (m & E & Hm & Hall & Hin). exists m.
      split; [exact E |]. split; [exact Hm |]. split.
      * intros y [<- | Hy]; [lra | apply Hall, Hy].
      * destruct Hin as [-> | Hin]; [left; reflexivity | right; right; exact Hin].
Qed.

Lemma Rsum_between (xs : list R) (lo hi : R) :
  (forall x, In x xs -> lo <= x <= hi) ->
  INR (length xs) * lo <= Rsum xs <= INR (length xs) * hi.
Proof.
  induction xs as [| x xs IH]; intros H.
  - simpl. lra.
  - cbn [Rsum fold_right length]. change (fold_right Rplus 0) with Rsum.
    rewrite S_INR. pose proof (H x (or_introl eq_refl)).
    assert (forall y, In y xs -> lo <= y <= hi) by (intros; apply H; simpl; auto).
    specialize (IH H1). lra.
Qed.

Lemma sorted_element (xs : list R) (k : nat) (a : number) :
  nth_error (sort_numbers (map Fin xs)) k = Some a ->
  exists r, a = Fin r /\ In r xs.
Proof.
  intros H. apply nth_error_In in H.
  apply (Permutation_in _ (sort_numbers_perm (map Fin xs))) in H.
  apply in_map_iff in H. destruct H as (r & <- & Hr). eauto.
Qed.

Section Summary.
Import DataAnalyzer.

(** The extremes, the mean and the median in exact arithmetic. *)
Lemma summary_of_reals (xs : list R) :
  xs <> [] ->
  let s := column_statistics (map Fin xs) in
  exists lo hi m md,
    min s = Fin lo /\ max s = Fin hi /\ range s = Fin (hi - lo)
    /\ stat_mean s = Fin m /\ stat_median s = Num (Fin md)
    /\ In lo xs /\ In hi xs
    /\ (forall x, In x xs -> lo <= x <= hi)
    /\ lo <= m <= hi /\ lo <= md <= hi.
Proof.
  intros Hne s. destruct xs as [| x0 xs]; [congruence |].
  destruct (fold_min2_Fin xs x0) as (lo & Elo & Hlo0 & Hlo & Hloin).
  destruct (fold_max2_Fin xs x0) as (hi & Ehi & Hhi0 & Hhi & Hhiin).
  assert (Hmin : Math_min (map Fin (x0 :: xs)) = Fin lo) by exact Elo.
  assert (Hmax : Math_max (map Fin (x0 :: xs)) = Fin hi) by exact Ehi.
  assert (Hall : forall x, In x (x0 :: xs) -> lo <= x <= hi).
  { intros x [<- | Hx]; [lra |]. split; [apply Hlo | apply Hhi]; exact Hx. }
  assert (Hn : 0 < INR (length (x0 :: xs))) by (apply lt_0_INR; simpl; lia).
  pose proof (Rsum_between _ _ _ Hall) as Hsum.
  set (n := INR (length (x0 :: xs))) in *.
  assert (Hm : lo <= Rsum (x0 :: xs) / n <= hi).
  { split.
    - apply (Rmult_le_reg_r n); [exact Hn |].
      unfold Rdiv. rewrite Rmult_assoc, Rinv_l by lra. lra.
    - apply (Rmult_le_reg_r n); [exact Hn |].
      unfold Rdiv. rewrite Rmult_assoc, Rinv_l by lra. lra. }
  assert (Hmed : exists md, median (map Fin (x0 :: xs)) = Num (Fin md)
                            /\ lo <= md <= hi).
  { pose proof (sort_numbers_length (map Fin (x0 :: xs))) as Hlen.
    rewrite length_map in Hlen.
    destruct (Nat.Even_or_Odd (length (x0 :: xs))) as [[k Hk] | [k Hk]].
    - destruct k as [| k]; [simpl in Hk; lia |].
      destruct (nth_error (sort_numbers (map Fin (x0 :: xs))) k) as [a |] eqn:Ea;
        [| apply nth_error_None in Ea; lia].
      destruct (nth_error (sort_numbers (map Fin (x0 :: xs))) (S k)) as [b |] eqn:Eb;
        [| apply nth_error_None in Eb; lia].
      destruct (sorted_element _ _ _ Ea) as (ra & -> & Hra).
      destruct (sorted_element _ _ _ Eb) as (rb & -> & Hrb).
      exists ((ra + rb) / 2). split.
      + apply (median_even _ k); [rewrite length_map; lia | exact Ea | exact Eb].
      + pose proof (Hall ra Hra). pose proof (Hall rb Hrb). lra.
    - destruct (nth_error (sort_numbers (map Fin (x0 :: xs))) k) as [a |] eqn:Ea;
        [| apply nth_error_None in Ea; lia].
      destruct (sorted_element _ _ _ Ea) as (ra & -> & Hra).
      exists ra. split.
      + rewrite (median_odd _ k) by (rewrite length_map; lia).
        apply array_at_nth. exact Ea.
      + apply Hall, Hra. }
  destruct Hmed as (md & Emd & Hmd).
  exists lo, hi, (Rsum (x0 :: xs) / n), md. unfold s, column_statistics.
  cbn [min max range stat_mean stat_median].
  rewrite Hmin, Hmax, Emd, mean_Fin by discriminate. fold n.
  cbn [jsub].
  split; [reflexivity |]. split; [reflexivity |]. split; [reflexivity |].
  split; [reflexivity |]. split; [reflexivity |].
  split; [destruct Hloin as [-> | H]; simpl; auto |].
  split; [destruct Hhiin as [-> | H]; simpl; auto |].
  split; [exact Hall |]. split; assumption.
Qed.

(** X6.  In the statistics of a non-empty column of whole numbers, at most a
    million of them and none above [10 ^ 9] in absolute value, [min] and
    [max] are values of the column that bound all its values, [range] is their
    difference, and the mean and the median lie between them. *)
Theorem summary_of_whole_numbers (zs : list Z) :
  whole_sample (10 ^ 6) (10 ^ 9) zs -> zs <> [] ->
  let s := column_statistics (map of_Z zs) in
  exists (lo hi : Z) (m md : R),
    min s = of_Z lo /\ max s = of_Z hi /\ range s = of_Z (hi - lo)
    /\ stat_mean s = Fin m /\ stat_median s = Num (Fin md)
    /\ In lo zs /\ In hi zs
    /\ (forall z, In z zs -> (lo <= z <= hi)%Z)
    /\ IZR lo <= m <= IZR hi /\ IZR lo <= md <= IZR hi.
Proof.
  intros _ Hne s. unfold s. rewrite whole_as_reals.
  destruct (summary_of_reals (map IZR zs) (whole_nonempty zs Hne))
    as (lo & hi & m & md & Hmin & Hmax & Hrange & Hmean & Hmed
        & Hlo & Hhi & Hall & Hm & Hmd).
  destruct (whole_value zs lo Hlo) as (zlo & -> & Hzlo).
  destruct (whole_value zs hi Hhi) as (zhi & -> & Hzhi).
  exists zlo, zhi, m, md.
  split; [exact Hmin |]. split; [exact Hmax |].
  split; [rewrite Hrange; unfold of_Z; rewrite minus_IZR; reflexivity |].
  split; [exact Hmean |]. split; [exact Hmed |].
  split; [exact Hzlo |]. split; [exact Hzhi |].
  split; [| split; assumption].
  intros z Hz. destruct (Hall (IZR z) (in_map IZR zs z Hz)) as [H1 H2].
  split; apply le_IZR; assumption.
Qed.

Lemma summary_sample :
  let s := column_statistics (map of_Z [3; 1; 2]%Z) in
  exists (lo hi : Z) (m md : R),
    min s = of_Z lo /\ max s = of_Z hi /\ range s = of_Z (hi - lo)
    /\ stat_mean s = Fin m /\ stat_median s = Num (Fin md)
    /\ In lo [3; 1; 2]%Z /\ In hi [3; 1; 2]%Z
    /\ (forall z, In z [3; 1; 2]%Z -> (lo <= z <= hi)%Z)
    /\ IZR lo <= m <= IZR hi /\ IZR lo <= md <= IZR hi.
Proof.
  apply (summary_of_whole_numbers [3; 1; 2]%Z);
    [split; [simpl; lia | repeat constructor; simpl; lia] | discriminate].
Defined.

End Summary.

(** ** Percentiles as interpolated order statistics *)

Lemma Int_part_range (t : R) (n : Z) :
  0 <= t <= IZR n -> (0 <= Int_part t <= n)%Z.
Proof.
  intros [H0 Hn]. destruct (base_Int_part t) as [Hlo Hhi]. split.
  - assert (IZR (-1) < IZR (Int_part t)) by (simpl; lra).
    apply lt_IZR in H. lia.
  - apply le_IZR. lra.
Qed.

Lemma nth_error_map_Fin (rs : list R) (k : nat) :
  (k < length rs)%nat -> nth_error (map Fin rs) k = Some (Fin (nth k rs 0)).
Proof.
  intros Hk. rewrite nth_error_map, (nth_error_nth' rs 0 Hk). reflexivity.
Qed.

Lemma array_at_order_statistic (rs : list R) (k : Z) :
  (0 <= k < Z.of_nat (length rs))%Z ->
  array_at (map Fin rs) k = Num (Fin (order_statistic rs k)).
Proof.
  intros Hk. unfold array_at, order_statistic.
  replace (k <? 0)%Z with false by (symmetry; apply Z.ltb_ge; lia).
  rewrite nth_error_map_Fin by lia. reflexivity.
Qed.

Section Percentiles.
Import DataAnalyzer.

(** The percentile routine interpolates between two neighbouring order
    statistics. *)
Lemma percentile_interpolates (rs : list R) (p : R) :
  rs <> [] -> 0 <= p <= 100 ->
  percentile (map Fin rs) (Fin p)
  = Num (Fin (interpolate rs (p / 100 * (INR (length rs) - 1)))).
Proof.
  intros Hne Hp. unfold percentile. rewrite length_map, of_nat_INR.
  cbn [jdiv jsub jmul]. rewrite (Req_b_false 100 0) by lra. cbn [jmul].
  set (t := p / 100 * (INR (length rs) - 1)).
  assert (Hn : (1 <= length rs)%nat) by (destruct rs; [congruence | simpl; lia]).
  assert (Hn1 : 1 <= INR (length rs)) by (apply (le_INR 1); exact Hn).
  assert (Ht : 0 <= t <= IZR (Z.of_nat (length rs) - 1)).
  { rewrite minus_IZR, <- INR_IZR_INZ. unfold t. split; [| nra].
    apply Rmult_le_pos; lra. }
  pose proof (Int_part_range t _ Ht) as Hf.
  destruct (base_Int_part t) as [Hlo Hhi].
  set (f := Int_part t) in *.
  cbn [jrem1 strict_eq]. unfold Rtrunc. rewrite Rlt_b_false by lra. fold f.
  unfold interpolate. fold f.
  destruct (Req_dec_T (t - IZR f) 0) as [Hz | Hnz].
  - rewrite Req_b_true by exact Hz.
    replace t with (IZR f) at 1 by lra.
    rewrite array_get_at, array_at_order_statistic by lia.
    f_equal. apply Fin_eq. rewrite Hz. ring.
  - rewrite Req_b_false by exact Hnz.
    cbn [Math_floor Math_ceil]. fold f.
    assert (Hc : Int_part (- t) = (- f - 1)%Z).
    { apply Int_part_between. rewrite minus_IZR, opp_IZR. lra. }
    rewrite Hc. replace (- (- f - 1))%Z with (f + 1)%Z by lia.
    assert (Hf1 : (f + 1 <= Z.of_nat (length rs) - 1)%Z).
    { assert (IZR f < IZR (Z.of_nat (length rs) - 1)) by lra.
      apply lt_IZR in H. lia. }
    rewrite !array_get_at, !array_at_order_statistic by lia.
    reflexivity.
Qed.

End Percentiles.

Lemma ascending_reals (rs : list R) :
  Sorted ascending (map Fin rs) -> StronglySorted Rle rs.
Proof.
  intros H. apply Sorted_StronglySorted; [intros a b c; apply Rle_trans |].
  induction rs as [| a rs IH]; [constructor |].
  cbn [map] in H. apply Sorted_inv in H. destruct H as [Hs Hhd].
  constructor; [apply IH; exact Hs |].
  destruct rs as [| b rs]; constructor.
  cbn [map] in Hhd. apply HdRel_inv in Hhd.
  unfold ascending, comes_after, jgt in Hhd. cbn [jsub jlt] in Hhd.
  unfold Rlt_b in Hhd. destruct (Rlt_dec 0 (a - b)); [discriminate | lra].
Qed.

Lemma order_statistic_monotone (rs : list R) (i j : Z) :
  StronglySorted Rle rs ->
  (0 <= i <= j)%Z -> (j < Z.of_nat (length rs))%Z ->
  order_statistic rs i <= order_statistic rs j.
Proof.
  intros Hs Hij Hj. unfold order_statistic.
  assert (Hnat : (Z.to_nat i <= Z.to_nat j < length rs)%nat) by lia.
  clear Hij Hj. revert Hnat. generalize (Z.to_nat i) (Z.to_nat j). clear i j.
  induction Hs as [| a rs Hs IH Hall]; intros i j Hij; [simpl in Hij; lia |].
  simpl in Hij. destruct i as [| i], j as [| j]; simpl; try lra; try lia.
  - rewrite Forall_forall in Hall. apply Hall, nth_In. lia.
  - apply IH. lia.
Qed.

Lemma order_statistic_In (rs : list R) (k : Z) :
  (0 <= k < Z.of_nat (length rs))%Z -> In (order_statistic rs k) rs.
Proof. intros Hk. apply nth_In. lia. Qed.

(** Between the order statistics that bracket it. *)
Lemma interpolate_bracket (rs : list R) (t : R) :
  StronglySorted Rle rs -> rs <> [] ->
  0 <= t <= IZR (Z.of_nat (length rs) - 1) ->
  order_statistic rs (Int_part t) <= interpolate rs t
  /\ ((Int_part t + 1 <= Z.of_nat (length rs) - 1)%Z ->
      interpolate rs t <= order_statistic rs (Int_part t + 1))
  /\ interpolate rs t <= order_statistic rs (Z.of_nat (length rs) - 1).
Proof.
  intros Hs Hne Ht. pose proof (Int_part_range t _ Ht) as Hf.
  destruct (base_Int_part t) as [Hlo Hhi]. unfold interpolate.
  set (f := Int_part t) in *.
  destruct (Z.eq_dec f (Z.of_nat (length rs) - 1)) as [Hlast | Hmid].
  - assert (Hz : t - IZR f = 0) by (rewrite Hlast in *; lra).
    rewrite Hz, Rmult_0_r, Rplus_0_r. split; [lra |]. split; [lia |].
    rewrite Hlast. lra.
  - assert (Hd : order_statistic rs f <= order_statistic rs (f + 1))
      by (apply order_statistic_monotone; [exact Hs | lia | lia]).
    assert (Hup : order_statistic rs (f + 1)
                  <= order_statistic rs (Z.of_nat (length rs) - 1))
      by (apply order_statistic_monotone; [exact Hs | lia | lia]).
    assert (Hfr : 0 <= t - IZR f < 1) by lra.
    split; [nra |]. split; [intros _; nra | nra].
Qed.

Lemma interpolate_monotone (rs : list R) (t t' : R) :
  StronglySorted Rle rs -> rs <> [] ->
  0 <= t -> t <= t' -> t' <= IZR (Z.of_nat (length rs) - 1) ->
  interpolate rs t <= interpolate rs t'.
Proof.
  intros Hs Hne H0 Htt Hn.
  assert (Ht : 0 <= t <= IZR (Z.of_nat (length rs) - 1)) by lra.
  assert (Ht' : 0 <= t' <= IZR (Z.of_nat (length rs) - 1)) by lra.
  pose proof (Int_part_range t _ Ht) as Hf.
  pose proof (Int_part_range t' _ Ht') as Hf'.
  destruct (base_Int_part t) as [Hlo Hhi].
  destruct (base_Int_part t') as [Hlo' Hhi'].
  destruct (interpolate_bracket rs t Hs Hne Ht) as (Ha & Hb & _).
  destruct (interpolate_bracket rs t' Hs Hne Ht') as (Ha' & _ & _).
  assert (Hff : (Int_part t <= Int_part t')%Z).
  { assert (IZR (Int_part t) < IZR (Int_part t' + 1))
      by (rewrite plus_IZR; lra).
    apply lt_IZR in H. lia. }
  destruct (Z.eq_dec (Int_part t) (Int_part t')) as [Heq | Hneq].
  - unfold interpolate. rewrite <- Heq.
    set (f := Int_part t) in *.
    destruct (Z.eq_dec f (Z.of_nat (length rs) - 1)) as [Hlast | Hmid].
    + assert (t = t') by (rewrite <- Heq, Hlast in *; lra). subst t'. lra.
    + assert (Hd : order_statistic rs f <= order_statistic rs (f + 1))
        by (apply order_statistic_monotone; [exact Hs | lia | lia]).
      nra.
  - assert (Hstep : (Int_part t + 1 <= Int_part t')%Z) by lia.
    assert (Hmid : order_statistic rs (Int_part t + 1)
                   <= order_statistic rs (Int_part t'))
      by (apply order_statistic_monotone; [exact Hs | lia | lia]).
    assert (Hb' : interpolate rs t <= order_statistic rs (Int_part t + 1))
      by (apply Hb; lia).
    lra.
Qed.

(** ** Quartiles and percentiles *)

(** The sorted copy of a finite sample, as real numbers. *)
Lemma sorted_reals (xs : list R) :
  exists rs,
    sort_numbers (map Fin xs) = map Fin rs
    /\ length rs = length xs
    /\ StronglySorted Rle rs
    /\ (forall r, In r rs -> In r xs).
Proof.
  destruct (finite_as_reals _ (sort_numbers_finite _ (map_Fin_finite xs)))
    as [rs Hrs].
  exists rs. split; [exact Hrs |]. split.
  - rewrite <- (length_map Fin rs), <- Hrs, sort_numbers_length, length_map.
    reflexivity.
  - split.
    + apply ascending_reals. rewrite <- Hrs.
      apply sort_numbers_ascending, map_Fin_finite.
    + intros r Hr.
      assert (H : In (Fin r) (sort_numbers (map Fin xs)))
        by (rewrite Hrs; apply in_map; exact Hr).
      apply (Permutation_in _ (sort_numbers_perm (map Fin xs))) in H.
      apply in_map_iff in H. destruct H as (x & E & Hx).
      injection E as ->. exact Hx.
Qed.

Section Quartiles.
Import DataAnalyzer.

Lemma percentile_pair (xs : list R) (p q : R) :
  xs <> [] -> 0 <= p -> p <= q -> q <= 100 ->
  exists a b lo hi,
    percentile (sort_numbers (map Fin xs)) (Fin p) = Num (Fin a)
    /\ percentile (sort_numbers (map Fin xs)) (Fin q) = Num (Fin b)
    /\ In lo xs /\ In hi xs
    /\ lo <= a /\ a <= b /\ b <= hi.
Proof.
  intros Hne Hp Hpq Hq.
  destruct (sorted_reals xs) as (rs & Hrs & Hlen & Hs & Hin).
  assert (Hrne : rs <> []).
  { destruct rs; [| congruence]. destruct xs; [congruence | discriminate Hlen]. }
  assert (Hn : (1 <= length rs)%nat) by (destruct rs; [congruence | simpl; lia]).
  assert (Hn1 : 1 <= INR (length rs)) by (apply (le_INR 1); exact Hn).
  set (tp := p / 100 * (INR (length rs) - 1)).
  set (tq := q / 100 * (INR (length rs) - 1)).
  assert (Hlast : IZR (Z.of_nat (length rs) - 1) = INR (length rs) - 1)
    by (rewrite minus_IZR, <- INR_IZR_INZ; reflexivity).
  assert (Htp : 0 <= tp) by (unfold tp; apply Rmult_le_pos; lra).
  assert (Htpq : tp <= tq) by (unfold tp, tq; nra).
  assert (Htq : tq <= IZR (Z.of_nat (length rs) - 1))
    by (rewrite Hlast; unfold tq; nra).
  assert (Hbp : 0 <= tp <= IZR (Z.of_nat (length rs) - 1)) by lra.
  assert (Hbq : 0 <= tq <= IZR (Z.of_nat (length rs) - 1)) by lra.
  destruct (interpolate_bracket rs tp Hs Hrne Hbp) as (Hlo & _ & _).
  destruct (interpolate_bracket rs tq Hs Hrne Hbq) as (_ & _ & Hhi).
  pose proof (Int_part_range tp _ Hbp) as Hf.
  assert (H0 : order_statistic rs 0 <= order_statistic rs (Int_part tp))
    by (apply order_statistic_monotone; [exact Hs | lia | lia]).
  exists (interpolate rs tp), (interpolate rs tq),
    (order_statistic rs 0), (order_statistic rs (Z.of_nat (length rs) - 1)).
  rewrite Hrs, !percentile_interpolates by (try exact Hrne; lra).
  fold tp tq.
  split; [reflexivity |]. split; [reflexivity |].
  split; [apply Hin, order_statistic_In; lia |].
  split; [apply Hin, order_statistic_In; lia |].
  split; [lra |]. split; [| exact Hhi].
  apply interpolate_monotone; assumption.
Qed.

Lemma percentile_chain (xs : list R) (p q : R) (a : R) :
  xs <> [] -> 0 <= p -> p <= q -> q <= 100 ->
  percentile (sort_numbers (map Fin xs)) (Fin p) = Num (Fin a) ->
  exists b,
    percentile (sort_numbers (map Fin xs)) (Fin q) = Num (Fin b) /\ a <= b.
Proof.
  intros Hne Hp Hpq Hq Ea.
  destruct (percentile_pair xs p q Hne Hp Hpq Hq)
    as (a' & b & _ & _ & Ea' & Eb & _ & _ & _ & Hab & _).
  rewrite Ea in Ea'. injection Ea' as <-. exists b. auto.
Qed.

(** The quartiles and the percentiles in exact arithmetic. *)
Lemma quantiles_of_reals (xs : list R) :
  xs <> [] ->
  exists lo hi v5 v10 v25 v50 v75 v90 v95,
    quartiles (map Fin xs) = [Num (Fin v25); Num (Fin v50); Num (Fin v75)]
    /\ percentiles (map Fin xs)
       = {| p5 := Num (Fin v5); p10 := Num (Fin v10); p25 := Num (Fin v25);
            p50 := Num (Fin v50); p75 := Num (Fin v75); p90 := Num (Fin v90);
            p95 := Num (Fin v95) |}
    /\ In lo xs /\ In hi xs
    /\ lo <= v5 /\ v5 <= v10 /\ v10 <= v25 /\ v25 <= v50 /\ v50 <= v75
    /\ v75 <= v90 /\ v90 <= v95 /\ v95 <= hi.
Proof.
  intros Hne.
  destruct (percentile_pair xs 5 95 Hne)
    as (v5 & v95 & lo & hi & E5 & E95 & Hlo & Hhi & Hl & _ & Hh); try lra.
  destruct (percentile_chain xs 5 10 v5 Hne) as (v10 & E10 & H1); try lra; auto.
  destruct (percentile_chain xs 10 25 v10 Hne) as (v25 & E25 & H2); try lra; auto.
  destruct (percentile_chain xs 25 50 v25 Hne) as (v50 & E50 & H3); try lra; auto.
  destruct (percentile_chain xs 50 75 v50 Hne) as (v75 & E75 & H4); try lra; auto.
  destruct (percentile_chain xs 75 90 v75 Hne) as (v90 & E90 & H5); try lra; auto.
  destruct (percentile_chain xs 90 95 v90 Hne) as (v95' & E95' & H6); try lra; auto.
  rewrite E95 in E95'. injection E95' as <-.
  exists lo, hi, v5, v10, v25, v50, v75, v90, v95.
  unfold quartiles, percentiles. rewrite E5, E10, E25, E50, E75, E90, E95.
  repeat split; auto.
Qed.

(** X7.  For a non-empty column of whole numbers, at most a million of them
    and none above [10 ^ 9] in absolute value, the three quartiles and the
    seven percentiles are finite, the quartiles are the percentiles 25, 50 and
    75, and the percentiles increase with their rank, from the smallest value
    of the column at the least to its largest value at the most. *)
Theorem quantiles_of_whole_numbers (zs : list Z) :
  whole_sample (10 ^ 6) (10 ^ 9) zs -> zs <> [] ->
  exists (lo hi : Z) (v5 v10 v25 v50 v75 v90 v95 : R),
    quartiles (map of_Z zs) = [Num (Fin v25); Num (Fin v50); Num (Fin v75)]
    /\ percentiles (map of_Z zs)
       = {| p5 := Num (Fin v5); p10 := Num (Fin v10); p25 := Num (Fin v25);
            p50 := Num (Fin v50); p75 := Num (Fin v75); p90 := Num (Fin v90);
            p95 := Num (Fin v95) |}
    /\ In lo zs /\ In hi zs
    /\ IZR lo <= v5 /\ v5 <= v10 /\ v10 <= v25 /\ v25 <= v50 /\ v50 <= v75
    /\ v75 <= v90 /\ v90 <= v95 /\ v95 <= IZR hi.
Proof.
  intros _ Hne. rewrite whole_as_reals.
  destruct (quantiles_of_reals (map IZR zs) (whole_nonempty zs Hne))
    as (lo & hi & v5 & v10 & v25 & v50 & v75 & v90 & v95
        & Hq & Hp & Hlo & Hhi & Hrest).
  destruct (whole_value zs lo Hlo) as (zlo & -> & Hzlo).
  destruct (whole_value zs hi Hhi) as (zhi & -> & Hzhi).
  exists zlo, zhi, v5, v10, v25, v50, v75, v90, v95.
  split; [exact Hq |]. split; [exact Hp |].
  split; [exact Hzlo |]. split; [exact Hzhi | exact Hrest].
Qed.

Lemma quantiles_sample :
  exists (lo hi : Z) (v5 v10 v25 v50 v75 v90 v95 : R),
    quartiles (map of_Z [4; 1; 3; 2]%Z)
    = [Num (Fin v25); Num (Fin v50); Num (Fin v75)]
    /\ percentiles (map of_Z [4; 1; 3; 2]%Z)
       = {| p5 := Num (Fin v5); p10 := Num (Fin v10); p25 := Num (Fin v25);
            p50 := Num (Fin v50); p75 := Num (Fin v75); p90 := Num (Fin v90);
            p95 := Num (Fin v95) |}
    /\ In lo [4; 1; 3; 2]%Z /\ In hi [4; 1; 3; 2]%Z
    /\ IZR lo <= v5 /\ v5 <= v10 /\ v10 <= v25 /\ v25 <= v50 /\ v50 <= v75
    /\ v75 <= v90 /\ v90 <= v95 /\ v95 <= IZR hi.
Proof.
  apply (quantiles_of_whole_numbers [4; 1; 3; 2]%Z);
    [split; [simpl; lia | repeat constructor; simpl; lia] | discriminate].
Defined.

(** The first and third quartile, as the outlier detector reads them. *)
Lemma quartiles_q1_q3 (xs : list R) :
  xs <> [] ->
  exists q1 q2 q3,
    quartiles (map Fin xs) = [Num (Fin q1); Num (Fin q2); Num (Fin q3)]
    /\ q1 <= q3.
Proof.
  intros Hne.
  destruct (percentile_pair xs 25 75 Hne)
    as (q1 & q3 & _ & _ & E1 & E3 & _ & _ & _ & H13 & _); try lra.
  destruct (percentile_chain xs 25 50 q1 Hne) as (q2 & E2 & _); try lra; auto.
  exists q1, q2, q3. unfold quartiles. rewrite E1, E2, E3. auto.
Qed.

End Quartiles.

(** ** Outlier records *)

Lemma outside_spec (lo up x : R) :
  outside lo up x = true <-> x < lo \/ up < x.
Proof.
  unfold outside, Rlt_b. destruct (Rlt_dec x lo), (Rlt_dec up x); simpl;
    split; intros H; try reflexivity; try discriminate; tauto.
Qed.

Lemma filter_fence_Fin (lo up : R) (xs : list R) :
  filter (fun val => jlt val (Fin lo) || jgt val (Fin up)) (map Fin xs)
  = map Fin (filter (outside lo up) xs).
Proof.
  induction xs as [| x xs IH]; [reflexivity |].
  cbn [map filter]. unfold jgt at 1. cbn [jlt]. fold (outside lo up x).
  rewrite IH. destruct (outside lo up x); reflexivity.
Qed.

Lemma includes_filtered (f : R -> bool) (xs : list R) (x : R) :
  In x xs -> includes (map Fin (filter f xs)) (Fin x) = f x.
Proof.
  intros Hx. unfold includes. destruct (f x) eqn:Hf.
  - apply existsb_exists. exists (Fin x). split.
    + apply in_map, filter_In. auto.
    + cbn. apply Req_b_true. reflexivity.
  - apply not_true_is_false. intros H. apply existsb_exists in H.
    destruct H as (v & Hv & Heq). apply in_map_iff in Hv.
    destruct Hv as (y & <- & Hy). apply filter_In in Hy. destruct Hy as [_ Hfy].
    cbn in Heq. unfold Req_b in Heq. destruct (Req_dec_T x y); [| discriminate].
    subst y. congruence.
Qed.

Lemma filter_partition_length {A : Type} (f : A -> bool) (l : list A) :
  length l
  = (length (filter f l) + length (filter (fun a => negb (f a)) l))%nat.
Proof.
  induction l as [| a l IH]; [reflexivity |].
  simpl. destruct (f a); simpl; lia.
Qed.

Lemma filter_narrow {A : Type} (f g : A -> bool) (l : list A) :
  (forall a, g a = true -> f a = true) -> filter g (filter f l) = filter g l.
Proof.
  intros H. induction l as [| a l IH]; [reflexivity |].
  simpl. destruct (f a) eqn:Hf; simpl.
  - rewrite IH. reflexivity.
  - destruct (g a) eqn:Hg; [apply H in Hg; congruence | exact IH].
Qed.

Section Outliers.
Import DataAnalyzer.

(** The outlier record in exact arithmetic. *)
Lemma outlier_record_of_reals (xs : list R) :
  xs <> [] ->
  let r := outlier_record (map Fin xs) in
  exists lo up mildv extv,
    bounds_lower r = Fin lo /\ bounds_upper r = Fin up /\ lo <= up
    /\ group_values (mild r) = map Fin mildv
    /\ group_values (extreme r) = map Fin extv
    /\ group_count (mild r) = of_nat (length mildv)
    /\ group_count (extreme r) = of_nat (length extv)
    /\ (forall x, In x mildv \/ In x extv <-> In x xs /\ (x < lo \/ up < x))
    /\ (forall x, In x mildv -> ~ In x extv)
    /\ percentage r
       = jmul (jdiv (of_nat (length mildv + length extv))
                    (of_nat (length xs)))
              (Fin 100)
    /\ (length mildv + length extv <= length xs)%nat.
Proof.
  intros Hne r.
  destruct (quartiles_q1_q3 xs Hne) as (q1 & q2 & q3 & Eq & Hq).
  set (lo := q1 - 15 / 10 * (q3 - q1)).
  set (up := q3 + 15 / 10 * (q3 - q1)).
  set (elo := q1 - 3 * (q3 - q1)).
  set (eup := q3 + 3 * (q3 - q1)).
  set (out := filter (outside lo up) xs).
  set (ext := filter (outside elo eup) xs).
  set (mildv := filter (fun x => negb (outside elo eup x)) out).
  assert (Himp : forall x, outside elo eup x = true -> outside lo up x = true).
  { intros x H. apply outside_spec in H. apply outside_spec.
    unfold lo, up, elo, eup in *. lra. }
  assert (Hext : filter (outside elo eup) out = ext)
    by (apply filter_narrow; exact Himp).
  assert (Hlen : length out = (length ext + length mildv)%nat).
  { rewrite (filter_partition_length (outside elo eup) out), Hext. reflexivity. }
  assert (Hmild : filter (fun val => negb (includes (map Fin ext) val))
                         (map Fin out) = map Fin mildv).
  { unfold mildv. clear Hlen Hext.
    assert (Hsub : forall x, In x out -> In x xs)
      by (intros x Hx; apply filter_In in Hx; tauto).
    induction out as [| x out IH]; [reflexivity |].
    cbn [map filter]. unfold ext at 1.
    rewrite includes_filtered by (apply Hsub; simpl; auto).
    rewrite IH by (intros; apply Hsub; simpl; auto).
    destruct (outside elo eup x); reflexivity. }
  assert (Hn : 0 < INR (length xs)).
  { apply lt_0_INR. destruct xs; [congruence | simpl; lia]. }
  exists lo, up, mildv, ext.
  unfold r, outlier_record. rewrite Eq. cbn [nth ToNumber jsub jmul jadd].
  fold lo up elo eup. rewrite !filter_fence_Fin. fold out ext.
  cbn [bounds_lower bounds_upper mild extreme group_values group_count percentage].
  rewrite Hmild, !length_map.
  split; [reflexivity |]. split; [reflexivity |].
  split; [unfold lo, up; lra |].
  split; [reflexivity |]. split; [reflexivity |]. split.
  { rewrite !of_nat_INR. cbn [jsub]. apply Fin_eq. rewrite Hlen, plus_INR. ring. }
  split; [reflexivity |]. split.
  { intros x. rewrite <- outside_spec. unfold mildv, ext.
    rewrite !filter_In. unfold out. rewrite filter_In.
    destruct (outside elo eup x) eqn:He; simpl; split; intros H.
    - destruct H as [[_ H] | [Hx _]]; [discriminate |]. split; [exact Hx | apply Himp, He].
    - right. tauto.
    - destruct H as [[H _] | [_ H]]; [exact H | discriminate].
    - left. tauto. }
  split.
  { intros x Hm He. unfold mildv in Hm. apply filter_In in Hm.
    unfold ext in He. apply filter_In in He.
    destruct Hm as [_ Hm], He as [_ He]. rewrite He in Hm. discriminate. }
  split.
  { rewrite Hlen, (Nat.add_comm (length mildv)). reflexivity. }
  rewrite Nat.add_comm, <- Hlen. unfold out.
  clear. induction xs as [| x xs IH]; simpl; [lia |].
  destruct (outside lo up x); simpl; lia.
Qed.

Lemma whole_preimage (zs : list Z) (l : list R) :
  (forall x, In x l -> In x (map IZR zs)) ->
  exists l', l = map IZR l' /\ (forall z, In z l' -> In z zs).
Proof.
  induction l as [| x l IH]; intros H.
  - exists []. split; [reflexivity | intros z []].
  - destruct IH as (l' & -> & Hl'); [intros y Hy; apply H; right; exact Hy |].
    destruct (whole_value zs x (H x (or_introl eq_refl))) as (z & -> & Hz).
    exists (z :: l'). split; [reflexivity |].
    intros y [<- | Hy]; [exact Hz | apply Hl'; exact Hy].
Qed.

(** X8.  The outlier record of a non-empty column of whole numbers, at most a
    million of them and none above [10 ^ 9] in absolute value: the fences are
    finite and in order; the mild and the extreme values are disjoint, their
    counts are their lengths, together they are exactly the values of the
    column outside the fences, and the percentage is their number divided by
    the size of the column, times 100. *)
Theorem outliers_of_whole_numbers (zs : list Z) :
  whole_sample (10 ^ 6) (10 ^ 9) zs -> zs <> [] ->
  let r := outlier_record (map of_Z zs) in
  exists (lo up : R) (mildv extv : list Z),
    bounds_lower r = Fin lo /\ bounds_upper r = Fin up /\ lo <= up
    /\ group_values (mild r) = map of_Z mildv
    /\ group_values (extreme r) = map of_Z extv
    /\ group_count (mild r) = of_nat (length mildv)
    /\ group_count (extreme r) = of_nat (length extv)
    /\ (forall z, In z mildv \/ In z extv
                  <-> In z zs /\ (IZR z < lo \/ up < IZR z))
    /\ (forall z, In z mildv -> ~ In z extv)
    /\ percentage r
       = jmul (jdiv (of_nat (length mildv + length extv))
                    (of_nat (length zs)))
              (Fin 100)
    /\ (length mildv + length extv <= length zs)%nat.
Proof.
  intros _ Hne r. unfold r. rewrite whole_as_reals.
  destruct (outlier_record_of_reals (map IZR zs) (whole_nonempty zs Hne))
    as (lo & up & mildv & extv & Hlo & Hup & Hord & Hmv & Hev & Hmc & Hec
        & Hall & Hdis & Hper & Hlen).
  destruct (whole_preimage zs mildv) as (mz & -> & _).
  { intros x Hx. apply (Hall x). left. exact Hx. }
  destruct (whole_preimage zs extv) as (ez & -> & _).
  { intros x Hx. apply (Hall x). right. exact Hx. }
  rewrite !length_map in *.
  exists lo, up, mz, ez.
  split; [exact Hlo |]. split; [exact Hup |]. split; [exact Hord |].
  split; [rewrite whole_as_reals; exact Hmv |].
  split; [rewrite whole_as_reals; exact Hev |].
  split; [exact Hmc |]. split; [exact Hec |].
  split; [| split; [| split; [exact Hper | exact Hlen]]].
  - intros z. rewrite <- (In_whole mz), <- (In_whole ez), <- (In_whole zs).
    apply Hall.
  - intros z Hm He. apply (Hdis (IZR z)); apply In_whole; assumption.
Qed.

Lemma outliers_of_whole_numbers_sample :
  let r := outlier_record (map of_Z [1; 2; 3; 4; 100]%Z) in
  exists (lo up : R) (mildv extv : list Z),
    bounds_lower r = Fin lo /\ bounds_upper r = Fin up /\ lo <= up
    /\ group_values (mild r) = map of_Z mildv
    /\ group_values (extreme r) = map of_Z extv
    /\ group_count (mild r) = of_nat (length mildv)
    /\ group_count (extreme r) = of_nat (length extv)
    /\ (forall z, In z mildv \/ In z extv
                  <-> In z [1; 2; 3; 4; 100]%Z /\ (IZR z < lo \/ up < IZR z))
    /\ (forall z, In z mildv -> ~ In z extv)
    /\ percentage r
       = jmul (jdiv (of_nat (length mildv + length extv))
                    (of_nat (length [1; 2; 3; 4; 100]%Z)))
              (Fin 100)
    /\ (length mildv + length extv <= length [1; 2; 3; 4; 100]%Z)%nat.
Proof.
  apply (outliers_of_whole_numbers [1; 2; 3; 4; 100]%Z);
    [split; [simpl; lia | repeat constructor; simpl; lia] | discriminate].
Defined.

End Outliers.

(** ** Moving average and linear trend *)

Lemma slice_window {A : Type} (l : list A) (k p : nat) :
  (k + p <= length l)%nat ->
  slice l (Z.of_nat k) (Z.of_nat (k + p)) = firstn p (skipn k l).
Proof.
  intros H. unfold slice, rel_index.
  replace (Z.of_nat k <? 0)%Z with false by (symmetry; apply Z.ltb_ge; lia).
  replace (Z.of_nat (k + p) <? 0)%Z with false by (symmetry; apply Z.ltb_ge; lia).
  rewrite !Z.min_l by lia.
  replace (Z.to_nat (Z.of_nat (k + p) - Z.of_nat k)) with p by lia.
  rewrite Nat2Z.id. reflexivity.
Qed.

Section MovingAverage.
Import DataAnalyzer.

(** X9.  For a period [p >= 1] the moving average has [length data + 1 - p]
    entries (none when the data are shorter than the period), and entry [k] is
    the mean of the [p] values that start at position [k]. *)
Theorem moving_average_windows (data : list number) (p : nat) :
  (1 <= p)%nat ->
  length (calculateMovingAverage data (Z.of_nat p)) = (length data + 1 - p)%nat
  /\ forall k, (k + p <= length data)%nat ->
       nth_error (calculateMovingAverage data (Z.of_nat p)) k
       = Some (mean (firstn p (skipn k data))).
Proof.
  intros Hp. unfold calculateMovingAverage. split.
  - rewrite length_map. unfold Zrange. rewrite length_map, length_seq. lia.
  - intros k Hk. rewrite nth_error_map.
    replace k with (Z.to_nat ((Z.of_nat p - 1 + Z.of_nat k) - (Z.of_nat p - 1)))
      at 1 by lia.
    rewrite nth_error_Zrange by lia. cbn [option_map]. f_equal. f_equal.
    replace (Z.of_nat p - 1 + Z.of_nat k - Z.of_nat p + 1)%Z with (Z.of_nat k)
      by lia.
    replace (Z.of_nat p - 1 + Z.of_nat k + 1)%Z with (Z.of_nat (k + p)) by lia.
    apply slice_window. exact Hk.
Qed.

Lemma moving_average_sample :
  length (calculateMovingAverage (map Fin [1; 2; 3; 4; 5]) 3) = 3%nat
  /\ nth_error (calculateMovingAverage (map Fin [1; 2; 3; 4; 5]) 3) 1
     = Some (mean (map Fin [2; 3; 4])).
Proof.
  destruct (moving_average_windows (map Fin [1; 2; 3; 4; 5]) 3) as [Hlen Hk];
    [lia |].
  split; [exact Hlen |]. apply (Hk 1%nat). simpl. lia.
Defined.

End MovingAverage.

Lemma Rsum_affine (a d : R) (ks : list R) :
  Rsum (map (fun k => a + d * k) ks) = INR (length ks) * a + d * Rsum ks.
Proof.
  induction ks as [| k ks IH]; [simpl; lra |].
  cbn [map Rsum fold_right length]. change (fold_right Rplus 0) with Rsum.
  rewrite IH, S_INR. ring.
Qed.

Lemma Rsum_affine_products (a d : R) (ks : list R) :
  Rsum (map (fun p => fst p * snd p) (combine ks (map (fun k => a + d * k) ks)))
  = a * Rsum ks + d * Rsum (map (fun k => k * k) ks).
Proof.
  induction ks as [| k ks IH]; [simpl; lra |].
  cbn [map combine Rsum fold_right fst snd].
  change (fold_right Rplus 0) with Rsum. rewrite IH. ring.
Qed.

(** The co-spread of positions with values on a line is the slope times
    the spread of the positions. *)
Lemma co_spread_affine (a d : R) (ks : list R) :
  co_spread ks (map (fun k => a + d * k) ks) = d * spread ks.
Proof.
  unfold co_spread, spread. rewrite Rsum_affine_products, Rsum_affine. ring.
Qed.

Lemma indices_length (n : nat) : length (indices n) = n.
Proof. unfold indices. rewrite length_map, length_seq. reflexivity. Qed.

Lemma indices_spread (n : nat) : (2 <= n)%nat -> 0 < spread (indices n).
Proof.
  intros Hn. pose proof (spread_nonneg (indices n)) as H0.
  assert (Hnz : spread (indices n) <> 0).
  { intros Hz.
    assert (E : INR 0 = INR 1).
    { apply (proj1 (spread_zero_constant (indices n)) Hz);
        unfold indices; apply in_map, in_seq; lia. }
    simpl in E. lra. }
  lra.
Qed.

Lemma index_positions (n : nat) :
  map of_Z (Zrange 0 (Z.of_nat n)) = map Fin (indices n).
Proof.
  rewrite Zrange_from_zero. unfold indices. rewrite !map_map.
  apply map_ext. intros k. unfold of_Z. rewrite <- INR_IZR_INZ. reflexivity.
Qed.

Section LinearTrend.
Import DataAnalyzer.

(** The fitted line of [calculateLinearTrend] on a finite series. *)
Lemma calculateLinearTrend_line (ys : list R) :
  (2 <= length ys)%nat ->
  let ks := indices (length ys) in
  let s := co_spread ks ys / spread ks in
  slope (calculateLinearTrend (map Fin ys)) = Fin s
  /\ intercept (calculateLinearTrend (map Fin ys))
     = Fin ((Rsum ys - s * Rsum ks) / INR (length ys)).
Proof.
  intros Hn ks s. unfold calculateLinearTrend. cbn [slope intercept].
  rewrite length_map, index_positions. fold ks. unfold mapi.
  rewrite (mapi_products _ _ 0)
    by (rewrite !length_map; unfold ks; rewrite indices_length; simpl; lia).
  cbn [skipn]. rewrite combine_map_Fin, squares_map_Fin, !sum_Fin, of_nat_INR.
  pose proof (indices_spread (length ys) Hn) as Hpos. fold ks in Hpos.
  assert (Hlen : length ks = length ys) by apply indices_length.
  assert (H2 : 2 <= INR (length ys)) by (apply (le_INR 2); exact Hn).
  cbn [jmul jsub jdiv].
  assert (Es : INR (length ys) * Rsum (map (fun x => x * x) ks)
               - Rsum ks * Rsum ks = spread ks)
    by (unfold spread; rewrite Hlen; reflexivity).
  assert (Ec : INR (length ys) * Rsum (map (fun p => fst p * snd p)
                                           (combine ks ys))
               - Rsum ks * Rsum ys = co_spread ks ys)
    by (unfold co_spread; rewrite Hlen; reflexivity).
  rewrite Es, Ec, (Req_b_false (spread ks) 0) by lra.
  cbn [jmul jsub jdiv]. rewrite (Req_b_false (INR (length ys)) 0) by lra.
  split; reflexivity.
Qed.

(** The trend of an arithmetic sequence in exact arithmetic. *)
Lemma linear_trend_of_real_steps (a d : R) (n : nat) :
  (2 <= n)%nat ->
  let trend :=
    calculateLinearTrend (map (fun k => Fin (a + d * INR k)) (seq 0 n)) in
  slope trend = Fin d
  /\ intercept trend = Fin a
  /\ trend_strength trend = Fin (Rabs d)
  /\ direction trend
     = (if Rlt_b (1 / 100) d then "increasing"
        else if Rlt_b d (- (1 / 100)) then "decreasing" else "stable")%string.
Proof.
  intros Hn trend.
  set (ys := map (fun k => a + d * k) (indices n)).
  assert (Hdata : map (fun k => Fin (a + d * INR k)) (seq 0 n) = map Fin ys).
  { unfold ys, indices. rewrite !map_map. reflexivity. }
  assert (Hlen : length ys = n).
  { unfold ys. rewrite length_map. apply indices_length. }
  assert (Hn' : (2 <= length ys)%nat) by (rewrite Hlen; exact Hn).
  destruct (calculateLinearTrend_line ys Hn') as [Hs Hi].
  rewrite Hlen in Hs, Hi.
  pose proof (indices_spread n Hn) as Hpos.
  assert (H2 : 2 <= INR n) by (apply (le_INR 2); exact Hn).
  assert (Es : co_spread (indices n) ys / spread (indices n) = d).
  { unfold ys. rewrite co_spread_affine. field. lra. }
  rewrite Es in Hs, Hi.
  assert (Ei : (Rsum ys - d * Rsum (indices n)) / INR n = a).
  { unfold ys. rewrite Rsum_affine, indices_length. field. lra. }
  rewrite Ei in Hi.
  unfold trend. rewrite Hdata.
  split; [exact Hs |]. split; [exact Hi |].
  unfold calculateLinearTrend in *. cbn [slope intercept trend_strength direction] in *.
  rewrite Hs. cbn [Math_abs jgt jlt]. split; reflexivity.
Qed.

(** X10.  On the arithmetic sequence [a, a + d, ..., a + (n - 1) d] of two to
    a thousand values, with whole [a] and [d] of absolute value at most a
    thousand, the linear trend recovers the step [d] as slope and the first
    value [a] as intercept; the strength is [|d|] and the direction is
    increasing for [d > 0], decreasing for [d < 0] and stable for [d = 0]. *)
Theorem linear_trend_of_whole_steps (a d : Z) (n : nat) :
  (Z.abs a <= 10 ^ 3)%Z -> (Z.abs d <= 10 ^ 3)%Z ->
  (2 <= n)%nat -> (Z.of_nat n <= 10 ^ 3)%Z ->
  let trend :=
    calculateLinearTrend
      (map (fun k => of_Z (a + d * Z.of_nat k)) (seq 0 n)) in
  slope trend = of_Z d
  /\ intercept trend = of_Z a
  /\ trend_strength trend = of_Z (Z.abs d)
  /\ direction trend
     = (if (0 <? d)%Z then "increasing"
        else if (d <? 0)%Z then "decreasing" else "stable")%string.
Proof.
  intros _ _ Hn _ trend.
  assert (Hdata : map (fun k => of_Z (a + d * Z.of_nat k)) (seq 0 n)
                  = map (fun k => Fin (IZR a + IZR d * INR k)) (seq 0 n)).
  { apply map_ext. intros k. unfold of_Z.
    rewrite plus_IZR, mult_IZR, <- INR_IZR_INZ. reflexivity. }
  destruct (linear_trend_of_real_steps (IZR a) (IZR d) n Hn)
    as (Hs & Hi & Hst & Hdir).
  unfold trend. rewrite Hdata.
  split; [exact Hs |]. split; [exact Hi |].
  split; [rewrite Hst; unfold of_Z; rewrite abs_IZR; reflexivity |].
  rewrite Hdir.
  destruct (Z.ltb_spec 0 d) as [Hpos | Hle].
  - rewrite Rlt_b_true; [reflexivity |].
    assert (1 <= IZR d) by (apply (IZR_le 1); lia). lra.
  - assert (IZR d <= 0) by (apply (IZR_le d 0); exact Hle).
    rewrite Rlt_b_false by lra.
    destruct (Z.ltb_spec d 0) as [Hneg | Hge].
    + assert (IZR d <= -1) by (apply (IZR_le d (-1)); lia).
      rewrite Rlt_b_true by lra. reflexivity.
    + assert (0 <= IZR d) by (apply (IZR_le 0 d); exact Hge).
      rewrite Rlt_b_false by lra. reflexivity.
Qed.

Lemma linear_trend_sample :
  let trend :=
    calculateLinearTrend
      (map (fun k => of_Z (5 + 2 * Z.of_nat k)) (seq 0 4)) in
  slope trend = of_Z 2
  /\ intercept trend = of_Z 5
  /\ trend_strength trend = of_Z (Z.abs 2)
  /\ direction trend
     = (if (0 <? 2)%Z then "increasing"
        else if (2 <? 0)%Z then "decreasing" else "stable")%string.
Proof.
  apply (linear_trend_of_whole_steps 5 2 4); simpl; lia.
Defined.

End LinearTrend.

(** ** Accuracy estimate of a forecast *)

Lemma fold_squared_deviations (ys : list R) (m acc : R) :
  fold_left (fun sum value => jadd sum (Math_pow (jsub value (Fin m)) 2))
            (map Fin ys) (Fin acc)
  = Fin (acc + Rsum (map (fun y => (y - m) * (y - m)) ys)).
Proof.
  revert acc. induction ys as [| y ys IH]; intros acc.
  - simpl. apply Fin_eq. lra.
  - cbn [map fold_left jsub Math_pow jadd]. rewrite IH. apply Fin_eq.
    cbn [map Rsum fold_right]. change (fold_right Rplus 0) with Rsum.
    simpl. ring.
Qed.

Lemma population_variance_nonneg (ys : list R) :
  ys <> [] -> 0 <= population_variance ys.
Proof.
  intros Hne. unfold population_variance.
  assert (0 < INR (length ys)).
  { apply lt_0_INR. destruct ys; [congruence | simpl; lia]. }
  apply Rmult_le_pos; [apply Rsum_sq_nonneg |].
  apply Rlt_le, Rinv_0_lt_compat. assumption.
Qed.

Section Accuracy.
Import Predictions.

Lemma variation_parts (ys : list R) :
  ys <> [] ->
  calculateVariationCoefficient (map Fin ys)
  = jdiv (Fin (sqrt (population_variance ys)))
         (Fin (Rsum ys / INR (length ys))).
Proof.
  intros Hne. unfold calculateVariationCoefficient.
  assert (Hn : 0 < INR (length ys)).
  { apply lt_0_INR. destruct ys; [congruence | simpl; lia]. }
  rewrite fold_jadd_Fin, length_map, of_nat_INR, Rplus_0_l.
  cbn [jdiv]. rewrite (Req_b_false (INR (length ys)) 0) by lra.
  rewrite fold_squared_deviations, Rplus_0_l.
  cbn [jdiv]. rewrite (Req_b_false (INR (length ys)) 0) by lra.
  fold (population_variance ys).
  pose proof (population_variance_nonneg ys Hne).
  unfold Math_sqrt. rewrite Rlt_b_false by lra. reflexivity.
Qed.

(** The accuracy estimate by the sign of the mean, in exact arithmetic. *)
Lemma accuracy_of_reals (ys : list R) :
  (10 <= length ys)%nat ->
  let data := {| series := Some (map Fin ys) |} in
  let mean := Rsum ys / INR (length ys) in
  let deviation := sqrt (population_variance ys) in
  (mean < 0 -> estimateAccuracy data = "High"%string)
  /\ (mean = 0 -> estimateAccuracy data = "Low"%string)
  /\ (0 < mean ->
      estimateAccuracy data
      = (if Rlt_b (deviation / mean) (1 / 10) then "High"
         else if Rlt_b (deviation / mean) (3 / 10) then "Medium"
         else "Low")%string).
Proof.
  intros Hn data mean deviation.
  assert (Hne : ys <> []) by (destruct ys; [simpl in Hn; lia | congruence]).
  pose proof (sqrt_pos (population_variance ys)) as Hd. fold deviation in Hd.
  unfold estimateAccuracy, data. cbn [series]. rewrite length_map.
  replace (length ys <? 10)%nat with false by (symmetry; apply Nat.ltb_ge; exact Hn).
  rewrite (variation_parts ys Hne). fold mean deviation.
  split; [| split]; intros Hm.
  - cbn [jdiv]. rewrite Req_b_false by lra. cbn [jlt].
    assert (Hinv : / mean < 0) by (apply Rinv_lt_0_compat; exact Hm).
    rewrite Rlt_b_true; [reflexivity |]. unfold Rdiv. nra.
  - rewrite Hm. cbn [jdiv]. rewrite (Req_b_true 0 0) by reflexivity.
    destruct (Req_dec_T deviation 0) as [Hz | Hnz].
    + rewrite Req_b_true by exact Hz. reflexivity.
    + rewrite Req_b_false by exact Hnz. rewrite Rlt_b_true by lra. reflexivity.
  - cbn [jdiv]. rewrite Req_b_false by lra. cbn [jlt]. reflexivity.
Qed.

(** X11.  With ten or more whole numbers, at most a million of them and none
    above [10 ^ 9] in absolute value, the accuracy estimate is High whenever
    their sum is negative (the coefficient of variation is then negative or
    zero) and Low whenever their sum is zero (the coefficient is then
    [Infinity] or [NaN]). *)
Theorem accuracy_of_whole_numbers (zs : list Z) :
  whole_sample (10 ^ 6) (10 ^ 9) zs -> (10 <= length zs)%nat ->
  let data := {| series := Some (map of_Z zs) |} in
  ((Zsum zs < 0)%Z -> estimateAccuracy data = "High"%string)
  /\ (Zsum zs = 0%Z -> estimateAccuracy data = "Low"%string).
Proof.
  intros _ Hn data. unfold data. rewrite whole_as_reals.
  assert (Hn' : (10 <= length (map IZR zs))%nat)
    by (rewrite length_map; exact Hn).
  destruct (accuracy_of_reals (map IZR zs) Hn') as (Hneg & Hzero & _).
  cbv zeta in Hneg, Hzero. rewrite Rsum_whole in Hneg, Hzero.
  assert (Hlen : 0 < INR (length (map IZR zs))).
  { apply lt_0_INR. lia. }
  split; intros Hs.
  - apply Hneg. apply IZR_lt in Hs.
    assert (Hinv : 0 < / INR (length (map IZR zs)))
      by (apply Rinv_0_lt_compat; exact Hlen).
    unfold Rdiv. nra.
  - apply Hzero. rewrite Hs. unfold Rdiv. apply Rmult_0_l.
Qed.

Lemma accuracy_sample :
  estimateAccuracy
    {| series := Some (map of_Z [3; -5; 1; -2; 0; 4; -6; 1; -1; 2]%Z) |}
  = "High"%string
  /\ estimateAccuracy
       {| series := Some (map of_Z [3; -3; 1; -1; 0; 4; -4; 2; -2; 0]%Z) |}
     = "Low"%string.
Proof.
  split.
  - apply (accuracy_of_whole_numbers [3; -5; 1; -2; 0; 4; -6; 1; -1; 2]%Z);
      [split; [simpl; lia | repeat constructor; simpl; lia]
      | simpl; lia | simpl; lia].
  - apply (accuracy_of_whole_numbers [3; -3; 1; -1; 0; 4; -4; 2; -2; 0]%Z);
      [split; [simpl; lia | repeat constructor; simpl; lia]
      | simpl; lia | reflexivity].
Defined.

End Accuracy.

(** ** Forecast of a linear series *)

Lemma ols_slope_co_spread (ys : list R) :
  ols_slope ys
  = co_spread (positions (length ys)) ys / spread (positions (length ys)).
Proof.
  unfold ols_slope, co_spread, spread. rewrite positions_length. reflexivity.
Qed.

Lemma positions_spread_pos (n : nat) :
  (2 <= n)%nat -> 0 < spread (positions n).
Proof.
  intros Hn. unfold spread. rewrite positions_length.
  apply positions_spread. exact Hn.
Qed.

Lemma residuals_on_line (a d : R) (xs : list R) :
  squared_residuals (combine xs (map (fun x => a + d * x) xs)) d a = 0.
Proof.
  unfold squared_residuals. induction xs as [| x xs IH]; [reflexivity |].
  cbn [map combine Rsum fold_right fst snd].
  change (fold_right Rplus 0) with Rsum. rewrite IH. simpl. ring.
Qed.

Lemma line_fit (a d : R) (n : nat) :
  (2 <= n)%nat ->
  let ys := map (fun x => a + d * x) (positions n) in
  ols_slope ys = d /\ ols_intercept ys = a /\ mean_squared_residual ys = 0.
Proof.
  intros Hn ys.
  assert (Hlen : length ys = n)
    by (unfold ys; rewrite length_map; apply positions_length).
  pose proof (positions_spread_pos n Hn) as Hpos.
  assert (H2 : 2 <= INR n) by (apply (le_INR 2); exact Hn).
  assert (Hs : ols_slope ys = d).
  { rewrite ols_slope_co_spread, Hlen. unfold ys.
    rewrite co_spread_affine. field. lra. }
  assert (Hi : ols_intercept ys = a).
  { unfold ols_intercept. rewrite Hs, Hlen. unfold ys.
    rewrite Rsum_affine, positions_length. field. lra. }
  split; [exact Hs |]. split; [exact Hi |].
  unfold mean_squared_residual. rewrite Hs, Hi, Hlen. unfold ys.
  rewrite residuals_on_line. unfold Rdiv. apply Rmult_0_l.
Qed.

Section ForecastValue.
Import Predictions.

(** The whole result of a forecast on two or more finite values. *)
Lemma generateTrendPredictions_value (ys : list R) (h : Z) (c : number) :
  (2 <= length ys)%nat ->
  let s := ols_slope ys in
  let c0 := ols_intercept ys in
  let margin := 196 / 100 * sqrt (mean_squared_residual ys) in
  generateTrendPredictions {| series := Some (map Fin ys) |} h c
  = Ok {| values :=
            map (fun i => Fin (s * (INR (length ys) + IZR i) + c0))
                (Zrange 1 (h + 1));
          confidenceBand :=
            map (fun i =>
                   {| lower := Fin (s * (INR (length ys) + IZR i) + c0 - margin);
                      upper := Fin (s * (INR (length ys) + IZR i) + c0 + margin) |})
                (Zrange 1 (h + 1));
          trend :=
            {| slope := Fin s;
               intercept := Fin c0;
               direction := if Rlt_b 0 s then "increasing" else "decreasing";
               strength := Fin (Rabs s) |} |}.
Proof.
  intros Hn s c0 margin. unfold generateTrendPredictions. cbn [series].
  rewrite length_map.
  replace (length ys <? 2)%nat with false
    by (symmetry; apply Nat.ltb_ge; exact Hn).
  rewrite observed_positions, calculateSlope_ols by exact Hn.
  rewrite calculateIntercept_ols by exact Hn.
  change (Rsum ys / INR (length ys)
          - ols_slope ys * (Rsum (positions (length ys)) / INR (length ys)))
    with (ols_intercept ys).
  rewrite calculateMSE_residual by exact Hn.
  change (Rsum (map (fun p => (snd p
                               - (ols_slope ys * fst p + ols_intercept ys)) ^ 2)
                    (combine (positions (length ys)) ys)) / INR (length ys))
    with (mean_squared_residual ys).
  pose proof (mean_squared_residual_nonneg ys Hn) as Hmsr.
  unfold Math_sqrt. rewrite Rlt_b_false by lra.
  rewrite !map_map. cbn [fst snd jmul jadd jsub Math_abs jgt jlt].
  f_equal. f_equal.
  - apply map_ext. intros i. unfold of_Z. cbn [jmul jadd]. apply Fin_eq.
    rewrite plus_IZR, <- INR_IZR_INZ. reflexivity.
  - apply map_ext. intros i. unfold of_Z. cbn [jmul jadd jsub].
    rewrite plus_IZR, <- INR_IZR_INZ. reflexivity.
Qed.

(** The forecast of a series on a line, in exact arithmetic. *)
Lemma forecast_of_real_line (a d : R) (n : nat) (h i : Z)
    (confidence : number) :
  (2 <= n)%nat -> (1 <= i <= h)%Z ->
  let ys := map (fun x => a + d * x) (positions n) in
  exists r,
    generateTrendPredictions {| series := Some (map Fin ys) |} h confidence
    = Ok r
    /\ nth_error (values r) (Z.to_nat (i - 1))
       = Some (Fin (a + d * (INR n + IZR i)))
    /\ nth_error (confidenceBand r) (Z.to_nat (i - 1))
       = Some {| lower := Fin (a + d * (INR n + IZR i));
                 upper := Fin (a + d * (INR n + IZR i)) |}
    /\ slope (trend r) = Fin d
    /\ intercept (trend r) = Fin a
    /\ direction (trend r)
       = (if Rlt_b 0 d then "increasing" else "decreasing")%string.
Proof.
  intros Hn Hi ys.
  assert (Hlen : length ys = n)
    by (unfold ys; rewrite length_map; apply positions_length).
  destruct (line_fit a d n Hn) as (Hs & Hc & Hm). fold ys in Hs, Hc, Hm.
  rewrite generateTrendPredictions_value by (rewrite Hlen; exact Hn).
  rewrite Hs, Hc, Hm, Hlen, sqrt_0.
  eexists. split; [reflexivity |].
  cbn [values confidenceBand trend slope intercept direction].
  rewrite !nth_error_map, (nth_error_Zrange 1 (h + 1) i) by lia.
  cbn [option_map].
  split; [f_equal; apply Fin_eq; ring |].
  split; [| repeat split; reflexivity].
  f_equal. f_equal; apply Fin_eq; ring.
Qed.

(** X12.  A series of two to a thousand values that lies on the line [a + d x]
    at the positions [x = 1 .. n], with whole [a] and [d] of absolute value at
    most a thousand, is forecast by that line up to a horizon of a million:
    prediction [i] is [a + d (n + i)], its confidence band has no width, the
    trend reports slope [d] and intercept [a], and the direction is
    increasing for [d > 0] and decreasing otherwise, also for a flat
    series. *)
Theorem forecast_of_whole_line (a d : Z) (n : nat) (h i : Z)
    (confidence : number) :
  (Z.abs a <= 10 ^ 3)%Z -> (Z.abs d <= 10 ^ 3)%Z ->
  (2 <= n)%nat -> (Z.of_nat n <= 10 ^ 3)%Z ->
  (1 <= i <= h)%Z -> (h <= 10 ^ 6)%Z ->
  let ys := map (fun x => of_Z (a + d * Z.of_nat x)) (seq 1 n) in
  exists r,
    generateTrendPredictions {| series := Some ys |} h confidence = Ok r
    /\ nth_error (values r) (Z.to_nat (i - 1))
       = Some (of_Z (a + d * (Z.of_nat n + i)))
    /\ nth_error (confidenceBand r) (Z.to_nat (i - 1))
       = Some {| lower := of_Z (a + d * (Z.of_nat n + i));
                 upper := of_Z (a + d * (Z.of_nat n + i)) |}
    /\ slope (trend r) = of_Z d
    /\ intercept (trend r) = of_Z a
    /\ direction (trend r)
       = (if (0 <? d)%Z then "increasing" else "decreasing")%string.
Proof.
  intros _ _ Hn _ Hi _ ys.
  assert (Hdata : ys = map Fin (map (fun x => IZR a + IZR d * x) (positions n))).
  { unfold ys, positions. rewrite !map_map, <- seq_shift, map_map.
    apply map_ext. intros k. unfold of_Z.
    rewrite plus_IZR, mult_IZR, <- INR_IZR_INZ. reflexivity. }
  destruct (forecast_of_real_line (IZR a) (IZR d) n h i confidence Hn Hi)
    as (r & Hr & Hv & Hb & Hs & Hc & Hdir).
  exists r. rewrite Hdata.
  assert (Hval : Fin (IZR a + IZR d * (INR n + IZR i))
                 = of_Z (a + d * (Z.of_nat n + i))).
  { unfold of_Z. rewrite plus_IZR, mult_IZR, plus_IZR, <- INR_IZR_INZ.
    reflexivity. }
  rewrite Hval in Hv, Hb.
  split; [exact Hr |]. split; [exact Hv |]. split; [exact Hb |].
  split; [exact Hs |]. split; [exact Hc |].
  rewrite Hdir.
  destruct (Z.ltb_spec 0 d) as [Hpos | Hle].
  - rewrite Rlt_b_true; [reflexivity |]. apply (IZR_lt 0 d). exact Hpos.
  - rewrite Rlt_b_false; [reflexivity |].
    apply Rle_not_lt. apply (IZR_le d 0). exact Hle.
Qed.

Lemma forecast_sample :
  let ys := map (fun x => of_Z (90 + 10 * Z.of_nat x)) (seq 1 4) in
  exists r,
    generateTrendPredictions {| series := Some ys |} 3 (Fin (95 / 100)) = Ok r
    /\ nth_error (values r) (Z.to_nat (2 - 1))
       = Some (of_Z (90 + 10 * (Z.of_nat 4 + 2)))
    /\ nth_error (confidenceBand r) (Z.to_nat (2 - 1))
       = Some {| lower := of_Z (90 + 10 * (Z.of_nat 4 + 2));
                 upper := of_Z (90 + 10 * (Z.of_nat 4 + 2)) |}
    /\ slope (trend r) = of_Z 10
    /\ intercept (trend r) = of_Z 90
    /\ direction (trend r)
       = (if (0 <? 10)%Z then "increasing" else "decreasing")%string.
Proof.
  apply (forecast_of_whole_line 90 10 4 3 2 (Fin (95 / 100))); simpl; lia.
Defined.

(** X13.  Both forecast builders throw 'Insufficient data for trend
    prediction' exactly when the series has fewer than two values (a missing
    series counts as empty). Otherwise the comprehensive forecast wraps the
    trend forecast, unchanged, with the accuracy and reliability estimates,
    and predictions and bands have one entry per step of the horizon (none for
    a horizon below 1). *)
Theorem prediction_needs_two_values (data : seriesData) (h : Z)
    (confidence : number) :
  let n := length (match series data with Some v => v | None => [] end) in
  if (n <? 2)%nat
  then generateTrendPredictions data h confidence
       = Throw "Insufficient data for trend prediction"
       /\ generateComprehensivePredictions data h confidence
          = Throw "Insufficient data for trend prediction"
  else exists t,
         generateTrendPredictions data h confidence = Ok t
         /\ generateComprehensivePredictions data h confidence
            = Ok {| method := "comprehensive";
                    comprehensive_trend := t;
                    accuracy := estimateAccuracy data;
                    reliability := assessReliability data h |}
         /\ length (values t) = Z.to_nat h
         /\ length (confidenceBand t) = Z.to_nat h.
Proof.
  intros n. unfold generateComprehensivePredictions, generateTrendPredictions.
  fold n. destruct (n <? 2)%nat.
  - split; reflexivity.
  - eexists. split; [reflexivity |]. split; [reflexivity |].
    cbn [values confidenceBand]. rewrite !length_map.
    unfold Zrange. rewrite length_map, length_seq. split; f_equal; lia.
Qed.

End ForecastValue.

(** ** Skewness and kurtosis *)

Lemma varied_spread (xs : list R) : varied xs -> 0 < spread xs.
Proof.
  intros (a & b & Ha & Hb & Hab).
  pose proof (spread_nonneg xs) as H0.
  destruct (Req_dec_T (spread xs) 0) as [E | E]; [| lra].
  exfalso. apply Hab. exact (proj1 (spread_zero_constant xs) E a b Ha Hb).
Qed.

Lemma varied_length (xs : list R) : varied xs -> (2 <= length xs)%nat.
Proof.
  intros (a & b & Ha & Hb & Hab).
  destruct xs as [| x [| y xs]]; simpl; try lia.
  - destruct Ha.
  - destruct Ha as [<- | []]. destruct Hb as [<- | []]. congruence.
Qed.

Section Shape.
Import DataAnalyzer.

Lemma fold_powers_of_scores (k : nat) (m s : R) (xs : list R) (acc : R) :
  s <> 0 ->
  fold_left
    (fun sum x => jadd sum (Math_pow (jdiv (jsub x (Fin m)) (Fin s)) (S k)))
    (map Fin xs) (Fin acc)
  = Fin (acc + Rsum (map (fun x => ((x - m) / s) ^ S k) xs)).
Proof.
  intros Hs. revert acc. induction xs as [| x xs IH]; intros acc.
  - simpl. apply Fin_eq. lra.
  - cbn [map fold_left jsub jdiv]. rewrite (Req_b_false s 0) by exact Hs.
    cbn [Math_pow jadd]. rewrite IH. apply Fin_eq.
    cbn [Rsum fold_right]. change (fold_right Rplus 0) with Rsum. ring.
Qed.

Lemma standardDeviation_varied (xs : list R) :
  varied xs ->
  let n := INR (length xs) in
  standardDeviation (map Fin xs) = Fin (sqrt (spread xs / (n * (n - 1))))
  /\ 0 < sqrt (spread xs / (n * (n - 1))).
Proof.
  intros Hv n.
  pose proof (varied_spread xs Hv) as Hs.
  pose proof (varied_length xs Hv) as Hn.
  assert (H2 : 2 <= n) by (apply (le_INR 2); exact Hn).
  assert (Hv0 : 0 < spread xs / (n * (n - 1))).
  { apply Rdiv_lt_0_compat; [exact Hs | nra]. }
  unfold standardDeviation. rewrite variance_Fin by exact Hn. fold n.
  unfold Math_sqrt. rewrite Rlt_b_false by lra.
  split; [reflexivity | apply sqrt_lt_R0; exact Hv0].
Qed.

Lemma skewness_of_scores (xs : list R) :
  varied xs ->
  let n := of_nat (length xs) in
  skewness (map Fin xs)
  = jmul (jdiv n (jmul (jsub n (Fin 1)) (jsub n (Fin 2))))
         (Fin (Rsum (map (fun z => z ^ 3) (standard_scores xs)))).
Proof.
  intros Hv n. unfold skewness.
  destruct (standardDeviation_varied xs Hv) as [-> Hpos].
  pose proof (varied_length xs Hv) as Hn.
  rewrite mean_Fin by (destruct xs; [simpl in Hn; lia | congruence]).
  rewrite fold_powers_of_scores by lra.
  rewrite length_map. fold n. f_equal. apply Fin_eq.
  unfold standard_scores. rewrite map_map, Rplus_0_l. reflexivity.
Qed.

Lemma kurtosis_of_scores (xs : list R) :
  varied xs ->
  let n := of_nat (length xs) in
  kurtosis (map Fin xs)
  = jsub
      (jmul (jdiv (jmul n (jadd n (Fin 1)))
                  (jmul (jmul (jsub n (Fin 1)) (jsub n (Fin 2)))
                        (jsub n (Fin 3))))
            (Fin (Rsum (map (fun z => z ^ 4) (standard_scores xs)))))
      (jdiv (jmul (Fin 3) (Math_pow (jsub n (Fin 1)) 2))
            (jmul (jsub n (Fin 2)) (jsub n (Fin 3)))).
Proof.
  intros Hv n. unfold kurtosis.
  destruct (standardDeviation_varied xs Hv) as [-> Hpos].
  pose proof (varied_length xs Hv) as Hn.
  rewrite mean_Fin by (destruct xs; [simpl in Hn; lia | congruence]).
  rewrite fold_powers_of_scores by lra.
  rewrite length_map. fold n. f_equal. f_equal. apply Fin_eq.
  unfold standard_scores. rewrite map_map, Rplus_0_l. reflexivity.
Qed.

Lemma constant_deviation (xs : list R) :
  (2 <= length xs)%nat -> ~ varied xs ->
  standardDeviation (map Fin xs) = Fin 0.
Proof.
  intros Hn Hc. unfold standardDeviation. rewrite variance_Fin by exact Hn.
  assert (E : spread xs = 0).
  { apply spread_zero_constant. intros a b Ha Hb.
    destruct (Req_dec_T a b) as [E | E]; [exact E |].
    exfalso. apply Hc. exists a, b. auto. }
  rewrite E. unfold Rdiv. rewrite Rmult_0_l. unfold Math_sqrt.
  rewrite Rlt_b_false by lra. rewrite sqrt_0. reflexivity.
Qed.

(** On an empty sample both loops run zero times and the factors are
    finite: the results are the numbers [0] and [-1/2]. *)
Lemma shape_of_nothing :
  skewness [] = Fin 0 /\ kurtosis [] = Fin (- (1 / 2)).
Proof.
  unfold skewness, kurtosis, standardDeviation, variance, mean, sum.
  simpl. unfold of_nat. simpl.
  rewrite (Req_b_false ((0 - 1) * (0 - 2)) 0) by lra.
  rewrite (Req_b_false ((0 - 1) * (0 - 2) * (0 - 3)) 0) by lra.
  rewrite (Req_b_false ((0 - 2) * (0 - 3)) 0) by lra.
  simpl. split; apply Fin_eq; field.
Qed.

(** When the skewness and the kurtosis are finite, and their values, in
    exact arithmetic. *)
Lemma shape_of_reals (xs : list R) :
  xs <> [] ->
  let n := INR (length xs) in
  let z := standard_scores xs in
  (isFinite (skewness (map Fin xs)) = true
   <-> (3 <= length xs)%nat /\ varied xs)
  /\ (isFinite (kurtosis (map Fin xs)) = true
      <-> (4 <= length xs)%nat /\ varied xs)
  /\ ((3 <= length xs)%nat -> varied xs ->
      skewness (map Fin xs)
      = Fin (n / ((n - 1) * (n - 2)) * Rsum (map (fun z => z ^ 3) z)))
  /\ ((4 <= length xs)%nat -> varied xs ->
      kurtosis (map Fin xs)
      = Fin (n * (n + 1) / ((n - 1) * (n - 2) * (n - 3))
               * Rsum (map (fun z => z ^ 4) z)
             - 3 * (n - 1) ^ 2 / ((n - 2) * (n - 3)))).
Proof.
  intros Hxs n z.
  assert (Hne : map Fin xs <> []) by (destruct xs; [congruence | discriminate]).
  assert (Hs : (3 <= length xs)%nat -> varied xs ->
               skewness (map Fin xs)
               = Fin (n / ((n - 1) * (n - 2)) * Rsum (map (fun z => z ^ 3) z))).
  { intros Hn Hv. rewrite skewness_of_scores by exact Hv.
    rewrite of_nat_INR. fold n. fold z.
    assert (H3 : 3 <= n)
      by (pose proof (le_INR _ _ Hn) as H; simpl in H; unfold n; lra).
    cbn [jsub jmul jdiv].
    rewrite (Req_b_false ((n - 1) * (n - 2)) 0) by nra.
    cbn [jmul]. reflexivity. }
  assert (Hk : (4 <= length xs)%nat -> varied xs ->
               kurtosis (map Fin xs)
               = Fin (n * (n + 1) / ((n - 1) * (n - 2) * (n - 3))
                        * Rsum (map (fun z => z ^ 4) z)
                      - 3 * (n - 1) ^ 2 / ((n - 2) * (n - 3)))).
  { intros Hn Hv. rewrite kurtosis_of_scores by exact Hv.
    rewrite of_nat_INR. fold n. fold z.
    assert (H4 : 4 <= n)
      by (pose proof (le_INR _ _ Hn) as H; simpl in H; unfold n; lra).
    cbn [jsub jmul jdiv jadd Math_pow].
    rewrite (Req_b_false ((n - 1) * (n - 2) * (n - 3)) 0)
      by (apply Rmult_integral_contrapositive_currified; nra).
    rewrite (Req_b_false ((n - 2) * (n - 3)) 0) by nra.
    cbn [jmul jsub]. reflexivity. }
  split; [| split; [| split; [exact Hs | exact Hk]]].
  - split.
    + intros Hfin.
      destruct (le_lt_dec 3 (length xs)) as [Hn | Hn].
      * split; [exact Hn |].
        destruct (classic (varied xs)) as [Hv | Hc]; [exact Hv |].
        rewrite (skewness_not_finite (map Fin xs) Hne) in Hfin;
          [discriminate |].
        left. apply constant_deviation; [lia | exact Hc].
      * rewrite (skewness_not_finite (map Fin xs) Hne) in Hfin;
          [discriminate |].
        right. rewrite length_map. exact Hn.
    + intros [Hn Hv]. rewrite Hs by assumption. reflexivity.
  - split.
    + intros Hfin.
      destruct (le_lt_dec 4 (length xs)) as [Hn | Hn].
      * split; [exact Hn |].
        destruct (classic (varied xs)) as [Hv | Hc]; [exact Hv |].
        rewrite (kurtosis_not_finite (map Fin xs) Hne) in Hfin;
          [discriminate |].
        left. apply constant_deviation; [lia | exact Hc].
      * rewrite (kurtosis_not_finite (map Fin xs) Hne) in Hfin;
          [discriminate |].
        right. rewrite length_map. exact Hn.
    + intros [Hn Hv]. rewrite Hk by assumption. reflexivity.
Qed.

(** X14.  For a non-empty column of whole numbers, at most a million of them
    and none above [10 ^ 9] in absolute value, the skewness is a finite number
    exactly when the column has three or more values, two of them different,
    and the kurtosis exactly when it has four or more, two of them
    different. *)
Theorem shape_of_whole_numbers (zs : list Z) :
  whole_sample (10 ^ 6) (10 ^ 9) zs -> zs <> [] ->
  (isFinite (skewness (map of_Z zs)) = true
   <-> (3 <= length zs)%nat /\ exists a b, In a zs /\ In b zs /\ a <> b)
  /\ (isFinite (kurtosis (map of_Z zs)) = true
      <-> (4 <= length zs)%nat /\ exists a b, In a zs /\ In b zs /\ a <> b).
Proof.
  intros _ Hne. rewrite whole_as_reals.
  destruct (shape_of_reals (map IZR zs) (whole_nonempty zs Hne))
    as (Hs & Hk & _).
  rewrite length_map, varied_whole in Hs, Hk. split; assumption.
Qed.

Lemma shape_of_whole_numbers_sample :
  isFinite (skewness (map of_Z [1; 2; 4; 8]%Z)) = true
  /\ isFinite (kurtosis (map of_Z [1; 2; 4; 8]%Z)) = true.
Proof.
  destruct (shape_of_whole_numbers [1; 2; 4; 8]%Z) as (Hs & Hk);
    [split; [simpl; lia | repeat constructor; simpl; lia] | discriminate |].
  assert (Hv : exists a b : Z,
             In a [1; 2; 4; 8]%Z /\ In b [1; 2; 4; 8]%Z /\ a <> b).
  { exists 1%Z, 2%Z. simpl. split; [auto |]. split; [auto | lia]. }
  split; [apply Hs | apply Hk]; (split; [simpl; lia | exact Hv]).
Defined.

End Shape.

(** ** Shape statistics of short and of constant columns *)

Section ShapeOfShortColumns.
Import DataAnalyzer.










(** Beside whole numbers a constant column need not have the standard
    deviation 0 in the program: in binary64 the mean of [0.1, 0.1, 0.1] is
    0.10000000000000002, so every value lies off the mean, whereas the mean
    of [5, 5, 5, 5] is 5. *)
Remark mean_of_constant_column_in_binary64 :
  Binary64.mean [0.1; 0.1; 0.1]%float = 0.10000000000000002%float
  /\ PrimFloat.eqb (PrimFloat.sub 0.1 (Binary64.mean [0.1; 0.1; 0.1]))%float
                   0%float
     = false
  /\ Binary64.mean [5; 5; 5; 5]%float = 5%float.
Proof. repeat split; vm_compute; reflexivity. Qed.

End ShapeOfShortColumns.


(** ** Volatility *)

Lemma growth_rates_length (ys : list R) :
  length (growth_rates ys) = (length ys - 1)%nat.
Proof.
  induction ys as [| y [| y' ys] IH]; try reflexivity.
  change (growth_rates (y :: y' :: ys))
    with ((y' - y) / y :: growth_rates (y' :: ys)).
  cbn [length] in *. rewrite IH. lia.
Qed.

Section Volatility.
Import DataAnalyzer.

Lemma period_returns_step (previous current : number) (rest : list number) :
  period_returns (previous :: current :: rest)
  = if strict_neq previous (Fin 0)
    then jdiv (jsub current previous) previous
         :: period_returns (current :: rest)
    else period_returns (current :: rest).
Proof. reflexivity. Qed.

Lemma period_returns_nonzero (ys : list R) :
  Forall (fun y => y <> 0) ys ->
  period_returns (map Fin ys) = map Fin (growth_rates ys).
Proof.
  induction 1 as [| y ys Hy Hys IH]; [reflexivity |].
  destruct ys as [| y' ys]; [reflexivity |].
  change (growth_rates (y :: y' :: ys))
    with ((y' - y) / y :: growth_rates (y' :: ys)).
  cbn [map] in *. rewrite period_returns_step.
  unfold strict_neq, strict_eq. rewrite (Req_b_false y 0) by exact Hy.
  cbn [negb jsub jdiv]. rewrite (Req_b_false y 0) by exact Hy.
  rewrite IH. reflexivity.
Qed.

(** The volatility of a series without zeros, in exact arithmetic. *)
Lemma volatility_of_reals (ys : list R) :
  Forall (fun y => y <> 0) ys -> (3 <= length ys)%nat ->
  exists s,
    calculateVolatility (map Fin ys) = Fin s
    /\ 0 <= s
    /\ (s = 0 <->
        forall a b, In a (growth_rates ys) -> In b (growth_rates ys) -> a = b).
Proof.
  intros Hnz Hn. unfold calculateVolatility. rewrite length_map.
  replace (length ys <? 2)%nat with false
    by (symmetry; apply Nat.ltb_ge; lia).
  rewrite period_returns_nonzero by exact Hnz.
  assert (Hk : (2 <= length (growth_rates ys))%nat)
    by (rewrite growth_rates_length; lia).
  rewrite (standardDeviation_Fin _ Hk).
  destruct (variance_ratio _ Hk) as (_ & _ & Hz).
  eexists. split; [reflexivity |].
  split; [apply sqrt_pos | exact Hz].
Qed.

Lemma growth_rates_of_constant (c : R) (n : nat) (r : R) :
  c <> 0 -> In r (growth_rates (repeat c n)) -> r = 0.
Proof.
  intros Hc. induction n as [| n IH]; [intros [] |].
  destruct n as [| n]; [intros [] |].
  change (growth_rates (repeat c (S (S n))))
    with ((c - c) / c :: growth_rates (repeat c (S n))).
  intros [<- | H]; [field; exact Hc | apply IH; exact H].
Qed.

Lemma constant_list {A : Type} (l : list A) (c : A) :
  (forall a, In a l -> a = c) -> l = repeat c (length l).
Proof.
  induction l as [| x l IH]; intros H; [reflexivity |].
  cbn [length repeat]. rewrite (H x (or_introl eq_refl)). f_equal.
  apply IH. intros a Ha. apply H. right. exact Ha.
Qed.

(** X16.  For a series of three or more whole numbers, none of them zero, at
    most a million of them and none above [10 ^ 9] in absolute value, the
    volatility is a finite number that is not negative, and it is zero when
    all the values are equal. *)
Theorem volatility_of_whole_numbers (zs : list Z) :
  whole_sample (10 ^ 6) (10 ^ 9) zs ->
  Forall (fun z => z <> 0%Z) zs -> (3 <= length zs)%nat ->
  exists s,
    calculateVolatility (map of_Z zs) = Fin s
    /\ 0 <= s
    /\ ((forall a b, In a zs -> In b zs -> a = b) -> s = 0).
Proof.
  intros _ Hnz Hn. rewrite whole_as_reals.
  assert (Hnz' : Forall (fun y => y <> 0) (map IZR zs)).
  { apply Forall_forall. intros y Hy.
    destruct (whole_value zs y Hy) as (z & -> & Hz).
    rewrite Forall_forall in Hnz. intros E. apply (Hnz z Hz).
    apply eq_IZR. exact E. }
  assert (Hn' : (3 <= length (map IZR zs))%nat)
    by (rewrite length_map; exact Hn).
  destruct (volatility_of_reals (map IZR zs) Hnz' Hn') as (s & Hs & Hpos & Hz).
  exists s. split; [exact Hs |]. split; [exact Hpos |].
  intros Hconst. apply Hz.
  destruct zs as [| c zs]; [simpl in Hn; lia |].
  assert (Hc : IZR c <> 0).
  { rewrite Forall_forall in Hnz'. apply Hnz'. left. reflexivity. }
  assert (Hrep : map IZR (c :: zs)
                 = repeat (IZR c) (length (map IZR (c :: zs)))).
  { apply constant_list. intros a Ha.
    destruct (whole_value (c :: zs) a Ha) as (z & -> & Hz').
    f_equal. apply Hconst; [exact Hz' | left; reflexivity]. }
  rewrite Hrep. intros a b Ha Hb.
  rewrite (growth_rates_of_constant _ _ a Hc Ha).
  rewrite (growth_rates_of_constant _ _ b Hc Hb). reflexivity.
Qed.

Lemma volatility_sample :
  exists s,
    calculateVolatility (map of_Z [100; 110; 99]%Z) = Fin s
    /\ 0 <= s
    /\ ((forall a b, In a [100; 110; 99]%Z -> In b [100; 110; 99]%Z -> a = b)
        -> s = 0).
Proof.
  apply (volatility_of_whole_numbers [100; 110; 99]%Z);
    [split; [simpl; lia | repeat constructor; simpl; lia]
    | repeat constructor; lia | simpl; lia].
Defined.

End Volatility.

(** ** Numeric columns *)

Lemma positions_where_cons (test : cell -> bool) (c : cell) (row : list cell)
    (k : nat) :
  positions_where test (c :: row) k
  = if test c then k :: positions_where test row (S k)
    else positions_where test row (S k).
Proof.
  unfold positions_where. cbn [length seq combine filter_map fst snd].
  destruct (test c); reflexivity.
Qed.

Lemma positions_where_spec (test : cell -> bool) (row : list cell) (k i : nat) :
  In i (positions_where test row k)
  <-> (k <= i)%nat
      /\ exists c, nth_error row (i - k) = Some c /\ test c = true.
Proof.
  revert k. induction row as [| c row IH]; intros k.
  - split; [intros [] |]. intros (_ & c & H & _).
    destruct (i - k)%nat; discriminate H.
  - rewrite positions_where_cons. split.
    + intros H.
      assert (Hcase : (test c = true /\ i = k)
                      \/ In i (positions_where test row (S k))).
      { destruct (test c) eqn:E; [| right; exact H].
        destruct H as [<- | H]; [left; split; reflexivity | right; exact H]. }
      destruct Hcase as [[Ht ->] | Hin].
      * split; [lia |]. exists c. rewrite Nat.sub_diag. split; [reflexivity | exact Ht].
      * apply IH in Hin. destruct Hin as (Hle & c' & Hc' & Ht).
        split; [lia |]. exists c'. split; [| exact Ht].
        replace (i - k)%nat with (S (i - S k)) by lia. exact Hc'.
    + intros (Hle & c' & Hc' & Ht).
      destruct (Nat.eq_dec i k) as [-> | Hne].
      * rewrite Nat.sub_diag in Hc'. injection Hc' as <-. rewrite Ht. left. reflexivity.
      * assert (Hin : In i (positions_where test row (S k))).
        { apply IH. split; [lia |]. exists c'. split; [| exact Ht].
          replace (i - k)%nat with (S (i - S k)) in Hc' by lia. exact Hc'. }
        destruct (test c); [right |]; exact Hin.
Qed.

Lemma positions_where_from (test : cell -> bool) (row : list cell) (k : nat) :
  Forall (fun i => (k <= i)%nat) (positions_where test row k).
Proof.
  apply Forall_forall. intros i Hi. apply positions_where_spec in Hi. tauto.
Qed.

Lemma positions_where_sorted (test : cell -> bool) (row : list cell) (k : nat) :
  StronglySorted lt (positions_where test row k).
Proof.
  revert k. induction row as [| c row IH]; intros k; [constructor |].
  rewrite positions_where_cons. destruct (test c); [| apply IH].
  constructor; [apply IH |].
  eapply Forall_impl; [| apply (positions_where_from test row (S k))].
  intros i Hi. simpl in Hi. lia.
Qed.

Lemma positions_where_length (test : cell -> bool) (row : list cell) (k : nat) :
  length (positions_where test row k) = length (filter test row).
Proof.
  revert k. induction row as [| c row IH]; intros k; [reflexivity |].
  rewrite positions_where_cons. cbn [filter].
  destruct (test c); cbn [length]; rewrite IH; reflexivity.
Qed.

Lemma filter_disjoint_length {A : Type} (f g : A -> bool) (l : list A) :
  (forall a, f a = true -> g a = false) ->
  (length (filter f l) + length (filter g l) <= length l)%nat.
Proof.
  intros H. induction l as [| a l IH]; [simpl; lia |].
  cbn [filter]. destruct (f a) eqn:Ef.
  - rewrite (H a Ef). cbn [length]. lia.
  - destruct (g a); cbn [length]; lia.
Qed.

Section Columns.
Import DataAnalyzer.

Lemma getNumericColumns_positions (values : list (list cell)) :
  getNumericColumns values
  = if (length values <? 2)%nat then []
    else positions_where typeof_number (nth 1 values []) 0.
Proof. reflexivity. Qed.

Lemma count_missing_row (row : list cell) (count : nat) :
  fold_left (fun count cell => if is_missing cell then S count else count)
            row count
  = (count + length (filter is_missing row))%nat.
Proof.
  revert count. induction row as [| c row IH]; intros count; simpl.
  - lia.
  - rewrite IH. destruct (is_missing c); simpl; lia.
Qed.

Lemma count_missing_rows (values : list (list cell)) (count : nat) :
  fold_left
    (fun count row =>
       fold_left (fun count cell => if is_missing cell then S count else count)
                 row count)
    values count
  = (count + length (filter is_missing (concat values)))%nat.
Proof.
  revert count. induction values as [| row values IH]; intros count; simpl.
  - lia.
  - rewrite IH, count_missing_row, filter_app, length_app. lia.
Qed.

Lemma countMissingValues_concat (values : list (list cell)) :
  countMissingValues values = length (filter is_missing (concat values)).
Proof. unfold countMissingValues. rewrite count_missing_rows. reflexivity. Qed.

Lemma cells_of_concat (values : list (list cell)) :
  cells_of values = length (concat values).
Proof.
  induction values as [| row values IH]; [reflexivity |].
  simpl. rewrite length_app, IH. reflexivity.
Qed.

(** X18.  getNumericColumns lists position [i] exactly when the grid has two
    or more rows and the second row holds a number at [i]; the positions come
    in increasing order, each once. *)
Theorem numeric_columns_listed (values : list (list cell)) :
  (forall i,
     In i (getNumericColumns values)
     <-> (2 <= length values)%nat
         /\ exists x, nth_error (nth 1 values []) i = Some (CNum x))
  /\ StronglySorted lt (getNumericColumns values).
Proof.
  rewrite getNumericColumns_positions. split.
  - intros i. destruct (length values <? 2)%nat eqn:Hlen.
    + apply Nat.ltb_lt in Hlen. split; [intros [] | intros [H _]; lia].
    + apply Nat.ltb_ge in Hlen. rewrite positions_where_spec, Nat.sub_0_r.
      split.
      * intros (_ & c & Hc & Ht). split; [exact Hlen |].
        destruct c; try discriminate Ht. exists x. exact Hc.
      * intros (_ & x & Hx). split; [lia |]. exists (CNum x). auto.
  - destruct (length values <? 2)%nat; [constructor |].
    apply positions_where_sorted.
Qed.

(** X19.  In the basic statistics, the numeric and the text columns together
    are at most the cells of the second row; a grid reported to have headers
    has at least one numeric column; a grid of fewer than two rows has no
    header and no column of either kind; and the missing values are at most
    the cells of the grid. *)
Theorem basic_stats_counts (d : selectedData) :
  let s := getBasicStats d in
  let sampleRow := nth 1 (values d) [] in
  (numericColumns s + textColumns s <= length sampleRow)%nat
  /\ numericColumns s = length (filter typeof_number sampleRow)
  /\ (hasHeaders s = true -> (1 <= numericColumns s)%nat)
  /\ ((length (values d) < 2)%nat ->
      hasHeaders s = false /\ numericColumns s = 0%nat /\ textColumns s = 0%nat)
  /\ (missingValues s <= cells_of (values d))%nat.
Proof.
  intros s sampleRow. unfold s, getBasicStats.
  cbn [numericColumns textColumns hasHeaders missingValues].
  unfold getNumericColumnCount, getTextColumnCount, detectHeaders.
  rewrite getNumericColumns_positions.
  assert (Hrow : (length (values d) < 2)%nat -> sampleRow = []).
  { intros H. unfold sampleRow. apply nth_overflow. lia. }
  destruct (length (values d) <? 2)%nat eqn:Hlen.
  - apply Nat.ltb_lt in Hlen. rewrite (Hrow Hlen). cbn [length filter].
    split; [lia |]. split; [reflexivity |]. split; [discriminate |].
    split; [tauto |].
    rewrite countMissingValues_concat, cells_of_concat. apply filter_length_le.
  - apply Nat.ltb_ge in Hlen. fold sampleRow.
    rewrite positions_where_length.
    split.
    { apply filter_disjoint_length. intros c Hc.
      destruct c; try discriminate Hc. reflexivity. }
    split; [reflexivity |]. split.
    { intros H. apply andb_true_iff in H. destruct H as [_ H].
      apply existsb_exists in H. destruct H as (c & Hin & Hc).
      assert (Hf : In c (filter typeof_number sampleRow))
        by (apply filter_In; auto).
      destruct (filter typeof_number sampleRow); [destruct Hf | simpl; lia]. }
    split; [intros H; lia |].
    rewrite countMissingValues_concat, cells_of_concat. apply filter_length_le.
Qed.

End Columns.

Section ColumnNames.
Import DataAnalyzer WhatIfAnalysis.

Lemma named_columns (row : list cell) (k : nat) :
  filter_map
    (fun ci : cell * nat =>
       match numeric_value (fst ci) with
       | Some _ => Some (column_name (snd ci))
       | None => None
       end)
    (combine row (seq k (length row)))
  = map column_name
        (filter (fun i => negb (holds_NaN row (i - k)))
                (positions_where typeof_number row k)).
Proof.
  revert k. induction row as [| c row IH]; intros k; [reflexivity |].
  rewrite positions_where_cons.
  cbn [length seq combine filter_map fst snd].
  assert (Htail :
    filter (fun i => negb (holds_NaN (c :: row) (i - k)))
           (positions_where typeof_number row (S k))
    = filter (fun i => negb (holds_NaN row (i - S k)))
             (positions_where typeof_number row (S k))).
  { apply filter_ext_in. intros i Hi.
    pose proof (positions_where_from typeof_number row (S k)) as Hfrom.
    rewrite Forall_forall in Hfrom. specialize (Hfrom i Hi).
    replace (i - k)%nat with (S (i - S k)) by lia. reflexivity. }
  destruct c as [x | s | b | | | iso]; cbn [numeric_value typeof_number];
    try (rewrite Htail; apply IH).
  cbn [filter]. rewrite Nat.sub_diag. unfold holds_NaN at 1.
  cbn [cell_at nth]. rewrite Htail.
  destruct (isNaN x); cbn [negb map]; rewrite IH; reflexivity.
Qed.

(** X20.  The columns that the what-if analysis modifies are the numeric
    columns of the analyzer whose cell in the second row is not NaN, in the
    same order, each named 'Column ' followed by the character with code 65
    plus its position; so there are never more of them. *)
Theorem what_if_columns_are_numeric_columns (d : selectedData) :
  let sampleRow := nth 1 (values d) [] in
  findNumericColumns d
  = map column_name
        (filter (fun i => negb (holds_NaN sampleRow i))
                (getNumericColumns (values d)))
  /\ (length (findNumericColumns d) <= getNumericColumnCount (values d))%nat.
Proof.
  intros sampleRow.
  assert (E : findNumericColumns d
              = map column_name
                    (filter (fun i => negb (holds_NaN sampleRow i))
                            (getNumericColumns (values d)))).
  { unfold findNumericColumns. rewrite getNumericColumns_positions.
    destruct (length (values d)) as [| [| n]]; try reflexivity.
    cbn [Nat.ltb Nat.leb]. fold sampleRow.
    change (fun ci : cell * nat =>
              match numeric_value (fst ci) with
              | Some _ =>
                  Some (code_units "Column " ++ String_fromCharCode (65 + snd ci))
              | None => None
              end)
      with (fun ci : cell * nat =>
              match numeric_value (fst ci) with
              | Some _ => Some (column_name (snd ci))
              | None => None
              end).
    rewrite named_columns. f_equal. apply filter_ext. intros i.
    rewrite Nat.sub_0_r. reflexivity. }
  split; [exact E |].
  rewrite E, length_map. unfold getNumericColumnCount. apply filter_length_le.
Qed.

End ColumnNames.

(** ** The standard scenario set *)

Section Scenarios.
Import DataAnalyzer WhatIfAnalysis.

Lemma StronglySorted_filter {A : Type} (R : A -> A -> Prop) (f : A -> bool)
    (l : list A) :
  StronglySorted R l -> StronglySorted R (filter f l).
Proof.
  induction 1 as [| a l Hl IH Ha]; cbn [filter]; [constructor |].
  destruct (f a); [| exact IH].
  constructor; [exact IH |].
  apply Forall_forall. intros b Hb. apply filter_In in Hb.
  rewrite Forall_forall in Ha. apply Ha. tauto.
Qed.

(** The numeric columns of the what-if analysis, by position. *)
Lemma findNumericColumns_named (d : selectedData) :
  findNumericColumns d
  = map column_name
        (filter (fun i => negb (holds_NaN (nth 1 (values d) []) i))
                (positions_where typeof_number (nth 1 (values d) []) 0)).
Proof.
  unfold findNumericColumns.
  destruct (length (values d)) as [| [| n]] eqn:Hlen.
  - destruct (values d); [reflexivity | discriminate Hlen].
  - destruct (values d) as [| r [| r' t]];
      [discriminate Hlen | reflexivity | discriminate Hlen].
  - cbn [Nat.ltb Nat.leb].
    change (fun ci : cell * nat =>
              match numeric_value (fst ci) with
              | Some _ =>
                  Some (code_units "Column " ++ String_fromCharCode (65 + snd ci))
              | None => None
              end)
      with (fun ci : cell * nat =>
              match numeric_value (fst ci) with
              | Some _ => Some (column_name (snd ci))
              | None => None
              end).
    rewrite named_columns. f_equal. apply filter_ext. intros i.
    rewrite Nat.sub_0_r. reflexivity.
Qed.

(** The positions kept are those of the numeric columns. *)
Lemma numeric_column_positions (d : selectedData) (i : nat) :
  (2 <= length (values d))%nat ->
  In i (filter (fun i => negb (holds_NaN (nth 1 (values d) []) i))
               (positions_where typeof_number (nth 1 (values d) []) 0))
  <-> numeric_column d i.
Proof.
  intros Hlen. set (row := nth 1 (values d) []).
  rewrite filter_In, positions_where_spec, Nat.sub_0_r.
  unfold numeric_column, holds_NaN, cell_at. fold row. split.
  - intros [(_ & c & Hc & Ht) Hn]. split; [exact Hlen |].
    destruct c as [x | | | | |]; try discriminate Ht.
    exists x. split; [exact Hc |].
    rewrite (nth_error_nth row i CUndefined Hc) in Hn.
    destruct (isNaN x); [discriminate Hn | reflexivity].
  - intros (_ & x & Hc & Hx). split.
    + split; [lia |]. exists (CNum x). split; [exact Hc | reflexivity].
    + rewrite (nth_error_nth row i CUndefined Hc), Hx. reflexivity.
Qed.

Lemma no_numeric_column_of_short_grid (d : selectedData) (i : nat) :
  (length (values d) < 2)%nat -> ~ numeric_column d i.
Proof. intros Hlen [H _]. lia. Qed.

Lemma applies_factor_map (d : selectedData) (s : scenario) (pct factor : Q)
    (chg frm rat : string) :
  modifications s
  = map (fun col => {| column := col; change := chg; formula := frm;
                       rationale := rat |}) (findNumericColumns d) ->
  reads_as (percent_of chg) pct ->
  reads_as (factor_of_formula frm) factor ->
  (factor == 1 + pct)%Q ->
  applies_factor s d chg frm pct factor.
Proof.
  intros Hm Hp Hf Hq. unfold applies_factor. rewrite Hm.
  split; [| split; [| auto]].
  - rewrite map_map. cbn [column]. rewrite map_id.
    destruct (Nat.lt_ge_cases (length (values d)) 2) as [Hshort | Hlong].
    + exists []. split; [constructor |]. split.
      * intros i. split; [intros [] |].
        intros H. exact (no_numeric_column_of_short_grid d i Hshort H).
      * unfold findNumericColumns.
        assert (E : (1 <? length (values d))%nat = false)
          by (apply Nat.ltb_ge; lia).
        rewrite E. reflexivity.
    + exists (filter (fun i => negb (holds_NaN (nth 1 (values d) []) i))
                     (positions_where typeof_number (nth 1 (values d) []) 0)).
      split; [apply StronglySorted_filter, positions_where_sorted |].
      split; [intros i; apply numeric_column_positions; exact Hlong |].
      apply findNumericColumns_named.
  - apply Forall_forall. intros m Hin. apply in_map_iff in Hin.
    destruct Hin as (col & <- & _). split; reflexivity.
Qed.

(** C7.  For every baseline dataset each of the optimistic, pessimistic and
    realistic scenarios modifies every numeric column, and nothing else:
    its modifications name the numeric columns of the dataset, each once
    and in column order.  Every modification of the optimistic scenario is
    written ['+20%'] with the formula ['=ORIGINAL_VALUE * 1.2'], of the
    pessimistic scenario ['-15%'] with ['=ORIGINAL_VALUE * 0.85'], of the
    realistic scenario ['+6%'] with ['=ORIGINAL_VALUE * 1.06']: the
    multipliers are exactly 12/10, 85/100 and 106/100.  The scenarios are
    tagged ['25%'], ['15%'] and ['60%'], and these weights add up to 1. *)
Theorem standard_scenarios (d : selectedData) :
  let s := generateScenarios d in
  applies_factor (optimistic s) d "+20%" "=ORIGINAL_VALUE * 1.2"
                 (20 # 100) (12 # 10)
  /\ applies_factor (pessimistic s) d "-15%" "=ORIGINAL_VALUE * 0.85"
                    (- 15 # 100) (85 # 100)
  /\ applies_factor (realistic s) d "+6%" "=ORIGINAL_VALUE * 1.06"
                    (6 # 100) (106 # 100)
  /\ probability (optimistic s) = "25%"%string
  /\ probability (pessimistic s) = "15%"%string
  /\ probability (realistic s) = "60%"%string
  /\ reads_as (percent_of (probability (optimistic s))) (25 # 100)
  /\ reads_as (percent_of (probability (pessimistic s))) (15 # 100)
  /\ reads_as (percent_of (probability (realistic s))) (60 # 100)
  /\ (weight (optimistic s) + weight (pessimistic s) + weight (realistic s)
      == 1)%Q.
Proof.
  cbn zeta.
  split; [eapply applies_factor_map; [reflexivity | vm_compute; reflexivity ..] |].
  split; [eapply applies_factor_map; [reflexivity | vm_compute; reflexivity ..] |].
  split; [eapply applies_factor_map; [reflexivity | vm_compute; reflexivity ..] |].
  repeat split; vm_compute; reflexivity.
Qed.

(** The scenarios of the sales grid modify its two columns, A and B. *)
Lemma scenarios_of_sales_grid :
  numeric_column sales_sample 0 /\ numeric_column sales_sample 1
  /\ modifications (optimistic (generateScenarios sales_sample))
     = [ {| column := column_name 0; change := "+20%";
            formula := "=ORIGINAL_VALUE * 1.2";
            rationale := "Optimistic growth projection" |};
         {| column := column_name 1; change := "+20%";
            formula := "=ORIGINAL_VALUE * 1.2";
            rationale := "Optimistic growth projection" |} ]
  /\ map formula (modifications (pessimistic (generateScenarios sales_sample)))
     = [ "=ORIGINAL_VALUE * 0.85"%string; "=ORIGINAL_VALUE * 0.85"%string ]
  /\ map formula (modifications (realistic (generateScenarios sales_sample)))
     = [ "=ORIGINAL_VALUE * 1.06"%string; "=ORIGINAL_VALUE * 1.06"%string ].
Proof.
  split; [| split].
  - split; [simpl; lia |]. exists (Fin 1). split; reflexivity.
  - split; [simpl; lia |]. exists (Fin 100). split; reflexivity.
  - repeat split; reflexivity.
Qed.

End Scenarios.


(** ** Data types *)

Section DataTypes.
Import DataAnalyzer.

Lemma Set_add_spec (types : list string) (t : string) :
  NoDup types ->
  NoDup (Set_add types t)
  /\ forall u, In u (Set_add types t) <-> In u types \/ u = t.
Proof.
  intros Hnd. unfold Set_add. destruct (existsb (String.eqb t) types) eqn:E.
  - split; [exact Hnd |]. intros u. split; [auto |].
    intros [H | ->]; [exact H |].
    apply existsb_exists in E. destruct E as (x & Hx & Ex).
    apply String.eqb_eq in Ex. subst x. exact Hx.
  - assert (Hnot : ~ In t types).
    { intros H. assert (existsb (String.eqb t) types = true).
      { apply existsb_exists. exists t. split; [exact H | apply String.eqb_refl]. }
      congruence. }
    split.
    + apply NoDup_app; [exact Hnd | repeat constructor; simpl; tauto |].
      intros y Hy [<- | []]. exact (Hnot Hy).
    + intros u. rewrite in_app_iff. simpl. split.
      * intros [H | [<- | []]]; auto.
      * intros [H | ->]; auto.
Qed.

Lemma row_types (row : list cell) (types : list string) :
  NoDup types ->
  let types' :=
    fold_left (fun types cell =>
                 match type_tag cell with
                 | Some t => Set_add types t
                 | None => types
                 end) row types in
  NoDup types'
  /\ forall u, In u types'
               <-> In u types \/ exists c, In c row /\ type_tag c = Some u.
Proof.
  revert types. induction row as [| c row IH]; intros types Hnd; cbn [fold_left].
  - split; [exact Hnd |]. intros u. split; [auto |].
    intros [H | (c & [] & _)]. exact H.
  - destruct (type_tag c) as [t |] eqn:Et.
    + destruct (Set_add_spec types t Hnd) as [Hnd' Hin'].
      destruct (IH _ Hnd') as [H1 H2]. split; [exact H1 |].
      intros u. rewrite H2, Hin'. split.
      * intros [[H | ->] | (c' & Hc' & Ht)].
        -- left. exact H.
        -- right. exists c. split; [left; reflexivity | exact Et].
        -- right. exists c'. split; [right; exact Hc' | exact Ht].
      * intros [H | (c' & [<- | Hc'] & Ht)].
        -- left. left. exact H.
        -- left. right. congruence.
        -- right. exists c'. auto.
    + destruct (IH _ Hnd) as [H1 H2]. split; [exact H1 |].
      intros u. rewrite H2. split.
      * intros [H | (c' & Hc' & Ht)]; [left; exact H |].
        right. exists c'. split; [right; exact Hc' | exact Ht].
      * intros [H | (c' & [<- | Hc'] & Ht)]; [left; exact H | congruence |].
        right. exists c'. auto.
Qed.

Lemma grid_types (values : list (list cell)) (types : list string) :
  NoDup types ->
  let types' :=
    fold_left
      (fun types row =>
         fold_left (fun types cell =>
                      match type_tag cell with
                      | Some t => Set_add types t
                      | None => types
                      end) row types)
      values types in
  NoDup types'
  /\ forall u, In u types'
               <-> In u types
                   \/ exists row c, In row values /\ In c row
                                    /\ type_tag c = Some u.
Proof.
  revert types. induction values as [| row values IH]; intros types Hnd;
    cbn [fold_left].
  - split; [exact Hnd |]. intros u. split; [auto |].
    intros [H | (row & c & [] & _)]. exact H.
  - destruct (row_types row types Hnd) as [Hnd' Hin'].
    destruct (IH _ Hnd') as [H1 H2]. split; [exact H1 |].
    intros u. rewrite H2, Hin'. split.
    + intros [[H | (c & Hc & Ht)] | (row' & c & Hrow & Hc & Ht)].
      * left. exact H.
      * right. exists row, c. split; [left; reflexivity | auto].
      * right. exists row', c. split; [right; exact Hrow | auto].
    + intros [H | (row' & c & [<- | Hrow] & Hc & Ht)].
      * left. left. exact H.
      * left. right. exists c. auto.
      * right. exists row', c. auto.
Qed.

(** X21.  The data types of the basic statistics hold no entry twice and only
    the entries number, text, date and empty; number is listed exactly when
    some cell of the grid is a number, text exactly when some cell is a
    string, date exactly when some cell is a Date object, and empty exactly
    when some cell is null or undefined.  Boolean cells add nothing. *)
Theorem data_types_present (values : list (list cell)) :
  let types := analyzeDataTypes values in
  NoDup types
  /\ (forall t, In t types
                -> t = "number"%string \/ t = "text"%string
                   \/ t = "date"%string \/ t = "empty"%string)
  /\ (In "number"%string types
      <-> exists row x, In row values /\ In (CNum x) row)
  /\ (In "text"%string types
      <-> exists row s, In row values /\ In (CStr s) row)
  /\ (In "date"%string types
      <-> exists row iso, In row values /\ In (CDate iso) row)
  /\ (In "empty"%string types
      <-> exists row, In row values /\ (In CNull row \/ In CUndefined row)).
Proof.
  intros types. unfold types, analyzeDataTypes.
  destruct (grid_types values [] (NoDup_nil _)) as [Hnd Hin]. cbv zeta in Hnd, Hin.
  split; [exact Hnd |]. split; [| split; [| split; [| split]]].
  - intros t Ht. apply Hin in Ht. destruct Ht as [[] | (row & c & _ & _ & Ht)].
    destruct c; simpl in Ht; try discriminate Ht; injection Ht as <-; auto.
  - rewrite Hin. split.
    + intros [[] | (row & c & Hrow & Hc & Ht)].
      destruct c; simpl in Ht; try discriminate Ht. exists row, x. auto.
    + intros (row & x & Hrow & Hx). right. exists row, (CNum x). auto.
  - rewrite Hin. split.
    + intros [[] | (row & c & Hrow & Hc & Ht)].
      destruct c; simpl in Ht; try discriminate Ht. exists row, s. auto.
    + intros (row & s & Hrow & Hs). right. exists row, (CStr s). auto.
  - rewrite Hin. split.
    + intros [[] | (row & c & Hrow & Hc & Ht)].
      destruct c; simpl in Ht; try discriminate Ht. exists row, iso. auto.
    + intros (row & iso & Hrow & Hs). right. exists row, (CDate iso). auto.
  - rewrite Hin. split.
    + intros [[] | (row & c & Hrow & Hc & Ht)].
      destruct c; simpl in Ht; try discriminate Ht; exists row; auto.
    + intros (row & Hrow & [Hc | Hc]); right;
        [exists row, CNull | exists row, CUndefined]; auto.
Qed.
End DataTypes.

(** ** Data quality *)

Lemma Set_of_length (rows seen : list (list json_atom)) :
  (length seen <= length (Set_of rows seen) <= length seen + length rows)%nat.
Proof.
  revert seen. induction rows as [| r rows IH]; intros seen; simpl.
  - lia.
  - destruct (existsb (same_text r) seen).
    + specialize (IH seen). lia.
    + specialize (IH (seen ++ [r])). rewrite length_app in IH. simpl in IH. lia.
Qed.

Lemma Set_of_inhabited (r : list json_atom) (rows : list (list json_atom)) :
  (1 <= length (Set_of (r :: rows) []))%nat.
Proof.
  simpl. pose proof (Set_of_length rows [r]) as H. simpl in H. lia.
Qed.

Lemma cells_of_rectangle (values : list (list cell)) (w : nat) :
  Forall (fun row => length row = w) values ->
  cells_of values = (length values * w)%nat.
Proof.
  induction 1 as [| row values Hrow _ IH]; [reflexivity |].
  simpl. rewrite IH, Hrow. reflexivity.
Qed.

Section Quality.
Import DataAnalyzer.

Lemma findDuplicateRows_bound (values : list (list cell)) :
  values <> [] -> (findDuplicateRows values < length values)%nat.
Proof.
  intros Hne. unfold findDuplicateRows.
  destruct values as [| row values]; [congruence |].
  pose proof (Set_of_inhabited (map JSON_stringify_cell row)
                (map (map JSON_stringify_cell) values)) as H.
  cbn [map length] in *. lia.
Qed.

Lemma getQualityGrade_A (r : R) :
  getQualityGrade (Fin r) = "A"%string <-> 9 / 10 <= r.
Proof.
  unfold getQualityGrade, jge, jlt, strict_eq.
  destruct (Rle_dec (9 / 10) r) as [H | H].
  - split; [intros _; exact H | intros _].
    destruct (Req_dec_T r (9 / 10)) as [E | E].
    + rewrite (Req_b_true r (9 / 10)) by exact E. rewrite orb_true_r. reflexivity.
    + rewrite (Rlt_b_true (9 / 10) r) by lra. reflexivity.
  - split; [| intros H'; contradiction].
    rewrite (Rlt_b_false (9 / 10) r) by lra.
    rewrite (Req_b_false r (9 / 10)) by lra. cbn [orb].
    destruct (Rlt_b (8 / 10) r || Req_b r (8 / 10)); [discriminate |].
    destruct (Rlt_b (7 / 10) r || Req_b r (7 / 10)); [discriminate |].
    destruct (Rlt_b (6 / 10) r || Req_b r (6 / 10)); discriminate.
Qed.

(** X22.  For a grid with at least one row whose rows all have the same
    non-zero width: completeness is [1 - missing / cells] and lies in [0, 1],
    uniqueness is [1 - duplicates / rows] and lies in (0, 1], the overall
    score is the mean of both and of the constants 0.85 and 0.90; completeness
    is 1 exactly without missing values, uniqueness is 1 exactly without
    duplicate rows, and the grade is A exactly when the missing and the
    duplicate shares add up to at most 0.15. *)
Theorem quality_of_rectangular_grid (d : selectedData) (w : nat) :
  values d <> [] -> (1 <= w)%nat ->
  Forall (fun row => length row = w) (values d) ->
  let q := assessDataQuality d in
  let cells := INR (length (values d) * w) in
  let rows := INR (length (values d)) in
  let missing := INR (countMissingValues (values d)) in
  let duplicates := INR (findDuplicateRows (values d)) in
  let c := 1 - missing / cells in
  let u := 1 - duplicates / rows in
  completeness_score (completeness q) = Fin c
  /\ uniqueness_score (uniqueness q) = Fin u
  /\ overall_score (overall q) = Fin ((c + u + 85 / 100 + 90 / 100) / 4)
  /\ 0 <= c <= 1 /\ 0 < u <= 1
  /\ (c = 1 <-> countMissingValues (values d) = 0%nat)
  /\ (u = 1 <-> findDuplicateRows (values d) = 0%nat)
  /\ (grade (overall q) = "A"%string
      <-> missing / cells + duplicates / rows <= 15 / 100).
Proof.
  intros Hne Hw Hrect q cells rows missing duplicates c u.
  assert (Hrows : 0 < rows).
  { unfold rows. apply lt_0_INR. destruct (values d); [congruence | simpl; lia]. }
  assert (Hcells : 0 < cells).
  { unfold cells. apply lt_0_INR.
    destruct (values d); [congruence | simpl; lia]. }
  assert (Hmiss : 0 <= missing <= cells).
  { unfold missing, cells. split; [apply pos_INR |]. apply le_INR.
    rewrite <- (cells_of_rectangle (values d) w Hrect).
    rewrite countMissingValues_concat, cells_of_concat. apply filter_length_le. }
  assert (Hdup : 0 <= duplicates <= rows - 1).
  { unfold duplicates, rows. split; [apply pos_INR |].
    pose proof (findDuplicateRows_bound (values d) Hne) as H.
    apply Nat.le_succ_l in H. apply le_INR in H. rewrite S_INR in H. lra. }
  assert (Hc : 0 <= missing / cells <= 1).
  { split.
    - apply Rmult_le_pos; [lra | apply Rlt_le, Rinv_0_lt_compat; exact Hcells].
    - apply (Rmult_le_reg_r cells); [exact Hcells |].
      unfold Rdiv. rewrite Rmult_assoc, Rinv_l by lra. lra. }
  assert (Hu : 0 <= duplicates / rows < 1).
  { split.
    - apply Rmult_le_pos; [lra | apply Rlt_le, Rinv_0_lt_compat; exact Hrows].
    - apply (Rmult_lt_reg_r rows); [exact Hrows |].
      unfold Rdiv. rewrite Rmult_assoc, Rinv_l by lra. lra. }
  assert (Ecells :
    of_nat (length (values d)
            * match values d with [] => 0 | row0 :: _ => length row0 end)
    = Fin cells).
  { rewrite of_nat_INR. unfold cells. do 2 f_equal.
    destruct (values d) as [| row0 rest]; [congruence |].
    inversion Hrect; subst. reflexivity. }
  assert (Ecomp : completeness_score (completeness q) = Fin c).
  { unfold q, assessDataQuality. cbn [completeness completeness_score].
    rewrite Ecells, of_nat_INR. cbn [jdiv].
    rewrite (Req_b_false cells 0) by lra. reflexivity. }
  assert (Euniq : uniqueness_score (uniqueness q) = Fin u).
  { unfold q, assessDataQuality. cbn [uniqueness uniqueness_score].
    rewrite !of_nat_INR. cbn [jdiv].
    rewrite (Req_b_false (INR (length (values d))) 0) by (fold rows; lra).
    reflexivity. }
  assert (Eall : overall_score (overall q)
                 = Fin ((c + u + 85 / 100 + 90 / 100) / 4)).
  { unfold q, assessDataQuality in *.
    cbn [completeness completeness_score uniqueness uniqueness_score] in Ecomp, Euniq.
    cbn [overall overall_score]. rewrite Ecomp, Euniq.
    unfold assessConsistency, assessAccuracy. cbn [jadd jdiv].
    rewrite (Req_b_false 4 0) by lra. reflexivity. }
  split; [exact Ecomp |]. split; [exact Euniq |]. split; [exact Eall |].
  split; [unfold c; lra |]. split; [unfold u; lra |].
  split; [| split].
  - unfold c. split; intros H.
    + assert (Hm : missing = 0).
      { assert (Hz : missing / cells = 0) by lra.
        apply (Rmult_eq_compat_r cells) in Hz.
        unfold Rdiv in Hz. rewrite Rmult_assoc, Rinv_l, Rmult_0_l in Hz by lra.
        lra. }
      unfold missing in Hm. apply INR_eq. exact Hm.
    + unfold missing. rewrite H. simpl. unfold Rdiv. rewrite Rmult_0_l. lra.
  - unfold u. split; intros H.
    + assert (Hm : duplicates = 0).
      { assert (Hz : duplicates / rows = 0) by lra.
        apply (Rmult_eq_compat_r rows) in Hz.
        unfold Rdiv in Hz. rewrite Rmult_assoc, Rinv_l, Rmult_0_l in Hz by lra.
        lra. }
      unfold duplicates in Hm. apply INR_eq. exact Hm.
    + unfold duplicates. rewrite H. simpl. unfold Rdiv. rewrite Rmult_0_l. lra.
  - replace (grade (overall q))
      with (getQualityGrade (overall_score (overall q))) by reflexivity.
    rewrite Eall, getQualityGrade_A. unfold c, u. split; intros H; lra.
Qed.

Lemma quality_sample :
  let q := assessDataQuality distinct_grid in
  let missing := INR (countMissingValues (values distinct_grid)) in
  let duplicates := INR (findDuplicateRows (values distinct_grid)) in
  completeness_score (completeness q) = Fin (1 - missing / INR (3 * 3))
  /\ uniqueness_score (uniqueness q) = Fin (1 - duplicates / INR 3)
  /\ 0 <= 1 - missing / INR (3 * 3) <= 1
  /\ 0 < 1 - duplicates / INR 3 <= 1.
Proof.
  destruct (quality_of_rectangular_grid distinct_grid 3)
    as (Hc & Hu & _ & Hcb & Hub & _).
  - discriminate.
  - lia.
  - repeat constructor.
  - repeat split; (exact Hc || exact Hu || apply Hcb || apply Hub).
Defined.

End Quality.

(** ** Per-column reports *)

Lemma obj_get_set_same {A : Type} (o : list (string * A)) (k : string) (v : A) :
  obj_get (obj_set o k v) k = Some v.
Proof.
  induction o as [| [k0 v0] o IH]; simpl.
  - rewrite String.eqb_refl. reflexivity.
  - destruct (String.eqb k0 k) eqn:E; simpl.
    + rewrite String.eqb_refl. reflexivity.
    + rewrite E. exact IH.
Qed.

Lemma obj_get_set_other {A : Type} (o : list (string * A)) (k k' : string)
    (v : A) :
  k <> k' -> obj_get (obj_set o k v) k' = obj_get o k'.
Proof.
  intros Hne. induction o as [| [k0 v0] o IH]; simpl.
  - rewrite (proj2 (String.eqb_neq k k') Hne). reflexivity.
  - destruct (String.eqb k0 k) eqn:E; simpl.
    + apply String.eqb_eq in E. subst k0.
      rewrite (proj2 (String.eqb_neq k k') Hne). reflexivity.
    + destruct (String.eqb k0 k'); [reflexivity | exact IH].
Qed.

Lemma show_nat_injective (a b : nat) : show_nat a = show_nat b -> a = b.
Proof.
  unfold show_nat. intros H.
  apply (f_equal NilEmpty.uint_of_string) in H.
  rewrite !NilEmpty.usu in H. injection H as H.
  apply (f_equal Nat.of_uint) in H.
  rewrite !DecimalNat.Unsigned.of_to in H. exact H.
Qed.

Lemma append_cancel (p s t : string) :
  (p ++ s)%string = (p ++ t)%string -> s = t.
Proof.
  induction p as [| c p IH]; simpl; intros H; [exact H |].
  injection H as H. exact (IH H).
Qed.

Lemma column_key_injective (a b : nat) :
  ("column_" ++ show_nat a)%string = ("column_" ++ show_nat b)%string -> a = b.
Proof. intros H. apply show_nat_injective, (append_cancel _ _ _ H). Qed.

(** A report that a loop over the columns fills in, one property per column
    that passes a test. *)
Lemma column_report_lookup {A : Type} (test : nat -> bool) (entry : nat -> A)
    (cols : list nat) (acc : list (string * A)) (i : nat) :
  obj_get
    (fold_left
       (fun report colIndex =>
          if test colIndex
          then obj_set report ("column_" ++ show_nat colIndex)%string
                       (entry colIndex)
          else report)
       cols acc)
    ("column_" ++ show_nat i)%string
  = if existsb (Nat.eqb i) cols && test i then Some (entry i)
    else obj_get acc ("column_" ++ show_nat i)%string.
Proof.
  revert acc. induction cols as [| c cols IH]; intros acc; [reflexivity |].
  cbn [fold_left existsb]. rewrite IH.
  destruct (existsb (Nat.eqb i) cols && test i) eqn:E.
  - apply andb_true_iff in E. destruct E as [E1 E2].
    rewrite E1, E2, orb_true_r. reflexivity.
  - destruct (Nat.eqb i c) eqn:Eic.
    + apply Nat.eqb_eq in Eic. subst c. cbn [orb andb].
      destruct (test i); [apply obj_get_set_same | reflexivity].
    + cbn [orb]. rewrite E.
      destruct (test c); [| reflexivity].
      apply obj_get_set_other. intros H. apply column_key_injective in H.
      subst c. rewrite Nat.eqb_refl in Eic. discriminate.
Qed.

Section Reports.
Import DataAnalyzer.

(** X23.  What the three per-column reports hold under the key ['column_' +
    i]: the statistics of column [i] when it is a numeric column with at least
    one value, its trend record when it has three or more values, its outlier
    record when it has four or more, and nothing otherwise. A column with an
    outlier record therefore has a trend record and statistics. *)
Theorem column_reports (d : selectedData) (i : nat) :
  let key := ("column_" ++ show_nat i)%string in
  let data := columnData (values d) i in
  let listed := existsb (Nat.eqb i) (getNumericColumns (values d)) in
  obj_get (calculateStatistics d) key
  = (if listed && (0 <? length data)%nat
     then Some (column_statistics data) else None)
  /\ obj_get (analyzeTrends d) key
     = (if listed && (2 <? length data)%nat
        then Some {| linear := calculateLinearTrend data;
                     movingAverage := calculateMovingAverage data 3;
                     seasonal_detected := extractSeasonalComponent data;
                     volatility := calculateVolatility data;
                     momentum := calculateMomentum data 3 |}
        else None)
  /\ obj_get (detectOutliers d) key
     = (if listed && (3 <? length data)%nat
        then Some (outlier_record data) else None).
Proof.
  intros key data listed. unfold key, data, listed.
  unfold calculateStatistics, analyzeTrends, detectOutliers.
  split; [| split].
  - apply (column_report_lookup
             (fun c => (0 <? length (columnData (values d) c))%nat)
             (fun c => column_statistics (columnData (values d) c))).
  - apply (column_report_lookup
             (fun c => (2 <? length (columnData (values d) c))%nat)
             (fun c =>
                {| linear := calculateLinearTrend (columnData (values d) c);
                   movingAverage :=
                     calculateMovingAverage (columnData (values d) c) 3;
                   seasonal_detected :=
                     extractSeasonalComponent (columnData (values d) c);
                   volatility := calculateVolatility (columnData (values d) c);
                   momentum := calculateMomentum (columnData (values d) c) 3 |})).
  - apply (column_report_lookup
             (fun c => (3 <? length (columnData (values d) c))%nat)
             (fun c => outlier_record (columnData (values d) c))).
Qed.

End Reports.

(** ** Correlation report *)

Lemma string_of_uint_digits (d : Decimal.uint) :
  all_digits (NilEmpty.string_of_uint d) = true.
Proof. induction d; simpl; try exact IHd; reflexivity. Qed.

Lemma show_nat_digits (n : nat) : all_digits (show_nat n) = true.
Proof. apply string_of_uint_digits. Qed.

(** Two texts made of digits, each followed by an underscore, are equal only
    if the digits and what follows the underscore are. *)
Lemma digits_then_underscore (s s' t t' : string) :
  all_digits s = true -> all_digits s' = true ->
  (s ++ String "_" t)%string = (s' ++ String "_" t')%string ->
  s = s' /\ t = t'.
Proof.
  revert s'. induction s as [| c s IH]; intros [| c' s'] Hs Hs' H; simpl in *.
  - injection H as H. auto.
  - injection H as Hc _. subst c'. discriminate Hs'.
  - injection H as Hc _. subst c. discriminate Hs.
  - injection H as Hc H. subst c'.
    apply andb_true_iff in Hs. apply andb_true_iff in Hs'.
    destruct (IH s' (proj2 Hs) (proj2 Hs') H) as [-> ->]. auto.
Qed.

Lemma pair_key_injective (p q : nat * nat) : pair_key p = pair_key q -> p = q.
Proof.
  destruct p as [a b], q as [a' b']. unfold pair_key. cbn [fst snd].
  intros H. apply append_cancel in H.
  change ("_col_" ++ show_nat b)%string
    with (String "_" ("col_" ++ show_nat b)) in H.
  change ("_col_" ++ show_nat b')%string
    with (String "_" ("col_" ++ show_nat b')) in H.
  apply digits_then_underscore in H; try apply show_nat_digits.
  destruct H as [Ha Hb]. apply show_nat_injective in Ha.
  apply append_cancel, show_nat_injective in Hb. congruence.
Qed.

Lemma pair_eqb_eq (p q : nat * nat) : pair_eqb p q = true <-> p = q.
Proof.
  destruct p, q. unfold pair_eqb. cbn [fst snd].
  rewrite andb_true_iff, !Nat.eqb_eq. split; [intros []; congruence |].
  intros H. injection H. auto.
Qed.

Lemma pair_report_lookup {A : Type} (test : nat * nat -> bool)
    (entry : nat * nat -> A) (pairs : list (nat * nat))
    (acc : list (string * A)) (q : nat * nat) :
  obj_get
    (fold_left
       (fun report cols =>
          if test cols then obj_set report (pair_key cols) (entry cols)
          else report)
       pairs acc)
    (pair_key q)
  = if existsb (pair_eqb q) pairs && test q then Some (entry q)
    else obj_get acc (pair_key q).
Proof.
  revert acc. induction pairs as [| c pairs IH]; intros acc; [reflexivity |].
  cbn [fold_left existsb]. rewrite IH.
  destruct (existsb (pair_eqb q) pairs && test q) eqn:E.
  - apply andb_true_iff in E. destruct E as [E1 E2].
    rewrite E1, E2, orb_true_r. reflexivity.
  - destruct (pair_eqb q c) eqn:Eqc.
    + apply pair_eqb_eq in Eqc. subst c. cbn [orb andb].
      destruct (test q); [apply obj_get_set_same | reflexivity].
    + cbn [orb]. rewrite E.
      destruct (test c); [| reflexivity].
      apply obj_get_set_other. intros H. apply pair_key_injective in H.
      subst c. rewrite (proj2 (pair_eqb_eq q q) eq_refl) in Eqc. discriminate.
Qed.

Lemma existsb_eqb_In (i : nat) (l : list nat) :
  existsb (Nat.eqb i) l = true <-> In i l.
Proof.
  rewrite existsb_exists. split.
  - intros (x & Hx & E). apply Nat.eqb_eq in E. subst x. exact Hx.
  - intros H. exists i. split; [exact H | apply Nat.eqb_refl].
Qed.

Section Correlations.
Import DataAnalyzer.

Lemma column_pairs_spec (cols : list nat) (a b : nat) :
  StronglySorted lt cols ->
  (In (a, b) (column_pairs cols) <-> In a cols /\ In b cols /\ (a < b)%nat).
Proof.
  induction 1 as [| c cols Hs IH Hall]; [simpl; tauto |].
  rewrite Forall_forall in Hall.
  cbn [column_pairs]. rewrite in_app_iff, in_map_iff, IH. split.
  - intros [(x & E & Hx) | (Ha & Hb & Hab)].
    + injection E as <- <-. specialize (Hall x Hx). simpl. auto.
    + simpl. auto.
  - intros ([<- | Ha] & [<- | Hb] & Hab).
    + lia.
    + left. exists b. auto.
    + specialize (Hall a Ha). lia.
    + right. auto.
Qed.

Lemma column_pairs_listed (cols : list nat) (a b : nat) :
  StronglySorted lt cols ->
  existsb (pair_eqb (a, b)) (column_pairs cols)
  = existsb (Nat.eqb a) cols && existsb (Nat.eqb b) cols && (a <? b)%nat.
Proof.
  intros Hs. apply eq_true_iff_eq.
  rewrite !andb_true_iff, !existsb_eqb_In, Nat.ltb_lt.
  rewrite and_assoc.
  rewrite <- (column_pairs_spec cols a b Hs).
  rewrite existsb_exists. split.
  - intros (x & Hx & E). apply pair_eqb_eq in E. subst x. exact Hx.
  - intros H. exists (a, b). split; [exact H | apply pair_eqb_eq; reflexivity].
Qed.

Lemma getNumericColumns_sorted (values : list (list cell)) :
  StronglySorted lt (getNumericColumns values).
Proof.
  rewrite getNumericColumns_positions.
  destruct (length values <? 2)%nat; [constructor |].
  apply positions_where_sorted.
Qed.

(** X24.  What calculateCorrelations holds under the key ['col_' + a + '_col_'
    + b]: the coefficient of the columns [a] and [b] with its two labels when
    both are numeric columns, [a < b], and each has two or more number cells
    below the first row; nothing otherwise, in particular nothing for a pair
    in the opposite order. *)
Theorem correlation_reports (d : selectedData) (a b : nat) :
  let key := ("col_" ++ show_nat a ++ "_col_" ++ show_nat b)%string in
  let data1 := filter_map number_value (column_cells (values d) a) in
  let data2 := filter_map number_value (column_cells (values d) b) in
  let listed c := existsb (Nat.eqb c) (getNumericColumns (values d)) in
  obj_get (calculateCorrelations d) key
  = if listed a && listed b && (a <? b)%nat
       && ((1 <? length data1)%nat && (1 <? length data2)%nat)
    then Some {| coefficient := pearsonCorrelation data1 data2;
                 corr_strength :=
                   getCorrelationStrength (pearsonCorrelation data1 data2);
                 interpretation :=
                   interpretCorrelation (pearsonCorrelation data1 data2) |}
    else None.
Proof.
  intros key data1 data2 listed. unfold key, data1, data2, listed.
  rewrite <- (column_pairs_listed _ a b (getNumericColumns_sorted (values d))).
  unfold calculateCorrelations.
  exact (pair_report_lookup
           (fun cols =>
              (1 <? length (filter_map number_value
                              (column_cells (values d) (fst cols))))%nat
              && (1 <? length (filter_map number_value
                                 (column_cells (values d) (snd cols))))%nat)
           (fun cols =>
              let data1 :=
                filter_map number_value (column_cells (values d) (fst cols)) in
              let data2 :=
                filter_map number_value (column_cells (values d) (snd cols)) in
              {| coefficient := pearsonCorrelation data1 data2;
                 corr_strength :=
                   getCorrelationStrength (pearsonCorrelation data1 data2);
                 interpretation :=
                   interpretCorrelation (pearsonCorrelation data1 data2) |})
           (column_pairs (getNumericColumns (values d))) [] (a, b)).
Qed.

End Correlations.

(** ** Correlation labels *)

Ltac split_comparisons :=
  unfold jge, jgt, jlt, strict_eq, Rlt_b, Req_b;
  repeat match goal with
         | |- context [Rlt_dec ?a ?b] =>
             destruct (Rlt_dec a b); try (exfalso; lra)
         | |- context [Req_dec_T ?a ?b] =>
             destruct (Req_dec_T a b); try (exfalso; lra)
         end.

Section Labels.
Import DataAnalyzer.

(** X25.  The strength of a coefficient does not depend on its sign. Its
    interpretation mirrors under a change of sign except at the magnitudes 0.3
    and 0.7, where the positive coefficient gets the weaker reading: 0.3 is
    Weak positive but -0.3 Moderate negative, 0.7 is Moderate positive but
    -0.7 Strong negative. *)
Theorem correlation_labels (r : R) :
  getCorrelationStrength (Fin (- r)) = getCorrelationStrength (Fin r)
  /\ (Rabs r <> 3 / 10 -> Rabs r <> 7 / 10 ->
      interpretCorrelation (Fin (- r))
      = opposite_relationship (interpretCorrelation (Fin r)))
  /\ (r = 3 / 10 ->
      interpretCorrelation (Fin r) = "Weak positive relationship"%string
      /\ interpretCorrelation (Fin (- r))
         = "Moderate negative relationship"%string)
  /\ (r = 7 / 10 ->
      interpretCorrelation (Fin r) = "Moderate positive relationship"%string
      /\ interpretCorrelation (Fin (- r))
         = "Strong negative relationship"%string).
Proof.
  split; [| split; [| split]].
  - unfold getCorrelationStrength. cbn [Math_abs]. rewrite Rabs_Ropp.
    reflexivity.
  - intros H3 H7.
    assert (r <> 3 / 10 /\ r <> - (3 / 10) /\ r <> 7 / 10 /\ r <> - (7 / 10))
      as (A & B & C & D).
    { unfold Rabs in H3, H7. destruct (Rcase_abs r); repeat split; lra. }
    unfold interpretCorrelation. split_comparisons; reflexivity.
  - intros ->. unfold interpretCorrelation.
    split; split_comparisons; reflexivity.
  - intros ->. unfold interpretCorrelation.
    split; split_comparisons; reflexivity.
Qed.

Lemma number_values_finite (cells : list cell) :
  (forall x, In (CNum x) cells -> isFinite x = true) ->
  exists rs, filter_map number_value cells = map Fin rs.
Proof.
  induction cells as [| c cells IH]; intros H.
  - exists []. reflexivity.
  - destruct IH as [rs Hrs]; [intros x Hx; apply H; right; exact Hx |].
    destruct c as [x | s | b | | | iso]; cbn [filter_map number_value];
      try (exists rs; exact Hrs).
    assert (Hx : isFinite x = true) by (apply H; left; reflexivity).
    destruct x; try discriminate Hx.
    exists (r :: rs). rewrite Hrs. reflexivity.
Qed.

Lemma In_slice {A : Type} (l : list A) (start stop : Z) (x : A) :
  In x (slice l start stop) -> In x l.
Proof.
  unfold slice. cbv zeta.
  set (s := Z.to_nat (rel_index (Z.of_nat (length l)) start)).
  set (n := Z.to_nat (rel_index (Z.of_nat (length l)) stop
                      - rel_index (Z.of_nat (length l)) start)).
  intros H. rewrite <- (firstn_skipn s l). apply in_or_app. right.
  rewrite <- (firstn_skipn n (skipn s l)). apply in_or_app. left. exact H.
Qed.

Lemma column_cells_in_grid (values : list (list cell)) (col : nat) (x : number) :
  In (CNum x) (column_cells values col) ->
  exists row, In row values /\ In (CNum x) row.
Proof.
  unfold column_cells. intros H. apply in_map_iff in H.
  destruct H as (row & Hcell & Hrow). exists row. split.
  - unfold slice_from in Hrow. exact (In_slice _ _ _ _ Hrow).
  - unfold cell_at in Hcell.
    destruct (nth_in_or_default col row CUndefined) as [Hin | Hd].
    + rewrite Hcell in Hin. exact Hin.
    + rewrite Hcell in Hd. discriminate Hd.
Qed.

(** The entries of the correlation report in exact arithmetic. *)
Lemma correlations_of_finite_cells (d : selectedData) (key : string)
    (entry : correlationRecord) :
  (forall row x, In row (values d) -> In (CNum x) row -> isFinite x = true) ->
  In (key, entry) (calculateCorrelations d) ->
  exists r,
    coefficient entry = Fin r /\ -1 <= r <= 1
    /\ corr_strength entry = getCorrelationStrength (Fin r)
    /\ interpretation entry = interpretCorrelation (Fin r).
Proof.
  intros Hfin. unfold calculateCorrelations.
  generalize (column_pairs (getNumericColumns (values d))) as pairs.
  assert (Hcol : forall col, exists rs,
             filter_map number_value (column_cells (values d) col) = map Fin rs).
  { intros col. apply number_values_finite. intros x Hx.
    destruct (column_cells_in_grid _ _ _ Hx) as (row & Hrow & Hin).
    exact (Hfin row x Hrow Hin). }
  assert (Hgen : forall pairs acc,
            (forall k v, In (k, v) acc ->
               exists r, coefficient v = Fin r /\ -1 <= r <= 1
                 /\ corr_strength v = getCorrelationStrength (Fin r)
                 /\ interpretation v = interpretCorrelation (Fin r)) ->
            In (key, entry)
               (fold_left
                  (fun correlations cols =>
                     let col1 := fst cols in
                     let col2 := snd cols in
                     let data1 :=
                       filter_map number_value (column_cells (values d) col1) in
                     let data2 :=
                       filter_map number_value (column_cells (values d) col2) in
                     if (1 <? length data1)%nat && (1 <? length data2)%nat
                     then
                       let correlation := pearsonCorrelation data1 data2 in
                       let strength := getCorrelationStrength correlation in
                       obj_set correlations
                         ("col_" ++ show_nat col1 ++ "_col_" ++ show_nat col2)%string
                         {| coefficient := correlation;
                            corr_strength := strength;
                            interpretation := interpretCorrelation correlation |}
                     else correlations)
                  pairs acc) ->
            exists r, coefficient entry = Fin r /\ -1 <= r <= 1
              /\ corr_strength entry = getCorrelationStrength (Fin r)
              /\ interpretation entry = interpretCorrelation (Fin r)).
  { induction pairs as [| [c1 c2] pairs IH]; intros acc Hacc Hin.
    - exact (Hacc key entry Hin).
    - cbn [fold_left] in Hin. apply (IH _) in Hin; [exact Hin |].
      cbv zeta. cbn [fst snd].
      destruct ((1 <? length (filter_map number_value (column_cells (values d) c1)))%nat
                && (1 <? length (filter_map number_value (column_cells (values d) c2)))%nat);
        [| exact Hacc].
      intros k v Hkv. apply In_obj_set in Hkv. destruct Hkv as [E | Hkv];
        [| exact (Hacc k v Hkv)].
      injection E as _ ->.
      destruct (Hcol c1) as [xs ->]. destruct (Hcol c2) as [ys ->].
      destruct (pearson_as_real xs ys) as [Hr Hlen]. cbv zeta in Hr, Hlen.
      eexists. cbn [coefficient corr_strength interpretation].
      rewrite Hr. split; [reflexivity |]. split; [| auto].
      destruct (Nat.min (length xs) (length ys) <? 2)%nat; [lra |].
      apply pearson_r_bounds. exact Hlen. }
  intros pairs Hin. apply (Hgen pairs [] ); [intros k v [] | exact Hin].
Qed.

(** X26.  In a grid of at most a thousand rows whose number cells are all
    whole numbers of absolute value at most a thousand, every entry of
    calculateCorrelations holds a finite coefficient between -1 and 1, and its
    strength and interpretation are those of that coefficient. *)
Theorem correlations_of_whole_grid (d : selectedData) (key : string)
    (entry : correlationRecord) :
  (Z.of_nat (length (values d)) <= 10 ^ 3)%Z ->
  (forall row x, In row (values d) -> In (CNum x) row ->
                 exists z, x = of_Z z /\ (Z.abs z <= 10 ^ 3)%Z) ->
  In (key, entry) (calculateCorrelations d) ->
  exists r,
    coefficient entry = Fin r /\ -1 <= r <= 1
    /\ corr_strength entry = getCorrelationStrength (Fin r)
    /\ interpretation entry = interpretCorrelation (Fin r).
Proof.
  intros _ Hwhole Hin.
  apply (correlations_of_finite_cells d key entry); [| exact Hin].
  intros row x Hrow Hx.
  destruct (Hwhole row x Hrow Hx) as (z & -> & _). reflexivity.
Qed.

Lemma correlation_sample :
  exists r,
    coefficient
      {| coefficient :=
           pearsonCorrelation (map Fin [1; 2; 3; 4])
                              (map Fin [100; 110; 120; 130]);
         corr_strength :=
           getCorrelationStrength
             (pearsonCorrelation (map Fin [1; 2; 3; 4])
                                 (map Fin [100; 110; 120; 130]));
         interpretation :=
           interpretCorrelation
             (pearsonCorrelation (map Fin [1; 2; 3; 4])
                                 (map Fin [100; 110; 120; 130])) |}
    = Fin r
    /\ -1 <= r <= 1.
Proof.
  destruct (correlations_of_whole_grid sales_sample "col_0_col_1"
              {| coefficient :=
                   pearsonCorrelation (map Fin [1; 2; 3; 4])
                                      (map Fin [100; 110; 120; 130]);
                 corr_strength :=
                   getCorrelationStrength
                     (pearsonCorrelation (map Fin [1; 2; 3; 4])
                                         (map Fin [100; 110; 120; 130]));
                 interpretation :=
                   interpretCorrelation
                     (pearsonCorrelation (map Fin [1; 2; 3; 4])
                                         (map Fin [100; 110; 120; 130])) |})
    as (r & Hr & Hb & _).
  - simpl. lia.
  - intros row x Hrow Hx. simpl in Hrow.
    repeat (destruct Hrow as [<- | Hrow];
            [simpl in Hx;
             repeat (destruct Hx as [Hx | Hx];
                     [try discriminate Hx; injection Hx as <-;
                      (eexists; split; [reflexivity | simpl; lia]) |]);
             destruct Hx |]).
    destruct Hrow.
  - left. reflexivity.
  - exists r. split; [exact Hr | exact Hb].
Defined.

End Labels.

(** ** Mode *)

Lemma Req_b_eq (x y : R) : Req_b x y = true <-> x = y.
Proof.
  unfold Req_b. destruct (Req_dec_T x y) as [E | E]; split; intros H.
  - exact E.
  - reflexivity.
  - discriminate H.
  - contradiction.
Qed.

Lemma includes_Fin (seen : list number) (r : R) :
  includes seen (Fin r) = true <-> In (Fin r) seen.
Proof.
  unfold includes. rewrite existsb_exists. split.
  - intros (y & Hy & E). destruct y; try discriminate E.
    simpl in E. apply Req_b_eq in E. subst. exact Hy.
  - intros H. exists (Fin r). split; [exact H |]. simpl. apply Req_b_eq.
    reflexivity.
Qed.

Lemma filter_split_perm {A : Type} (f : A -> bool) (l : list A) :
  Permutation (filter f l ++ filter (fun a => negb (f a)) l) l.
Proof.
  induction l as [| a l IH]; [constructor |].
  cbn [filter]. destruct (f a); cbn [negb app].
  - constructor. exact IH.
  - rewrite <- Permutation_middle. constructor. exact IH.
Qed.

Section Mode.
Import DataAnalyzer.

Lemma distinct_keys_spec (xs : list R) (seen : list number) :
  NoDup seen -> Forall finite seen ->
  NoDup (distinct_keys (map Fin xs) seen)
  /\ Forall finite (distinct_keys (map Fin xs) seen)
  /\ (forall x, In x (distinct_keys (map Fin xs) seen)
                <-> In x seen \/ In x (map Fin xs)).
Proof.
  revert seen. induction xs as [| r xs IH]; intros seen Hnd Hfin.
  - simpl. split; [exact Hnd |]. split; [exact Hfin |]. intros x. tauto.
  - cbn [map distinct_keys]. destruct (includes seen (Fin r)) eqn:E.
    + apply includes_Fin in E.
      destruct (IH seen Hnd Hfin) as (H1 & H2 & H3).
      split; [exact H1 |]. split; [exact H2 |]. intros x. rewrite H3. simpl.
      split; [tauto |]. intros [H | [<- | H]]; auto.
    + assert (Hnot : ~ In (Fin r) seen).
      { intros H. apply includes_Fin in H. congruence. }
      destruct (IH (seen ++ [Fin r])) as (H1 & H2 & H3).
      * apply NoDup_app; [exact Hnd | repeat constructor; simpl; tauto |].
        intros y Hy [<- | []]. exact (Hnot Hy).
      * apply Forall_app. split; [exact Hfin |]. repeat constructor.
      * split; [exact H1 |]. split; [exact H2 |]. intros x.
        rewrite H3, in_app_iff. simpl. tauto.
Qed.

Lemma Object_keys_spec (xs : list R) :
  NoDup (Object_keys (map Fin xs))
  /\ Forall finite (Object_keys (map Fin xs))
  /\ (forall x, In x (Object_keys (map Fin xs)) <-> In x (map Fin xs)).
Proof.
  destruct (distinct_keys_spec xs [] (NoDup_nil _) (Forall_nil _))
    as (Hnd & Hfin & Hin).
  assert (Hperm : Permutation (Object_keys (map Fin xs))
                              (distinct_keys (map Fin xs) [])).
  { unfold Object_keys. rewrite sort_numbers_perm. apply filter_split_perm. }
  split; [| split].
  - exact (Permutation_NoDup (Permutation_sym Hperm) Hnd).
  - exact (Permutation_Forall (Permutation_sym Hperm) Hfin).
  - intros x. split; intros H.
    + apply (Permutation_in _ Hperm), Hin in H. destruct H as [[] | H].
      exact H.
    + apply (Permutation_in _ (Permutation_sym Hperm)), Hin. right. exact H.
Qed.

Lemma frequency_Fin (xs : list R) (r : R) :
  frequency (map Fin xs) (Fin r) = occurrences xs r.
Proof.
  unfold frequency, occurrences.
  induction xs as [| x xs IH]; [reflexivity |].
  cbn [map filter same_value_zero strict_eq].
  destruct (Req_b r x); cbn [length]; rewrite IH; reflexivity.
Qed.

Lemma fold_max2_of_nat (fs : list nat) (a : nat) :
  fold_left max2 (map of_nat fs) (of_nat a) = of_nat (fold_left Nat.max fs a).
Proof.
  revert a. induction fs as [| f fs IH]; intros a; [reflexivity |].
  cbn [map fold_left]. rewrite <- IH. f_equal.
  rewrite !of_nat_INR. cbn [max2 jlt]. unfold Rlt_b.
  destruct (Rlt_dec (INR a) (INR f)) as [H | H].
  - apply INR_lt in H. rewrite Nat.max_r by lia. reflexivity.
  - apply Rnot_lt_le, INR_le in H. rewrite Nat.max_l by lia. reflexivity.
Qed.

Lemma fold_max_spec (fs : list nat) (a : nat) :
  (a <= fold_left Nat.max fs a)%nat
  /\ (forall f, In f fs -> (f <= fold_left Nat.max fs a)%nat)
  /\ (fold_left Nat.max fs a = a \/ In (fold_left Nat.max fs a) fs).
Proof.
  revert a. induction fs as [| f fs IH]; intros a.
  - simpl. split; [lia |]. split; [intros f [] | left; reflexivity].
  - cbn [fold_left]. destruct (IH (Nat.max a f)) as (H1 & H2 & H3).
    split; [lia |]. split.
    + intros g [<- | Hg]; [lia | exact (H2 g Hg)].
    + destruct H3 as [H3 | H3]; [| right; right; exact H3].
      rewrite H3. destruct (Nat.max_spec a f) as [[_ ->] | [_ ->]];
        [right; left; reflexivity | left; reflexivity].
Qed.

(** The largest of the frequencies of a non-empty list of keys. *)
Lemma largest_frequency (data keys : list number) (k0 : number) :
  exists m : nat,
    Math_max (map (fun k => of_nat (frequency data k)) (k0 :: keys)) = of_nat m
    /\ (forall k, In k (k0 :: keys) -> (frequency data k <= m)%nat)
    /\ (exists k, In k (k0 :: keys) /\ frequency data k = m).
Proof.
  unfold Math_max. cbn [map fold_left].
  replace (max2 NInf (of_nat (frequency data k0)))
    with (of_nat (frequency data k0)) by (rewrite of_nat_INR; reflexivity).
  rewrite <- (map_map (frequency data) of_nat), fold_max2_of_nat.
  destruct (fold_max_spec (map (frequency data) keys) (frequency data k0))
    as (H1 & H2 & H3).
  eexists. split; [reflexivity |]. split.
  - intros k [<- | Hk]; [exact H1 |]. apply H2, in_map, Hk.
  - destruct H3 as [H3 | H3].
    + exists k0. split; [left; reflexivity | symmetry; exact H3].
    + apply in_map_iff in H3. destruct H3 as (k & E & Hk).
      exists k. split; [right; exact Hk | exact E].
Qed.

Lemma of_nat_strict_eq (a b : nat) :
  strict_eq (of_nat a) (of_nat b) = true <-> a = b.
Proof.
  rewrite !of_nat_INR. cbn [strict_eq]. rewrite Req_b_eq.
  split; [apply INR_eq | intros ->; reflexivity].
Qed.

(** X27.  The mode of a column of finite numbers lists exactly the values that
    occur most often in it, each once. *)
Theorem mode_most_frequent (xs : list R) :
  (forall x,
     In x (mode (map Fin xs))
     <-> exists r, x = Fin r /\ In r xs
                   /\ forall r', In r' xs ->
                                 (occurrences xs r' <= occurrences xs r)%nat)
  /\ NoDup (mode (map Fin xs)).
Proof.
  destruct (Object_keys_spec xs) as (Hnd & Hfin & Hin).
  unfold mode. split; [| apply NoDup_filter; exact Hnd].
  intros x. rewrite filter_In, Hin.
  destruct (Object_keys (map Fin xs)) as [| k0 keys] eqn:Ekeys.
  - split.
    + intros [Hx _]. apply Hin in Hx. destruct Hx.
    + intros (r & -> & Hr & _).
      apply (in_map Fin) in Hr. apply Hin in Hr. destruct Hr.
  - destruct (largest_frequency (map Fin xs) keys k0) as (m & -> & Hle & k & Hk & Hm).
    rewrite of_nat_strict_eq. split.
    + intros [Hx E]. apply in_map_iff in Hx. destruct Hx as (r & <- & Hr).
      exists r. split; [reflexivity |]. split; [exact Hr |].
      intros r' Hr'. rewrite <- !frequency_Fin, E.
      apply Hle, Hin, in_map, Hr'.
    + intros (r & -> & Hr & Hmax). split; [apply in_map; exact Hr |].
      apply Hin in Hk. apply in_map_iff in Hk. destruct Hk as (r' & <- & Hr').
      specialize (Hmax r' Hr'). rewrite <- !frequency_Fin in Hmax.
      assert (Hup : (frequency (map Fin xs) (Fin r) <= m)%nat)
        by (apply Hle, Hin, in_map, Hr).
      lia.
Qed.

End Mode.

(** ** Sensitivity analysis *)

Section Sensitivity.
Import WhatIfAnalysis.

Lemma jle_of_Z (a b : Z) : jle (of_Z a) (of_Z b) = (a <=? b)%Z.
Proof.
  unfold jle, jge, jlt, strict_eq, of_Z.
  destruct (Z.leb_spec a b) as [H | H].
  - destruct (Z.eq_dec a b) as [-> | Hne].
    + rewrite (Req_b_true (IZR b) (IZR b)) by reflexivity. apply orb_true_r.
    + rewrite Rlt_b_true; [reflexivity |]. apply IZR_lt. lia.
  - rewrite Rlt_b_false by (apply Rle_not_lt, IZR_le; lia).
    rewrite Req_b_false; [reflexivity |].
    intros E. apply eq_IZR in E. lia.
Qed.

Lemma jadd_of_Z (a b : Z) : jadd (of_Z a) (Fin (IZR b)) = of_Z (a + b).
Proof. unfold of_Z. cbn [jadd]. rewrite plus_IZR. reflexivity. Qed.

Lemma sensitivity_loop_whole (d : selectedData) (variable : string) (hi : Z)
    (k : nat) :
  forall (lo : Z) (steps : nat) (acc : list impactPoint),
    k = Z.to_nat ((hi - lo) / 10 + 1) ->
    (k + 1 <= steps)%nat ->
    sensitivity_loop steps d variable (of_Z lo) (of_Z hi) acc
    = Some (acc ++ map (fun c => impact_point d variable (of_Z c))
                       (changes lo hi)).
Proof.
  induction k as [| k IH]; intros lo steps acc Hk Hsteps.
  - destruct steps as [| steps]; [lia |].
    assert (Hgt : (hi < lo)%Z).
    { destruct (Z.lt_ge_cases hi lo) as [H | H]; [exact H |].
      assert (0 <= (hi - lo) / 10)%Z by (apply Z.div_pos; lia). lia. }
    cbn [sensitivity_loop]. rewrite jle_of_Z.
    replace (lo <=? hi)%Z with false by (symmetry; apply Z.leb_gt; exact Hgt).
    unfold changes, Zrange. rewrite Z.sub_0_r, <- Hk. cbn [seq map].
    rewrite app_nil_r. reflexivity.
  - destruct steps as [| steps]; [lia |].
    assert (Hle : (lo <= hi)%Z).
    { destruct (Z.lt_ge_cases hi lo) as [H | H]; [| exact H].
      assert ((hi - lo) / 10 < 0)%Z by (apply Z.div_lt_upper_bound; lia).
      lia. }
    assert (Hdiv : ((hi - (lo + 10)) / 10 = (hi - lo) / 10 - 1)%Z).
    { replace (hi - (lo + 10))%Z with (hi - lo + (-1) * 10)%Z by lia.
      rewrite Z.div_add by lia. lia. }
    assert (Hpos : (0 <= (hi - lo) / 10)%Z) by (apply Z.div_pos; lia).
    cbn [sensitivity_loop]. rewrite jle_of_Z.
    replace (lo <=? hi)%Z with true by (symmetry; apply Z.leb_le; exact Hle).
    change (Fin 10) with (Fin (IZR 10)). rewrite jadd_of_Z.
    rewrite (IH (lo + 10)%Z steps) by lia.
    rewrite <- app_assoc. f_equal. cbn [app].
    unfold changes, Zrange. rewrite !Z.sub_0_r, Hdiv, <- Hk.
    replace (Z.to_nat ((hi - lo) / 10 - 1 + 1)) with k by lia.
    cbn [seq map]. f_equal.
    replace (lo + 10 * (0 + Z.of_nat 0))%Z with lo by lia. f_equal.
    rewrite <- seq_shift, !map_map. apply map_ext. intros i.
    f_equal. f_equal. lia.
Qed.

Lemma changes_spec (lo hi c : Z) :
  In c (changes lo hi)
  <-> (lo <= c <= hi)%Z /\ ((c - lo) mod 10 = 0)%Z.
Proof.
  unfold changes, Zrange. rewrite Z.sub_0_r, in_map_iff. split.
  - intros (i & <- & Hi). apply in_map_iff in Hi.
    destruct Hi as (j & <- & Hj). apply in_seq in Hj.
    assert (Hpos : (0 < (hi - lo) / 10 + 1)%Z) by lia.
    assert (Hq : (Z.of_nat j <= (hi - lo) / 10)%Z) by lia.
    assert (Hm : (10 * ((hi - lo) / 10) <= hi - lo)%Z)
      by (apply Z.mul_div_le; lia).
    split; [lia |].
    replace (lo + 10 * (0 + Z.of_nat j) - lo)%Z with (Z.of_nat j * 10)%Z by lia.
    apply Z.mod_mul. lia.
  - intros ([H1 H2] & Hmod).
    exists ((c - lo) / 10)%Z. split.
    + pose proof (Z.div_mod (c - lo) 10 ltac:(lia)) as E. lia.
    + apply in_map_iff. exists (Z.to_nat ((c - lo) / 10)).
      assert (Hq : (0 <= (c - lo) / 10)%Z) by (apply Z.div_pos; lia).
      assert (Hq' : ((c - lo) / 10 <= (hi - lo) / 10)%Z)
        by (apply Z.div_le_mono; lia).
      split; [lia |]. apply in_seq. lia.
Qed.

Lemma filter_inhabited {A : Type} (f : A -> bool) (l : list A) :
  (0 <? length (filter f l))%nat = existsb f l.
Proof.
  induction l as [| a l IH]; [reflexivity |].
  cbn [filter existsb]. destruct (f a); [reflexivity | exact IH].
Qed.

Lemma existsb_map_as {A B : Type} (f : B -> bool) (g : A -> B)
    (h : A -> bool) (l : list A) :
  (forall a, f (g a) = h a) -> existsb f (map g l) = existsb h l.
Proof.
  intros H. induction l as [| a l IH]; [reflexivity |].
  cbn [map existsb]. rewrite H, IH. reflexivity.
Qed.

Lemma high_impact_change (d : selectedData) (label : string) (c : Z) :
  jgt (Math_abs (parseFloat (point_change (impact_point d label (of_Z c)))))
      (Fin 15)
  = (15 <? Z.abs c)%Z.
Proof.
  cbn [impact_point point_change parseFloat]. unfold of_Z.
  cbn [Math_abs jgt jlt]. rewrite <- abs_IZR.
  destruct (Z.ltb_spec 15 (Z.abs c)) as [H | H].
  - apply Rlt_b_true. apply (IZR_lt 15). exact H.
  - apply Rlt_b_false. apply Rle_not_lt. apply (IZR_le _ 15). exact H.
Qed.

(** X28.  For a change range with whole ends [lo] and [hi] that JavaScript
    numbers hold exactly ([-2^53 <= lo], [hi <= 2^53 - 10]) the loop of the
    sensitivity analysis ends and the analysis returns: one impact for each
    change [lo], [lo + 10], ... up to [hi] (none when [hi < lo]), in this
    order; then the risk-management recommendation exactly when one of these
    changes exceeds 15 in magnitude, and always the optimization and the
    contingency recommendations. *)
Theorem sensitivity_of_whole_range (d : selectedData) (label : string)
    (lo hi : Z) :
  (- 2 ^ 53 <= lo)%Z -> (hi <= 2 ^ 53 - 10)%Z ->
  exists analysis,
    (forall steps,
       (Z.to_nat ((hi - lo) / 10 + 1) + 1 <= steps)%nat ->
       performSensitivityAnalysis steps d label [of_Z lo; of_Z hi]
       = Some analysis)
    /\ impacts analysis
       = map (fun c => impact_point d label (of_Z c)) (changes lo hi)
    /\ (forall c, In c (changes lo hi)
                  <-> (lo <= c <= hi)%Z /\ ((c - lo) mod 10 = 0)%Z)
    /\ recommendations analysis
       = (if existsb (fun c => (15 <? Z.abs c)%Z) (changes lo hi)
          then [ {| recommendation_type := "risk_management";
                    message :=
                      "High sensitivity detected - implement monitoring and controls";
                    priority := "high" |} ]
          else [])
         ++ [ {| recommendation_type := "optimization";
                 message :=
                   "Focus on variables with highest positive impact potential";
                 priority := "medium" |};
              {| recommendation_type := "contingency";
                 message := "Prepare contingency plans for negative scenarios";
                 priority := "medium" |} ].
Proof.
  intros _ _. eexists. split; [| split; [| split]].
  - intros steps Hsteps. unfold performSensitivityAnalysis.
    change (ToNumber (array_at [of_Z lo; of_Z hi] 0)) with (of_Z lo).
    change (ToNumber (array_at [of_Z lo; of_Z hi] 1)) with (of_Z hi).
    rewrite (sensitivity_loop_whole d label hi _ lo steps [] eq_refl Hsteps).
    cbn [app]. reflexivity.
  - reflexivity.
  - intros c. apply changes_spec.
  - cbn [recommendations]. unfold generateSensitivityRecommendations.
    rewrite filter_inhabited.
    rewrite (existsb_map_as _ _ (fun c => (15 <? Z.abs c)%Z));
      [reflexivity | intros c; apply high_impact_change].
Qed.

Lemma default_range_sample :
  exists analysis,
    performSensitivityAnalysis 12 sales_sample "price" [Fin (-50); Fin 50]
    = Some analysis
    /\ map point_change (impacts analysis)
       = map (fun c => [Shown (Fin (IZR c)); Lit "%"])
             [-50; -40; -30; -20; -10; 0; 10; 20; 30; 40; 50]%Z
    /\ map recommendation_type (recommendations analysis)
       = ["risk_management"; "optimization"; "contingency"]%string.
Proof.
  destruct (sensitivity_of_whole_range sales_sample "price" (-50) 50)
    as (analysis & Hrun & Himpacts & _ & Hrec); [lia | lia |].
  exists analysis. split; [apply (Hrun 12%nat); vm_compute; lia |].
  split.
  - rewrite Himpacts. reflexivity.
  - rewrite Hrec. reflexivity.
Defined.

Lemma jle_unbounded (change stop : number) :
  jle change stop = true ->
  isFinite change = false \/ isFinite stop = false ->
  jle (jadd change (Fin 10)) stop = true
  /\ (isFinite (jadd change (Fin 10)) = false \/ isFinite stop = false).
Proof.
  intros Hle [H | H].
  - destruct change; try discriminate H; auto.
  - destruct stop; try discriminate H; destruct change; try discriminate Hle;
      auto.
Qed.

(** X29.  When the range is not empty and one of its ends is an infinity, the
    loop of the sensitivity analysis never ends: no number of rounds yields a
    result. *)
Theorem sensitivity_of_unbounded_range (d : selectedData) (label : string)
    (lo hi : number) (steps : nat) :
  jle lo hi = true -> isFinite lo = false \/ isFinite hi = false ->
  performSensitivityAnalysis steps d label [lo; hi] = None.
Proof.
  intros Hle Hinf. unfold performSensitivityAnalysis.
  change (ToNumber (array_at [lo; hi] 0)) with lo.
  change (ToNumber (array_at [lo; hi] 1)) with hi.
  assert (Hloop : forall steps change acc,
            jle change hi = true ->
            isFinite change = false \/ isFinite hi = false ->
            sensitivity_loop steps d label change hi acc = None).
  { clear. induction steps as [| steps IH]; intros change acc Hle Hinf;
      [reflexivity |].
    cbn [sensitivity_loop]. rewrite Hle.
    destruct (jle_unbounded change hi Hle Hinf) as [Hle' Hinf'].
    apply IH; assumption. }
  rewrite Hloop by assumption. reflexivity.
Qed.

Lemma unbounded_range_sample :
  performSensitivityAnalysis 1000 sales_sample "price" [NInf; Fin 50] = None.
Proof.
  apply (sensitivity_of_unbounded_range sales_sample "price" NInf (Fin 50) 1000);
    [reflexivity | left; reflexivity].
Defined.

(** X30.  The description of a change mirrors under a change of sign except at
    the magnitudes 10 and 20, where the increase gets the weaker reading: +10
    is Minor positive but -10 Moderate negative, +20 is Moderate positive but
    -20 Significant negative. *)
Theorem impact_descriptions (c : R) :
  (Rabs c <> 10 -> Rabs c <> 20 ->
   getImpactDescription (Fin (- c))
   = opposite_impact (getImpactDescription (Fin c)))
  /\ (c = 10 ->
      getImpactDescription (Fin c) = "Minor positive impact"%string
      /\ getImpactDescription (Fin (- c)) = "Moderate negative impact"%string)
  /\ (c = 20 ->
      getImpactDescription (Fin c) = "Moderate positive impact"%string
      /\ getImpactDescription (Fin (- c))
         = "Significant negative impact"%string).
Proof.
  split; [| split].
  - intros H1 H2.
    assert (c <> 10 /\ c <> - 10 /\ c <> 20 /\ c <> - 20) as (A & B & C & D).
    { unfold Rabs in H1, H2. destruct (Rcase_abs c); repeat split; lra. }
    unfold getImpactDescription. split_comparisons; reflexivity.
  - intros ->. unfold getImpactDescription.
    split; split_comparisons; reflexivity.
  - intros ->. unfold getImpactDescription.
    split; split_comparisons; reflexivity.
Qed.

End Sensitivity.
